(** * Animation capture tool: selector engine, DOM diff compression and
      profile extraction

    A shallow embedding of the algorithmic core of the repository:
    - [Selectors]       : src/selectors.ts       (StableSelectorEngine)
    - [DomDiff]         : src/dom-diff.ts        (DOMDiffCompressor)
    - [Instrumentation] : src/instrumentation.ts (the inline DOMDiffCompressor)
    - [TraceWriter]     : src/trace-writer.ts    (extractProfiles)

    JavaScript objects used as dictionaries are finite maps ([gmap]); the
    insertion-ordered [Map] of [extractProfiles] is an association list;
    [Set<Element>] is a finite set of element identities; JavaScript numbers
    are IEEE 754 binary64 values ([spec_float] at precision 53). *)

From Stdlib Require Import ZArith Ascii String.
From Stdlib Require Import Floats.SpecFloat.
From stdpp Require Import gmap strings list pretty.

Local Open Scope string_scope.
Local Open Scope list_scope.

(** ** DOM handles

    An element is known to the code only through its object identity
    ([===], membership in a [Set]); identities are natural numbers. A
    mutation target is a [Node], which may or may not be an [Element]
    ([target instanceof Element]). *)

Module Dom.

Definition Element := nat.

Inductive Node :=
  | ElementNode (e : Element)
  | OtherNode (n : nat).

(** [node instanceof Element], returning the element when it is one. *)
Definition asElement (n : Node) : option Element :=
  match n with
  | ElementNode e => Some e
  | OtherNode _ => None
  end.

Inductive MutationType := attributes | childList | characterData.

#[global] Instance MutationType_eq_dec : EqDecision MutationType.
Proof. solve_decision. Defined.

(** The fields of a DOM [MutationRecord] that the compressors read. *)
Record MutationRecord := {
  mutation_type : MutationType;
  attributeName : option string;
  target : Node;
}.

(** The shape [{ from: string; to: string }] of one reported change. *)
Record Change := { from : string; to : string }.

End Dom.

Import Dom.

(** ** JavaScript string primitives used by the code

    Strings are sequences of 8-bit characters; case mapping and character
    classes are the ASCII ones. *)

Module JS.

(** A string used as a condition: the empty string is falsy. *)
Definition truthy (s : string) : bool :=
  match s with
  | EmptyString => false
  | String _ _ => true
  end.

(** [o || d] for a possibly undefined string [o]. *)
Definition orElse (o : option string) (d : string) : string :=
  match o with
  | Some s => if truthy s then s else d
  | None => d
  end.

Definition isUpper (c : ascii) : bool :=
  let n := nat_of_ascii c in (65 <=? n)%nat && (n <=? 90)%nat.
Definition isLower (c : ascii) : bool :=
  let n := nat_of_ascii c in (97 <=? n)%nat && (n <=? 122)%nat.
Definition isDigit (c : ascii) : bool :=
  let n := nat_of_ascii c in (48 <=? n)%nat && (n <=? 57)%nat.
Definition isLetter (c : ascii) : bool := isUpper c || isLower c.
(** [[a-f0-9]] under the [i] flag. *)
Definition isHexDigit (c : ascii) : bool :=
  let n := nat_of_ascii c in
  isDigit c || ((97 <=? n)%nat && (n <=? 102)%nat)
            || ((65 <=? n)%nat && (n <=? 70)%nat).

Definition lowerChar (c : ascii) : ascii :=
  if isUpper c then ascii_of_nat (nat_of_ascii c + 32) else c.

Fixpoint toLowerCase (s : string) : string :=
  match s with
  | EmptyString => EmptyString
  | String c r => String (lowerChar c) (toLowerCase r)
  end.

(** [s.startsWith(p)], returning the rest of [s] after [p]. *)
Fixpoint stripPrefix (p s : string) : option string :=
  match p, s with
  | EmptyString, _ => Some s
  | String a p', String b s' =>
      if Ascii.eqb a b then stripPrefix p' s' else None
  | String _ _, EmptyString => None
  end.

Definition startsWith (s p : string) : bool :=
  match stripPrefix p s with Some _ => true | None => false end.

(** [s.includes(pat)] *)
Fixpoint includes (s pat : string) : bool :=
  startsWith s pat ||
  match s with
  | EmptyString => false
  | String _ r => includes r pat
  end.

Fixpoint allChars (f : ascii -> bool) (s : string) : bool :=
  match s with
  | EmptyString => true
  | String c r => f c && allChars f r
  end.

(** The longest prefix of characters satisfying [f], and the rest. *)
Fixpoint span (f : ascii -> bool) (s : string) : string * string :=
  match s with
  | EmptyString => (EmptyString, EmptyString)
  | String c r =>
      if f c then let '(a, b) := span f r in (String c a, b)
      else (EmptyString, s)
  end.

(** [array.join(sep)] *)
Fixpoint join (sep : string) (l : list string) : string :=
  match l with
  | [] => ""
  | [x] => x
  | x :: r => x +:+ sep +:+ join sep r
  end.

(** [s.split(c)] for a one-character separator: the current segment [cur]
    is accumulated until the next separator. *)
Fixpoint splitAux (c : ascii) (cur : string) (s : string) : list string :=
  match s with
  | EmptyString => [cur]
  | String a r =>
      if Ascii.eqb a c then cur :: splitAux c EmptyString r
      else splitAux c (cur +:+ String a EmptyString) r
  end.

Definition split (c : ascii) (s : string) : list string :=
  splitAux c EmptyString s.

(** [array.indexOf(x)]: the first position of [x], or -1. *)
Fixpoint indexOfFrom (i : Z) (x : nat) (l : list nat) : Z :=
  match l with
  | [] => (-1)%Z
  | y :: r => if (y =? x)%nat then i else indexOfFrom (i + 1)%Z x r
  end.

Definition indexOf (l : list nat) (x : nat) : Z := indexOfFrom 0 x l.

Definition dquote : string := String "034"%char EmptyString.

(** *** Numbers

    A JavaScript number is an IEEE 754 binary64 value. *)

Definition prec : Z := 53.
Definition emax : Z := 1024.

Definition number := spec_float.

Definition isNaN (x : number) : bool :=
  match x with
  | S754_nan => true
  | _ => false
  end.

Definition sub (x y : number) : number := SFsub prec emax x y.
Definition abs (x : number) : number := SFabs x.
(** [x >= y]; false when either side is NaN. *)
Definition geb (x y : number) : bool := SFleb y x.

(** The binary64 value nearest to [(-1)^neg * m * 10^e], ties to even: the
    numeric value of a decimal literal. *)
Definition ofDecimal (neg : bool) (m : Z) (e : Z) : number :=
  match m with
  | Zpos p =>
      if (0 <=? e)%Z
      then binary_normalize prec emax (Zpos p * 10 ^ e) 0 false
      else
        let '(q, e', l) :=
          SFdiv_core_binary prec emax (Zpos p) 0 (10 ^ (- e)) 0 in
        binary_round_aux prec emax false q e' l
  | _ => S754_zero false
  end.

Definition withSign (neg : bool) (x : number) : number :=
  if neg then SFopp x else x.

Definition isWhiteSpace (c : ascii) : bool :=
  let n := nat_of_ascii c in
  ((9 <=? n)%nat && (n <=? 13)%nat) || (n =? 32)%nat.

Fixpoint trimStart (s : string) : string :=
  match s with
  | String c r => if isWhiteSpace c then trimStart r else s
  | EmptyString => s
  end.

Definition digitValue (c : ascii) : Z := Z.of_nat (nat_of_ascii c - 48).

(** Reads the longest run of decimal digits at the head of [s]: the value of
    [acc] followed by those digits, how many were read, and the rest. *)
Fixpoint readDigits (acc : Z) (s : string) : Z * nat * string :=
  match s with
  | String c r =>
      if isDigit c then
        let '(v, n, rest) := readDigits (10 * acc + digitValue c) r in
        (v, S n, rest)
      else (acc, O, s)
  | EmptyString => (acc, O, s)
  end.

(** The optional [ExponentPart] at the head of [s]; 0 when there is none. *)
Definition readExponent (s : string) : Z :=
  match s with
  | String c r =>
      if Ascii.eqb c "e" || Ascii.eqb c "E" then
        let '(neg, r') :=
          match r with
          | String "-"%char r' => (true, r')
          | String "+"%char r' => (false, r')
          | _ => (false, r)
          end in
        let '(v, n, _) := readDigits 0 r' in
        match n with
        | O => 0%Z
        | S _ => if neg then (- v)%Z else v
        end
      else 0%Z
  | EmptyString => 0%Z
  end.

(** [StrUnsignedDecimalLiteral]: Infinity, or digits with an optional
    fraction and exponent; NaN when no prefix of [s] is a literal. *)
Definition parseUnsigned (s : string) : number :=
  if startsWith s "Infinity" then S754_infinity false
  else
    let '(i, ni, afterInt) := readDigits 0 s in
    let '(m, nf, afterFrac) :=
      match afterInt with
      | String "."%char r => readDigits i r
      | _ => (i, O, afterInt)
      end in
    match (ni + nf)%nat with
    | O => S754_nan
    | S _ => ofDecimal false m (readExponent afterFrac - Z.of_nat nf)
    end.

(** The global [parseFloat]: leading white space is skipped, then the
    longest prefix that is a decimal literal is converted. *)
Definition parseFloat (input : string) : number :=
  match trimStart input with
  | String "-"%char r => withSign true (parseUnsigned r)
  | String "+"%char r => parseUnsigned r
  | s => parseUnsigned s
  end.

End JS.

(** ** src/selectors.ts *)

Module Selectors.

(** What the engine reads of an element: the element itself is its
    identity, its data is looked up in the document. *)
Record ElementData := {
  tagName : string;
  attributeMap : gmap string string;      (* getAttribute *)
  classList : list string;
  parentElement : option Element;
  children : list Element;
}.

(** The page: the data of every element object (attached or detached), the
    root element, and the browser's selector query. [querySelectorAll]
    gives [None] when the browser raises a syntax error for the selector. *)
Record Document := {
  element : Element -> ElementData;
  documentElement : Element;
  querySelectorAll : string -> option (list Element);
}.

Record SelectorOptions := {
  opt_ignoreAttributes : option (list string);
  opt_preferredAttributes : option (list string);
  opt_maxDepth : option nat;
}.

Definition DEFAULT_IGNORED_ATTRIBUTES : list string :=
  [ "data-reactid"; "data-react-checksum"; "data-v-"; "data-svelte-";
    "_ngcontent-"; "_nghost-"; "data-emotion-"; "data-styled-";
    "ng-reflect-" ].

Definition DEFAULT_PREFERRED_ATTRIBUTES : list string :=
  [ "id"; "data-testid"; "data-test"; "data-id"; "name"; "aria-label";
    "role"; "type"; "href"; "for" ].

Record StableSelectorEngine := {
  ignoreAttributes : list string;
  preferredAttributes : list string;
  maxDepth : nat;
}.

(** The constructor: [options.x || DEFAULT]; an array is always truthy, the
    number 0 is not. *)
Definition construct (options : SelectorOptions) : StableSelectorEngine :=
  {| ignoreAttributes :=
       default DEFAULT_IGNORED_ATTRIBUTES (opt_ignoreAttributes options);
     preferredAttributes :=
       default DEFAULT_PREFERRED_ATTRIBUTES (opt_preferredAttributes options);
     maxDepth :=
       match opt_maxDepth options with
       | Some (S n) => S n
       | _ => 5
       end |}.

Definition noOptions : SelectorOptions :=
  {| opt_ignoreAttributes := None;
     opt_preferredAttributes := None;
     opt_maxDepth := None |}.

Section Engine.

Variable doc : Document.
Variable this : StableSelectorEngine.

Definition tag (e : Element) : string :=
  JS.toLowerCase (tagName (element doc e)).

Definition isUnique (e : Element) (selector : string) : bool :=
  match querySelectorAll doc selector with
  | Some matches =>
      (length matches =? 1)%nat &&
      match matches !! 0%nat with
      | Some m => (m =? e)%nat
      | None => false
      end
  | None => false
  end.

(** [value.replace(/^(react-|vue-|ng-|svelte-)/, "")] *)
Definition cleanAttributeValue (value : string) : string :=
  match JS.stripPrefix "react-" value with
  | Some r => r
  | None =>
  match JS.stripPrefix "vue-" value with
  | Some r => r
  | None =>
  match JS.stripPrefix "ng-" value with
  | Some r => r
  | None =>
  match JS.stripPrefix "svelte-" value with
  | Some r => r
  | None => value
  end end end end.

Fixpoint attributeSelectorFrom (e : Element) (attrs : list string)
  : option string :=
  match attrs with
  | [] => None
  | attr :: rest =>
      match attributeMap (element doc e) !! attr with
      | Some value =>
          if JS.truthy value && JS.truthy (cleanAttributeValue value)
          then Some (tag e +:+ "[" +:+ attr +:+ "=" +:+ JS.dquote
                       +:+ cleanAttributeValue value +:+ JS.dquote +:+ "]")
          else attributeSelectorFrom e rest
      | None => attributeSelectorFrom e rest
      end
  end.

Definition getAttributeSelector (e : Element) : option string :=
  attributeSelectorFrom e (preferredAttributes this).

(** [/^[a-z]+-[a-f0-9]{6,}$/i.test(className)] *)
Definition isHashClass (className : string) : bool :=
  let '(letters, rest) := JS.span JS.isLetter className in
  JS.truthy letters &&
  match rest with
  | String "-"%char digits =>
      (6 <=? String.length digits)%nat && JS.allChars JS.isHexDigit digits
  | _ => false
  end.

(** [/^\d+$/.test(className)] *)
Definition isNumeric (className : string) : bool :=
  JS.truthy className && JS.allChars JS.isDigit className.

Definition isMeaningfulClass (className : string) : bool :=
  if existsb (fun pattern => JS.includes className pattern)
       (ignoreAttributes this)
  then false
  else if isHashClass className then false
  else if (String.length className <? 3)%nat || isNumeric className then false
  else true.

Fixpoint firstUniqueClass (e : Element) (classes : list string)
  : option string :=
  match classes with
  | [] => None
  | cls :: rest =>
      let selector := tag e +:+ "." +:+ cls in
      if isUnique e selector then Some selector
      else firstUniqueClass e rest
  end.

Definition getClassSelector (e : Element) : option string :=
  let classes := List.filter isMeaningfulClass (classList (element doc e)) in
  match classes with
  | [] => None
  | _ =>
      match firstUniqueClass e classes with
      | Some selector => Some selector
      | None =>
          if (1 <? length classes)%nat then
            let selector := tag e +:+ "." +:+ JS.join "." classes in
            if isUnique e selector then Some selector else None
          else None
      end
  end.

(** The selector of one level of the structural path. *)
Definition levelSelector (current : Element) : string :=
  let selector := tag current in
  match parentElement (element doc current) with
  | Some parent =>
      let siblings := children (element doc parent) in
      if (1 <? length siblings)%nat then
        let sameTypeSiblings :=
          List.filter
            (fun s => String.eqb (tagName (element doc s))
                                 (tagName (element doc current)))
            siblings in
        if (1 <? length sameTypeSiblings)%nat then
          let index := (JS.indexOf sameTypeSiblings current + 1)%Z in
          selector +:+ ":nth-of-type(" +:+ pretty index +:+ ")"
        else selector
      else selector
  | None => selector
  end.

(** The [while] loop of [getStructuralPath]; [fuel] is [maxDepth - depth],
    the number of iterations the bound still allows. *)
Fixpoint structuralLoop (fuel : nat) (current : option Element)
    (path : list string) : list string :=
  match fuel with
  | O => path
  | S fuel' =>
      match current with
      | None => path
      | Some cur =>
          if (cur =? documentElement doc)%nat then path
          else structuralLoop fuel' (parentElement (element doc cur))
                 (levelSelector cur :: path)
      end
  end.

Definition getStructuralPath (e : Element) : string :=
  JS.join " > " (structuralLoop (maxDepth this) (Some e) []).

Definition generate (e : Element) : string :=
  match getAttributeSelector e with
  | Some attributeSelector =>
      if isUnique e attributeSelector then attributeSelector
      else
        match getClassSelector e with
        | Some classSelector =>
            if isUnique e classSelector then classSelector
            else getStructuralPath e
        | None => getStructuralPath e
        end
  | None =>
      match getClassSelector e with
      | Some classSelector =>
          if isUnique e classSelector then classSelector
          else getStructuralPath e
      | None => getStructuralPath e
      end
  end.

(** Which [return] of [generate] is taken. *)
Inductive Tier := AttributeTier | ClassTier | StructuralTier.

Definition attributeTierAccepts (e : Element) : bool :=
  match getAttributeSelector e with
  | Some attributeSelector => isUnique e attributeSelector
  | None => false
  end.

Definition classTierAccepts (e : Element) : bool :=
  match getClassSelector e with
  | Some classSelector => isUnique e classSelector
  | None => false
  end.

Definition tierOf (e : Element) : Tier :=
  if attributeTierAccepts e then AttributeTier
  else if classTierAccepts e then ClassTier
  else StructuralTier.

End Engine.

End Selectors.

(** ** src/dom-diff.ts *)

Module DomDiff.

Definition MEANINGFUL_STYLE_PROPERTIES : list string :=
  [ "display"; "visibility"; "opacity"; "transform"; "transition";
    "animation"; "position"; "top"; "left"; "right"; "bottom"; "width";
    "height"; "z-index"; "overflow"; "clip-path"; "filter";
    "backdrop-filter" ].

Record StyleDiff := {
  selector : string;
  changes : gmap string Change;
}.

(** A [CSSStyleDeclaration] is read through [getPropertyValue], which gives
    the empty string for a property that is not set. *)
Definition CSSStyleDeclaration := string -> string.

Definition NUMERIC_PROPERTIES : list string :=
  [ "width"; "height"; "top"; "left"; "right"; "bottom" ].

Definition one : JS.number := JS.ofDecimal false 1 0.
Definition hundredth : JS.number := JS.ofDecimal false 1 (-2).

Definition isSignificantChange (property from to : string) : bool :=
  if negb (JS.truthy from) && negb (JS.truthy to) then false
  else
    let fromNum := JS.parseFloat from in
    let toNum := JS.parseFloat to in
    let bothNumbers := negb (JS.isNaN fromNum) && negb (JS.isNaN toNum) in
    if existsb (String.eqb property) NUMERIC_PROPERTIES && bothNumbers
    then JS.geb (JS.abs (JS.sub toNum fromNum)) one
    else if String.eqb property "opacity" && bothNumbers
    then JS.geb (JS.abs (JS.sub toNum fromNum)) hundredth
    else true.

(** One iteration of [for (const prop of MEANINGFUL_STYLE_PROPERTIES)]. *)
Definition styleDiff_step (beforeStyles afterStyles : CSSStyleDeclaration)
    (changes : gmap string Change) (prop : string) : gmap string Change :=
  let before := beforeStyles prop in
  let after := afterStyles prop in
  if negb (String.eqb before after) && isSignificantChange prop before after
  then <[ prop := {| from := before; to := after |} ]> changes
  else changes.

Definition computeStyleDiff (element : Element)
    (beforeStyles afterStyles : CSSStyleDeclaration) : option StyleDiff :=
  let changes :=
    foldl (styleDiff_step beforeStyles afterStyles) ∅
      MEANINGFUL_STYLE_PROPERTIES in
  if (size changes =? 0)%nat then None
  else Some {| selector := ""; changes := changes |}.

(** The mutable locals of [compressMutations]. *)
Record CompressState := {
  affectedElements : gset Element;
  hasAttributeChanges : bool;
  hasChildListChanges : bool;
  hasClassChanges : bool;
}.

Definition compress_init : CompressState :=
  {| affectedElements := ∅;
     hasAttributeChanges := false;
     hasChildListChanges := false;
     hasClassChanges := false |}.

(** One iteration of [for (const mutation of mutations)]. *)
Definition compress_step (st : CompressState) (mutation : MutationRecord)
  : CompressState :=
  let affected :=
    match asElement (target mutation) with
    | Some e => {[ e ]} ∪ affectedElements st
    | None => affectedElements st
    end in
  match mutation_type mutation with
  | attributes =>
      {| affectedElements := affected;
         hasAttributeChanges := true;
         hasChildListChanges := hasChildListChanges st;
         hasClassChanges :=
           if decide (attributeName mutation = Some "class") then true
           else hasClassChanges st |}
  | childList =>
      {| affectedElements := affected;
         hasAttributeChanges := hasAttributeChanges st;
         hasChildListChanges := true;
         hasClassChanges := hasClassChanges st |}
  | characterData =>
      {| affectedElements := affected;
         hasAttributeChanges := hasAttributeChanges st;
         hasChildListChanges := hasChildListChanges st;
         hasClassChanges := hasClassChanges st |}
  end.

(** The returned object; its field [affectedElements] (the size of the set)
    is [affectedElementCount] here. *)
Record CompressedMutations := {
  intent : string;
  summary : string;
  affectedElementCount : nat;
}.

Definition summaryOf (mutations : nat) (elements : nat) : string :=
  pretty mutations +:+ " mutations on " +:+ pretty elements +:+ " elements".

Definition compressMutations (mutations : list MutationRecord)
  : CompressedMutations :=
  let st := foldl compress_step compress_init mutations in
  let n := size (affectedElements st) in
  let intent :=
    if hasClassChanges st && negb (hasChildListChanges st) then "style-change"
    else if hasChildListChanges st && (n =? 1)%nat then "content-update"
    else if hasChildListChanges st && (1 <? n)%nat then "dom-restructure"
    else if hasAttributeChanges st then "attribute-change"
    else "unknown" in
  {| intent := intent;
     summary := summaryOf (length mutations) n;
     affectedElementCount := n |}.

End DomDiff.

(** ** src/instrumentation.ts: the inline engine injected into the page *)

Module Instrumentation.

Record InlineState := {
  affected : gset Element;
  hasClass : bool;
  hasChild : bool;
}.

Definition inline_init : InlineState :=
  {| affected := ∅; hasClass := false; hasChild := false |}.

Definition inline_step (st : InlineState) (m : MutationRecord) : InlineState :=
  {| affected :=
       match asElement (target m) with
       | Some e => {[ e ]} ∪ affected st
       | None => affected st
       end;
     hasClass :=
       if decide (mutation_type m = attributes)
       then (if decide (attributeName m = Some "class") then true else hasClass st)
       else hasClass st;
     hasChild :=
       if decide (mutation_type m = childList) then true else hasChild st |}.

Definition compressMutations (mutations : list MutationRecord)
  : DomDiff.CompressedMutations :=
  let st := foldl inline_step inline_init mutations in
  let n := size (affected st) in
  let intent :=
    if hasClass st && negb (hasChild st) then "style-change"
    else if hasChild st && (n =? 1)%nat then "content-update"
    else if hasChild st then "dom-restructure"
    else "unknown" in
  {| DomDiff.intent := intent;
     DomDiff.summary := DomDiff.summaryOf (length mutations) n;
     DomDiff.affectedElementCount := n |}.

End Instrumentation.

(** ** src/trace-writer.ts *)

Module TraceWriter.

(** *** src/types.ts: the fields that [extractProfiles] reads

    A [Record<string, string>] is a finite map from property names to
    strings: a plain dictionary, as it comes out of [JSON] or of
    [captureStyles]. *)

Record InteractionEvent := {
  kind : string;
  selector : string;
}.

Record DOMSnapshot := {
  dom_selector : string;
  classes : list string;
}.

Record StyleSnapshot := {
  style_selector : string;
  computed : gmap string string;
}.

Record Snapshot := {
  dom : DOMSnapshot;
  style : StyleSnapshot;
}.

Inductive TraceType := interaction | mutation | style_trace | network.

Record TraceRecord := {
  ts : Z;
  type : TraceType;
  event : option InteractionEvent;
  before : option Snapshot;
  after : option Snapshot;
}.

Inductive EffectType := transition | animation | class_toggle | dom_manipulation.

Record Timing := {
  duration : string;
  easing : option string;
  delay : option string;
}.

Record Effect := {
  effect_type : EffectType;
  target : string;
  properties : gmap string Change;
  timing : option Timing;
}.

Record Trigger := {
  trigger_event : string;
  trigger_selector : string;
}.

Record StyleChange := {
  change_trigger : Trigger;
  change_effect : Effect;
}.

Record AnimationProfile := {
  name : string;
  trigger : Trigger;
  effect : Effect;
}.

(** *** The insertion-ordered [Map<string, TraceRecord[]>] *)

Section OrderedMap.

Context {V : Type}.

Fixpoint Map_has (k : string) (m : list (string * V)) : bool :=
  match m with
  | [] => false
  | (k', _) :: r => String.eqb k' k || Map_has k r
  end.

(** [m.set(k, v)]: an existing key keeps its position, a new key goes last. *)
Fixpoint Map_set (k : string) (v : V) (m : list (string * V))
  : list (string * V) :=
  match m with
  | [] => [(k, v)]
  | (k', v') :: r =>
      if String.eqb k' k then (k, v) :: r else (k', v') :: Map_set k v r
  end.

(** An in-place update of the value stored under [k], as
    [m.get(k).push(x)] does to the stored array. *)
Fixpoint Map_update (f : V -> V) (k : string) (m : list (string * V))
  : list (string * V) :=
  match m with
  | [] => []
  | (k', v') :: r =>
      if String.eqb k' k then (k', f v') :: r
      else (k', v') :: Map_update f k r
  end.

End OrderedMap.

(** *** findConsistentStyleChanges *)

(** One iteration of [for (const prop in afterStyle)]. *)
Definition property_step (beforeStyle : gmap string string)
    (prop : string) (afterValue : string) (properties : gmap string Change)
  : gmap string Change :=
  if decide (beforeStyle !! prop = Some afterValue) then properties
  else <[ prop := {| from := JS.orElse (beforeStyle !! prop) "";
                     to := JS.orElse (Some afterValue) "" |} ]> properties.

Definition changedProperties (beforeStyle afterStyle : gmap string string)
  : gmap string Change :=
  map_fold (property_step beforeStyle) ∅ afterStyle.

(** The body of the loop over the traces of one selector: [None] stands for
    [continue] and for a trace whose [properties] is empty. *)
Definition styleChangeOf (trace : TraceRecord) : option StyleChange :=
  match event trace, before trace, after trace with
  | Some ev, Some b, Some a =>
      let beforeStyle := computed (style b) in
      let afterStyle := computed (style a) in
      let properties := changedProperties beforeStyle afterStyle in
      if (0 <? size properties)%nat then
        let effectType :=
          if negb (length (classes (dom a)) =? length (classes (dom b)))%nat
          then class_toggle
          else if bool_decide (is_Some (properties !! "animation-name"))
          then animation
          else transition in
        let timing :=
          if bool_decide (is_Some (properties !! "transition")) then
            Some {| duration :=
                      JS.orElse (afterStyle !! "transition-duration") "0s";
                    easing :=
                      Some (JS.orElse
                              (afterStyle !! "transition-timing-function")
                              "ease");
                    delay :=
                      Some (JS.orElse (afterStyle !! "transition-delay")
                              "0s") |}
          else None in
        Some {| change_trigger :=
                  {| trigger_event := kind ev;
                     trigger_selector := selector ev |};
                change_effect :=
                  {| effect_type := effectType;
                     target := selector ev;
                     properties := properties;
                     timing := timing |} |}
      else None
  | _, _, _ => None
  end.

Definition findConsistentStyleChanges (traces : list TraceRecord)
  : list StyleChange :=
  foldl (fun changes trace =>
           match styleChangeOf trace with
           | Some change => changes ++ [change]
           | None => changes
           end) [] traces.

(** *** extractProfiles *)

(** One iteration of the grouping loop. *)
Definition group_step (bySelector : list (string * list TraceRecord))
    (trace : TraceRecord) : list (string * list TraceRecord) :=
  match type trace, event trace with
  | interaction, Some ev =>
      let bySelector' :=
        if Map_has (selector ev) bySelector then bySelector
        else Map_set (selector ev) [] bySelector in
      Map_update (fun traces => traces ++ [trace]) (selector ev) bySelector'
  | _, _ => bySelector
  end.

Definition groupBySelector (traces : list TraceRecord)
  : list (string * list TraceRecord) :=
  foldl group_step [] traces.

(** [selector.split(' ').pop() || 'element'] *)
Definition lastToken (selector : string) : string :=
  JS.orElse (last (JS.split " " selector)) "element".

Definition profileOf (selector : string) (change : StyleChange)
  : AnimationProfile :=
  {| name := trigger_event (change_trigger change) +:+ "-on-"
               +:+ lastToken selector;
     trigger := change_trigger change;
     effect := change_effect change |}.

(** One iteration of [for (const [selector, traces] of bySelector)]. *)
Definition profiles_step (profiles : list AnimationProfile)
    (group : string * list TraceRecord) : list AnimationProfile :=
  let '(selector, traces) := group in
  let styleChanges := findConsistentStyleChanges traces in
  if (0 <? length styleChanges)%nat
  then profiles ++ map (profileOf selector) styleChanges
  else profiles.

Definition extractProfiles (traces : list TraceRecord)
  : list AnimationProfile :=
  foldl profiles_step [] (groupBySelector traces).

End TraceWriter.
(** ** Plain objects

    An object used as a dictionary is modelled by the finite map of its own
    properties. The code also reaches [Object.prototype] through such an
    object: [key in o] and [o[key]] find the members of the prototype, and
    an assignment to [o["__proto__"]] stores no own property. The map and
    the object agree on every key that does not name a member of
    [Object.prototype]; what is stated about a dictionary filled from page
    data is stated for such keys. *)

Module JSObject.

(** The own property names of [Object.prototype]. *)
Definition PROTOTYPE_KEYS : list string :=
  [ "constructor"; "__proto__"; "hasOwnProperty"; "isPrototypeOf";
    "propertyIsEnumerable"; "toLocaleString"; "toString"; "valueOf";
    "__defineGetter__"; "__defineSetter__"; "__lookupGetter__";
    "__lookupSetter__" ].

Definition plainKey (key : string) : Prop := key ∉ PROTOTYPE_KEYS.

(** A dictionary none of whose keys names a member of [Object.prototype]. *)
Definition plain {V : Type} (o : gmap string V) : Prop :=
  map_Forall (fun key _ => plainKey key) o.

End JSObject.

(** ** More string primitives

    On text made of ASCII characters the white space that [trim] removes is
    the one of [JS.isWhiteSpace] (tab, line feed, vertical tab, form feed,
    carriage return, space); [String.prototype.trim] also removes U+00A0,
    U+FEFF and the other Unicode spaces and line terminators, so what is
    stated about trimmed text is stated for ASCII text. *)

Module JSText.

Definition isAscii (s : string) : bool :=
  JS.allChars (fun c => (nat_of_ascii c <? 128)%nat) s.

(** [s.trimEnd()]: trailing white space is dropped. *)
Fixpoint trimEnd (s : string) : string :=
  match s with
  | EmptyString => EmptyString
  | String c r =>
      match trimEnd r with
      | EmptyString => if JS.isWhiteSpace c then EmptyString
                       else String c EmptyString
      | r' => String c r'
      end
  end.

(** [s.trim()] *)
Definition trim (s : string) : string := trimEnd (JS.trimStart s).

(** [o || ""] for an optional string used as a condition or a default. *)
Definition truthyOpt (o : option string) : bool :=
  match o with
  | Some s => JS.truthy s
  | None => false
  end.

End JSText.

(** ** src/dom-diff.ts: serialization and the structural diff *)

Module DomDiffStructure.

(** A child node is a text node ([nodeType === 3]) with its content, or
    something else. *)
Inductive ChildNode :=
  | TextNode (textContent : string)
  | OtherChild.

(** What [serializeNode] reads of an element: [attributes] is the
    [NamedNodeMap] in index order. *)
Record ElementView := {
  tagName : string;
  attributes : list (string * string);
  classList : list string;
  childNodes : list ChildNode;
}.

Record DOMNode := {
  tag : string;
  node_attributes : gmap string string;
  classes : list string;
  text : option string;
}.

Definition IGNORED_ATTRIBUTES : list string :=
  [ "data-reactid"; "data-react-checksum"; "data-v-"; "data-svelte-";
    "_ngcontent-"; "_nghost-"; "data-emotion-"; "data-styled-" ].

(** One iteration of the loop over [element.attributes];
    [attrs[attr.name] = attr.value] is an insertion for every name but
    [__proto__] (see [JSObject]). *)
Definition attribute_step (attrs : gmap string string)
    (attr : string * string) : gmap string string :=
  let '(name, value) := attr in
  if existsb (fun ignored => JS.startsWith name ignored) IGNORED_ATTRIBUTES
  then attrs
  else if String.eqb name "style" then attrs
  else if String.eqb name "class" then attrs
  else <[ name := value ]> attrs.

Definition getMeaningfulAttributes (element : ElementView)
  : gmap string string :=
  foldl attribute_step ∅ (attributes element).

Definition keepsClass (cls : string) : bool :=
  if existsb (fun ignored => JS.includes cls ignored) IGNORED_ATTRIBUTES
  then false
  else if Selectors.isHashClass cls then false
  else true.

Definition getMeaningfulClasses (element : ElementView) : list string :=
  List.filter keepsClass (classList element).

(** One iteration of the loop over [element.childNodes]. *)
Definition text_step (text : string) (node : ChildNode) : string :=
  match node with
  | TextNode content => text +:+ JS.orElse (Some content) ""
  | OtherChild => text
  end.

Definition getDirectTextContent (element : ElementView) : string :=
  JSText.trim (foldl text_step "" (childNodes element)).

Definition serializeNode (element : ElementView) : DOMNode :=
  let textContent := getDirectTextContent element in
  {| tag := JS.toLowerCase (tagName element);
     node_attributes := getMeaningfulAttributes element;
     classes := getMeaningfulClasses element;
     text := if JS.truthy textContent then Some textContent else None |}.

(** The first loop of [compareAttributes]: modified and removed keys.
    [after[key]] is read as an own property (see [JSObject]). *)
Definition removed_step (after : gmap string string)
    (key value : string) (changes : gmap string Change) : gmap string Change :=
  if decide (after !! key = Some value) then changes
  else <[ key := {| from := value; to := JS.orElse (after !! key) "" |} ]>
         changes.

(** The second loop: added keys. [key in before] is read as the presence
    of an own property (see [JSObject]). *)
Definition added_step (before : gmap string string)
    (key value : string) (changes : gmap string Change) : gmap string Change :=
  if bool_decide (is_Some (before !! key)) then changes
  else <[ key := {| from := ""; to := value |} ]> changes.

Definition compareAttributes (before after : gmap string string)
  : gmap string Change :=
  map_fold (added_step before)
    (map_fold (removed_step after) ∅ before) after.

Record ClassChanges := {
  added : list string;
  removed : list string;
}.

Definition compareClasses (before after : list string) : ClassChanges :=
  let beforeSet : gset string := list_to_set before in
  let afterSet : gset string := list_to_set after in
  {| added := List.filter (fun cls => negb (bool_decide (cls ∈ beforeSet))) after;
     removed := List.filter (fun cls => negb (bool_decide (cls ∈ afterSet))) before |}.

(** The [changes] object of a diff; each field is set only when its part
    changed. *)
Record Changes := {
  changed_attributes : option (gmap string Change);
  changed_classes : option ClassChanges;
  changed_text : option Change;
}.

Inductive DiffType := diff_add | diff_remove | diff_modify | diff_move.

Record DOMDiff := {
  diff_type : DiffType;
  path : string;
  changes : Changes;
}.

Definition noChanges (c : Changes) : bool :=
  match changed_attributes c, changed_classes c, changed_text c with
  | None, None, None => true
  | _, _, _ => false
  end.

Definition computeDiff (before after : ElementView) : option DOMDiff :=
  let beforeNode := serializeNode before in
  let afterNode := serializeNode after in
  let attrChanges :=
    compareAttributes (node_attributes beforeNode) (node_attributes afterNode) in
  let classChanges := compareClasses (classes beforeNode) (classes afterNode) in
  let changes :=
    {| changed_attributes :=
         if (0 <? size attrChanges)%nat then Some attrChanges else None;
       changed_classes :=
         if (0 <? length (added classChanges))%nat
            || (0 <? length (removed classChanges))%nat
         then Some classChanges else None;
       changed_text :=
         if negb (bool_decide (text beforeNode = text afterNode))
            && (JSText.truthyOpt (text beforeNode)
                || JSText.truthyOpt (text afterNode))
         then Some {| from := JS.orElse (text beforeNode) "";
                      to := JS.orElse (text afterNode) "" |}
         else None |} in
  if noChanges changes then None
  else Some {| diff_type := diff_modify; path := ""; changes := changes |}.

End DomDiffStructure.
(** ** src/instrumentation.ts: the inline selector engine and the capture
       helpers *)

Module InlineSelectors.

Import Selectors.

Definition ignoredAttrs : list string :=
  [ "data-reactid"; "data-react-checksum"; "data-v-"; "data-svelte-";
    "_ngcontent-"; "_nghost-" ].

Definition preferredAttrs : list string :=
  [ "id"; "data-testid"; "data-test"; "data-id"; "name"; "aria-label";
    "role"; "type" ].

Section Engine.

Variable doc : Document.

Definition isUnique (e : Element) (selector : string) : bool :=
  match querySelectorAll doc selector with
  | Some matches =>
      (length matches =? 1)%nat &&
      match matches !! 0%nat with
      | Some m => (m =? e)%nat
      | None => false
      end
  | None => false
  end.

Fixpoint attributeSelectorFrom (e : Element) (attrs : list string)
  : option string :=
  match attrs with
  | [] => None
  | attr :: rest =>
      match attributeMap (element doc e) !! attr with
      | Some value =>
          if JS.truthy value
          then Some (JS.toLowerCase (tagName (element doc e)) +:+ "["
                       +:+ attr +:+ "=" +:+ JS.dquote +:+ value
                       +:+ JS.dquote +:+ "]")
          else attributeSelectorFrom e rest
      | None => attributeSelectorFrom e rest
      end
  end.

Definition getAttributeSelector (e : Element) : option string :=
  attributeSelectorFrom e preferredAttrs.

Definition keepsClass (cls : string) : bool :=
  negb (existsb (fun ign => JS.includes cls ign) ignoredAttrs)
  && negb (isHashClass cls)
  && (3 <=? String.length cls)%nat.

Fixpoint firstUniqueClass (e : Element) (classes : list string)
  : option string :=
  match classes with
  | [] => None
  | cls :: rest =>
      let selector := JS.toLowerCase (tagName (element doc e)) +:+ "." +:+ cls in
      if isUnique e selector then Some selector
      else firstUniqueClass e rest
  end.

Definition getClassSelector (e : Element) : option string :=
  let classes := List.filter keepsClass (classList (element doc e)) in
  match classes with
  | [] => None
  | _ =>
      match firstUniqueClass e classes with
      | Some selector => Some selector
      | None =>
          if (1 <? length classes)%nat then
            let selector :=
              JS.toLowerCase (tagName (element doc e)) +:+ "."
                +:+ JS.join "." classes in
            if isUnique e selector then Some selector else None
          else None
      end
  end.

Definition levelSelector (current : Element) : string :=
  let selector := JS.toLowerCase (tagName (element doc current)) in
  match parentElement (element doc current) with
  | Some parent =>
      let siblings := children (element doc parent) in
      if (1 <? length siblings)%nat then
        let sameType :=
          List.filter
            (fun s => String.eqb (tagName (element doc s))
                                 (tagName (element doc current)))
            siblings in
        if (1 <? length sameType)%nat then
          let index := (JS.indexOf sameType current + 1)%Z in
          selector +:+ ":nth-of-type(" +:+ pretty index +:+ ")"
        else selector
      else selector
  | None => selector
  end.

(** The loop of [getStructuralPath]; [fuel] is [5 - depth]. *)
Fixpoint structuralLoop (fuel : nat) (current : option Element)
    (path : list string) : list string :=
  match fuel with
  | O => path
  | S fuel' =>
      match current with
      | None => path
      | Some cur =>
          if (cur =? documentElement doc)%nat then path
          else structuralLoop fuel' (parentElement (element doc cur))
                 (levelSelector cur :: path)
      end
  end.

Definition getStructuralPath (e : Element) : string :=
  JS.join " > " (structuralLoop 5 (Some e) []).

Definition generate (e : Element) : string :=
  match getAttributeSelector e with
  | Some attrSelector =>
      if isUnique e attrSelector then attrSelector
      else
        match getClassSelector e with
        | Some classSelector =>
            if isUnique e classSelector then classSelector
            else getStructuralPath e
        | None => getStructuralPath e
        end
  | None =>
      match getClassSelector e with
      | Some classSelector =>
          if isUnique e classSelector then classSelector
          else getStructuralPath e
      | None => getStructuralPath e
      end
  end.

End Engine.

End InlineSelectors.

Module Capture.

(** [MEANINGFUL_STYLES] of the instrumentation script. *)
Definition MEANINGFUL_STYLES : list string :=
  [ "display"; "visibility"; "opacity"; "transform"; "transition";
    "animation"; "position"; "top"; "left"; "right"; "bottom"; "width";
    "height"; "z-index"; "overflow"; "clip-path"; "filter";
    "backdrop-filter" ].

(** One iteration of the loop of [captureStyles]. *)
Definition capture_step (computed : DomDiff.CSSStyleDeclaration)
    (styles : gmap string string) (prop : string) : gmap string string :=
  let value := computed prop in
  if JS.truthy value then <[ prop := value ]> styles else styles.

(** [captureStyles(element)]: [computed] is [None] when the element is not
    an [HTMLElement], and the computed style declaration otherwise. *)
Definition captureStyles (computed : option DomDiff.CSSStyleDeclaration)
  : gmap string string :=
  match computed with
  | None => ∅
  | Some computed => foldl (capture_step computed) ∅ MEANINGFUL_STYLES
  end.

End Capture.
(** ** src/capture-engine.ts: the style changes that [logTrace] prints *)

Module CaptureEngine.

(** [Object.keys(after).filter(prop => before[prop] !== after[prop])]; the
    keys are taken in the order of the finite map, which need not be the
    insertion order of the object. *)
Definition changedStyles (beforeStyle afterStyle : gmap string string)
  : list string :=
  List.filter
    (fun prop =>
       negb (bool_decide (beforeStyle !! prop = afterStyle !! prop)))
    (map fst (map_to_list afterStyle)).

End CaptureEngine.

(** ** recover-sessions.js: profile extraction over parsed JSON lines *)

Module Recover.

Import TraceWriter.

(** A snapshot as [JSON.parse] delivers it: [style?.computed] and
    [dom?.classes] may be missing. *)
Record ParsedSnapshot := {
  parsed_computed : option (gmap string string);
  parsed_classes : option (list string);
}.

Record ParsedTrace := {
  parsed_type : TraceType;
  parsed_event : option InteractionEvent;
  parsed_before : option ParsedSnapshot;
  parsed_after : option ParsedSnapshot;
}.

(** [x || {}] for a possibly missing style map. *)
Definition orEmpty (o : option (gmap string string)) : gmap string string :=
  default ∅ o.

(** The body of the loop of [findConsistentStyleChanges]. *)
Definition styleChangeOf (trace : ParsedTrace) : option StyleChange :=
  match parsed_event trace, parsed_before trace, parsed_after trace with
  | Some ev, Some b, Some a =>
      let beforeStyle := orEmpty (parsed_computed b) in
      let afterStyle := orEmpty (parsed_computed a) in
      let properties := changedProperties beforeStyle afterStyle in
      if (0 <? size properties)%nat then
        let effectType :=
          if negb (bool_decide (length <$> parsed_classes a
                                = length <$> parsed_classes b))
          then class_toggle
          else if bool_decide (is_Some (properties !! "animation-name"))
          then animation
          else transition in
        let timing :=
          if bool_decide (is_Some (properties !! "transition")) then
            Some {| duration :=
                      JS.orElse (afterStyle !! "transition-duration") "0s";
                    easing :=
                      Some (JS.orElse
                              (afterStyle !! "transition-timing-function")
                              "ease");
                    delay :=
                      Some (JS.orElse (afterStyle !! "transition-delay")
                              "0s") |}
          else None in
        Some {| change_trigger :=
                  {| trigger_event := kind ev;
                     trigger_selector := selector ev |};
                change_effect :=
                  {| effect_type := effectType;
                     target := selector ev;
                     properties := properties;
                     timing := timing |} |}
      else None
  | _, _, _ => None
  end.

Definition findConsistentStyleChanges (traces : list ParsedTrace)
  : list StyleChange :=
  foldl (fun changes trace =>
           match styleChangeOf trace with
           | Some change => changes ++ [change]
           | None => changes
           end) [] traces.

Definition group_step (bySelector : list (string * list ParsedTrace))
    (trace : ParsedTrace) : list (string * list ParsedTrace) :=
  match parsed_type trace, parsed_event trace with
  | interaction, Some ev =>
      let bySelector' :=
        if Map_has (selector ev) bySelector then bySelector
        else Map_set (selector ev) [] bySelector in
      Map_update (fun traces => traces ++ [trace]) (selector ev) bySelector'
  | _, _ => bySelector
  end.

(** One iteration of the loop over the groups: every change is pushed. *)
Definition profiles_step (profiles : list AnimationProfile)
    (group : string * list ParsedTrace) : list AnimationProfile :=
  let '(selector, selectorTraces) := group in
  foldl (fun profiles change => profiles ++ [profileOf selector change])
    profiles (findConsistentStyleChanges selectorTraces).

Definition extractProfiles (traces : list ParsedTrace)
  : list AnimationProfile :=
  foldl profiles_step [] (foldl group_step [] traces).

(** A record of the capture session as the recovery script reads it back
    from traces.jsonl. *)
Definition parsedSnapshot (s : Snapshot) : ParsedSnapshot :=
  {| parsed_computed := Some (computed (style s));
     parsed_classes := Some (classes (dom s)) |}.

Definition parsed (t : TraceRecord) : ParsedTrace :=
  {| parsed_type := type t;
     parsed_event := event t;
     parsed_before := parsedSnapshot <$> before t;
     parsed_after := parsedSnapshot <$> after t |}.

End Recover.
(** * Specifications and proofs *)

(** ** The mutation compressor, as the design describes it *)

Module MutationSpec.

Definition isClassMutation (m : MutationRecord) : bool :=
  bool_decide (mutation_type m = attributes) &&
  bool_decide (attributeName m = Some "class").

Definition isOtherAttributeMutation (m : MutationRecord) : bool :=
  bool_decide (mutation_type m = attributes) &&
  negb (bool_decide (attributeName m = Some "class")).

Definition isAttributeMutation (m : MutationRecord) : bool :=
  bool_decide (mutation_type m = attributes).

Definition isChildListMutation (m : MutationRecord) : bool :=
  bool_decide (mutation_type m = childList).

(** The distinct elements among the targets of the batch. *)
Definition affectedSet (batch : list MutationRecord) : gset Element :=
  list_to_set (omap (fun m => asElement (target m)) batch).

Definition hasClassChange (batch : list MutationRecord) : bool :=
  existsb isClassMutation batch.
Definition hasChildListChange (batch : list MutationRecord) : bool :=
  existsb isChildListMutation batch.
Definition hasOtherAttributeChange (batch : list MutationRecord) : bool :=
  existsb isOtherAttributeMutation batch.

(** The classification in its stated priority order. *)
Definition classify (batch : list MutationRecord) : string :=
  let n := size (affectedSet batch) in
  if hasClassChange batch && negb (hasChildListChange batch)
  then "style-change"
  else if hasChildListChange batch && (n =? 1)%nat then "content-update"
  else if hasChildListChange batch && (1 <? n)%nat then "dom-restructure"
  else if hasOtherAttributeChange batch then "attribute-change"
  else "unknown".

(** A batch as the browser delivers it: only elements carry attributes, so
    the target of an attribute mutation is an element. *)
Definition well_formed (batch : list MutationRecord) : Prop :=
  Forall (fun m => mutation_type m = attributes ->
                   is_Some (asElement (target m))) batch.

(** A batch all of whose targets are elements. *)
Definition all_elements (batch : list MutationRecord) : Prop :=
  Forall (fun m => is_Some (asElement (target m))) batch.

Definition hiddenToggled : list MutationRecord :=
  [ {| mutation_type := attributes;
       attributeName := Some "hidden";
       target := ElementNode 1 |} ].

Definition classThenChild : list MutationRecord :=
  [ {| mutation_type := attributes;
       attributeName := Some "class";
       target := ElementNode 1 |};
    {| mutation_type := childList;
       attributeName := None;
       target := ElementNode 2 |} ].

End MutationSpec.

(** ** A small page for the selector engine

    [<html lang="en"> <head/> <body> <button id="go" class="cta"/> <div/>
    </body> </html>], and a detached [<span>] (element 9). *)

Module SelectorExamples.

Import Selectors.

Definition htmlData : ElementData :=
  {| tagName := "HTML";
     attributeMap := {[ "lang" := "en" ]};
     classList := [];
     parentElement := None;
     children := [1; 2]%nat |}.

Definition headData : ElementData :=
  {| tagName := "HEAD";
     attributeMap := ∅;
     classList := [];
     parentElement := Some 0%nat;
     children := [] |}.

Definition bodyData : ElementData :=
  {| tagName := "BODY";
     attributeMap := ∅;
     classList := [];
     parentElement := Some 0%nat;
     children := [3; 4]%nat |}.

Definition buttonData : ElementData :=
  {| tagName := "BUTTON";
     attributeMap := {[ "id" := "go" ]};
     classList := ["cta"];
     parentElement := Some 2%nat;
     children := [] |}.

Definition divData : ElementData :=
  {| tagName := "DIV";
     attributeMap := ∅;
     classList := [];
     parentElement := Some 2%nat;
     children := [] |}.

Definition spanData : ElementData :=
  {| tagName := "SPAN";
     attributeMap := ∅;
     classList := [];
     parentElement := None;
     children := [] |}.

Definition buttonById : string :=
  "button[id=" +:+ JS.dquote +:+ "go" +:+ JS.dquote +:+ "]".

(** The answers of the browser for the selectors that can match here; the
    empty selector is a syntax error. *)
Definition query (selector : string) : option (list Element) :=
  if String.eqb selector "" then None
  else if String.eqb selector buttonById then Some [3%nat]
  else if String.eqb selector "button.cta" then Some [3%nat]
  else if String.eqb selector "html" then Some [0%nat]
  else if String.eqb selector "body" then Some [2%nat]
  else if String.eqb selector "div" then Some [4%nat]
  else Some [].

Definition page : Document :=
  {| element := fun e =>
       match e with
       | 0%nat => htmlData
       | 1%nat => headData
       | 2%nat => bodyData
       | 3%nat => buttonData
       | 4%nat => divData
       | _ => spanData
       end;
     documentElement := 0%nat;
     querySelectorAll := query |}.

End SelectorExamples.
(** ** Style diff: the vocabulary of the statements *)

Module StyleSpec.

Import DomDiff.

(** [|to - from| >= threshold] on the parsed numbers, computed as the code
    computes it, in binary64 arithmetic. *)
Definition deltaAtLeast (threshold : JS.number) (from to : string) : bool :=
  JS.geb (JS.abs (JS.sub (JS.parseFloat to) (JS.parseFloat from))) threshold.

Definition numeric (value : string) : Prop :=
  JS.isNaN (JS.parseFloat value) = false.

(** The change of [prop] between two declarations is one that
    [computeStyleDiff] records: the values differ and the change is
    significant. *)
Definition reportable (beforeStyles afterStyles : CSSStyleDeclaration)
    (prop : string) : bool :=
  negb (String.eqb (beforeStyles prop) (afterStyles prop)) &&
  isSignificantChange prop (beforeStyles prop) (afterStyles prop).

Definition nothingSignificant (beforeStyles afterStyles : CSSStyleDeclaration)
  : Prop :=
  Forall (fun prop => reportable beforeStyles afterStyles prop = false)
    MEANINGFUL_STYLE_PROPERTIES.

(** A declaration in which only [prop] is set. *)
Definition only (prop value : string) : CSSStyleDeclaration :=
  fun p => if String.eqb p prop then value else "".

(** Whether the diff of two one-property declarations reports [prop]. *)
Definition reported (prop from to : string) : bool :=
  match computeStyleDiff 0%nat (only prop from) (only prop to) with
  | Some diff => bool_decide (is_Some (changes diff !! prop))
  | None => false
  end.

(** *** The significance rule in the words of the statement

    The numbers are the doubles that [parseFloat] gives; their difference
    is the binary64 difference, which is not the difference of the decimal
    numerals. *)

Definition POSITION_AND_SIZE : list string :=
  [ "width"; "height"; "top"; "left"; "right"; "bottom" ].

(** The doubles 1 and 0.01. *)
Definition double_one : JS.number :=
  S754_finite false 4503599627370496 (-52).
Definition double_hundredth : JS.number :=
  S754_finite false 5764607523034235 (-59).

Definition bothNumeric (from to : string) : bool :=
  negb (JS.isNaN (JS.parseFloat from)) && negb (JS.isNaN (JS.parseFloat to)).

(** [|to - from|], subtracted in binary64 on the parsed doubles. *)
Definition doubleDelta (from to : string) : JS.number :=
  SFabs (SFsub 53 1024 (JS.parseFloat to) (JS.parseFloat from)).

Definition significant (property from to : string) : bool :=
  match from, to with
  | EmptyString, EmptyString => false
  | _, _ =>
      if bothNumeric from to then
        if bool_decide (property ∈ POSITION_AND_SIZE)
        then SFleb double_one (doubleDelta from to)
        else if bool_decide (property = "opacity")
        then SFleb double_hundredth (doubleDelta from to)
        else true
      else true
  end.

(** [x] is a positive normal double within half a unit in the last place
    of the rational [num / den] (with [den > 0]): a double nearest to it. *)
Definition nearestDouble (num den : Z) (x : JS.number) : bool :=
  match x with
  | S754_finite false m e =>
      (2 ^ 52 <=? Zpos m)%Z && (Zpos m <? 2 ^ 53)%Z && (-1074 <=? e)%Z
      && (2 * Z.abs (den * Zpos m * 2 ^ (e + 1200) - num * 2 ^ 1200)
          <=? den * 2 ^ (e + 1200))%Z
  | _ => false
  end.

(** [|n2/d2 - n1/d1| >= tn/td] on rationals with positive denominators. *)
Definition decimalDeltaAtLeast (n1 d1 n2 d2 tn td : Z) : bool :=
  (tn * (d1 * d2) <=? Z.abs (n2 * d1 - n1 * d2) * td)%Z.

End StyleSpec.
(** ** Profile extraction: the vocabulary of the statements *)

Module TraceSpec.

Import TraceWriter.

(** The selector under which the grouping loop files a trace, if it files
    it at all. *)
Definition selectorOf (t : TraceRecord) : option string :=
  match type t, event t with
  | interaction, Some ev => Some (selector ev)
  | _, _ => None
  end.

(** The distinct members of a list, in the order of their first
    appearance. *)
Fixpoint firstAppearance (l : list string) : list string :=
  match l with
  | [] => []
  | s :: r => s :: filter (fun s' => s' <> s) (firstAppearance r)
  end.

(** The traces filed under [s], in their original order. *)
Definition group (s : string) (traces : list TraceRecord) : list TraceRecord :=
  filter (fun t => selectorOf t = Some s) traces.

(** Profiles grouped by selector in first-appearance order, each group in
    the original order of its records. *)
Definition groupedProfiles (traces : list TraceRecord) : list AnimationProfile :=
  concat
    (map (fun s => map (profileOf s) (omap styleChangeOf (group s traces)))
       (firstAppearance (omap selectorOf traces))).

(** A record from which [extractProfiles] makes a profile: an interaction
    with its event and both snapshots, whose after style differs from the
    before style on some property. *)
Definition qualifying (t : TraceRecord) (ev : InteractionEvent)
    (b a : Snapshot) : Prop :=
  type t = interaction /\ event t = Some ev
  /\ before t = Some b /\ after t = Some a
  /\ changedProperties (computed (style b)) (computed (style a)) <> ∅.

(** *** Records used as examples *)

Definition snapshot (sel : string) (classNames : list string)
    (computedStyle : gmap string string) : Snapshot :=
  {| dom := {| dom_selector := sel; classes := classNames |};
     style := {| style_selector := sel; computed := computedStyle |} |}.

Definition record (time : Z) (eventKind sel : string)
    (beforeStyle afterStyle : gmap string string) : TraceRecord :=
  {| ts := time;
     type := interaction;
     event := Some {| kind := eventKind; selector := sel |};
     before := Some (snapshot sel [] beforeStyle);
     after := Some (snapshot sel [] afterStyle) |}.

Definition pressedBefore : gmap string string :=
  {[ "transform" := "scale(1)"; "opacity" := "1" ]}.
Definition pressedAfter : gmap string string :=
  {[ "transform" := "scale(0.95)"; "opacity" := "0.8" ]}.
Definition pressedChanges : gmap string Change :=
  {[ "transform" := {| from := "scale(1)"; to := "scale(0.95)" |};
     "opacity" := {| from := "1"; to := "0.8" |} ]}.

Definition ctaClick : TraceRecord :=
  record 1 "click" "button.cta" pressedBefore pressedAfter.

(** A hover that changes the [transition] shorthand; the after snapshot
    holds no [transition-*] longhand. *)
Definition hoverTransition : TraceRecord :=
  record 2 "hover" "a.link"
    {[ "transition" := "all 0s ease 0s"; "opacity" := "1" ]}
    {[ "transition" := "opacity 0.3s ease-in 0s"; "opacity" := "1" ]}.

(** Three records for the selectors a, b, a. *)
Definition firstA : TraceRecord :=
  record 1 "click" "a" {[ "opacity" := "1" ]} {[ "opacity" := "0.5" ]}.
Definition onlyB : TraceRecord :=
  record 2 "hover" "b" {[ "opacity" := "1" ]} {[ "opacity" := "0.6" ]}.
Definition secondA : TraceRecord :=
  record 3 "input" "a" {[ "opacity" := "0.5" ]} {[ "opacity" := "0.7" ]}.

(** A record whose only difference is a property that disappeared. *)
Definition filterDropped : TraceRecord :=
  record 4 "click" "div.card"
    {[ "opacity" := "1"; "filter" := "blur(2px)" ]}
    {[ "opacity" := "1" ]}.

End TraceSpec.
(** ** Structural diff: the vocabulary of the statements *)

Module StructureSpec.

Import DomDiffStructure.

(** An attribute name that [getMeaningfulAttributes] leaves out. *)
Definition excluded (name : string) : bool :=
  existsb (fun ignored => JS.startsWith name ignored) IGNORED_ATTRIBUTES
  || String.eqb name "style" || String.eqb name "class".

(** The text of the direct text nodes, before trimming. *)
Definition directText (element : ElementView) : string :=
  foldl text_step "" (childNodes element).

Definition sameMembers (l k : list string) : Prop :=
  forall x, x ∈ l <-> x ∈ k.

(** No attribute of the element is named like a member of
    [Object.prototype]. *)
Definition plainNames (element : ElementView) : Prop :=
  Forall (fun attr => JSObject.plainKey attr.1) (attributes element).

(** The direct text of the element is ASCII text. *)
Definition asciiText (element : ElementView) : Prop :=
  JSText.isAscii (directText element) = true.

Definition cardBefore : ElementView :=
  {| tagName := "DIV";
     attributes := [ ("id", "card"); ("class", "card open");
                     ("data-v-7ba5bd90", ""); ("disabled", "");
                     ("style", "color: red") ];
     classList := ["card"; "open"; "css-1a2b3c4"];
     childNodes := [ TextNode "  Hello "; OtherChild; TextNode "world  " ] |}.

Definition cardAfter : ElementView :=
  {| tagName := "DIV";
     attributes := [ ("id", "card"); ("class", "card");
                     ("aria-expanded", "true") ];
     classList := ["card"];
     childNodes := [ TextNode "Hello world" ] |}.

End StructureSpec.
(** ** Selector engine: more vocabulary *)

Module SelectorSpec.

Import Selectors.

(** The elements that [getStructuralPath] visits, the element itself
    first: the walk follows [parentElement] and stops at the document
    root, at a missing parent, or after [fuel] levels. *)
Fixpoint visited (doc : Document) (fuel : nat) (current : option Element)
  : list Element :=
  match fuel, current with
  | S fuel', Some cur =>
      if (cur =? documentElement doc)%nat then []
      else cur :: visited doc fuel' (parentElement (element doc cur))
  | _, _ => []
  end.

(** A preferred attribute that yields a selector: it is present and its
    value is non-empty before and after cleaning. *)
Definition usable (doc : Document) (e : Element) (attr : string) : bool :=
  match attributeMap (element doc e) !! attr with
  | Some value => JS.truthy value && JS.truthy (cleanAttributeValue value)
  | None => false
  end.

Definition attributeSelectorOf (doc : Document) (e : Element)
    (attr value : string) : string :=
  tag doc e +:+ "[" +:+ attr +:+ "=" +:+ JS.dquote
    +:+ cleanAttributeValue value +:+ JS.dquote +:+ "]".

(** The classes of the element that the engine finds meaningful, in
    class-list order. *)
Definition meaningfulClasses (doc : Document) (this : StableSelectorEngine)
    (e : Element) : list string :=
  List.filter (isMeaningfulClass this) (classList (element doc e)).

Definition FRAMEWORK_PREFIXES : list string :=
  [ "react-"; "vue-"; "ng-"; "svelte-" ].

(** The same-tag siblings among which [levelSelector] counts. *)
Definition sameTypeSiblings (doc : Document) (parent current : Element)
  : list Element :=
  List.filter
    (fun s => String.eqb (tagName (element doc s))
                         (tagName (element doc current)))
    (children (element doc parent)).

(** A list of three buttons under one parent (elements 11, 12, 13 under
    10), for the index of [nth-of-type]. *)
Definition toolbar : Document :=
  {| element := fun e =>
       match e with
       | 10%nat =>
           {| tagName := "NAV"; attributeMap := ∅; classList := [];
              parentElement := Some 0%nat;
              children := [11; 12; 13]%nat |}
       | 0%nat =>
           {| tagName := "HTML"; attributeMap := ∅; classList := [];
              parentElement := None; children := [10%nat] |}
       | _ =>
           {| tagName := "BUTTON"; attributeMap := ∅; classList := [];
              parentElement := Some 10%nat; children := [] |}
       end;
     documentElement := 0%nat;
     querySelectorAll := fun _ => Some [] |}.

End SelectorSpec.
(** ** Inline engine and capture: vocabulary *)

Module InlineSpec.

Import Selectors.

(** What the inline engine and selectors.ts treat differently on an
    element: a framework prefix in the value of a preferred attribute, a
    usable [href] or [for], and classes that only one of the two filters
    rejects. *)
Definition plainAttributes (doc : Document) (e : Element) : Prop :=
  forall attr value,
    attr ∈ InlineSelectors.preferredAttrs ->
    attributeMap (element doc e) !! attr = Some value ->
    cleanAttributeValue value = value.

Definition noLinkAttributes (doc : Document) (e : Element) : Prop :=
  SelectorSpec.usable doc e "href" = false
  /\ SelectorSpec.usable doc e "for" = false.

Definition plainClasses (doc : Document) (e : Element) : Prop :=
  forall cls,
    cls ∈ classList (element doc e) ->
    isNumeric cls = false
    /\ JS.includes cls "data-emotion-" = false
    /\ JS.includes cls "data-styled-" = false
    /\ JS.includes cls "ng-reflect-" = false.

(** The styles of a captured record were produced by [captureStyles]. *)
Definition captured (styles : gmap string string) : Prop :=
  exists computed, styles = Capture.captureStyles computed.

Definition defaultTiming : TraceWriter.Timing :=
  {| TraceWriter.duration := "0s";
     TraceWriter.easing := Some "ease";
     TraceWriter.delay := Some "0s" |}.

Definition restingStyle : DomDiff.CSSStyleDeclaration :=
  fun prop =>
    if String.eqb prop "opacity" then "1"
    else if String.eqb prop "transition" then "all 0s ease 0s"
    else if String.eqb prop "transition-duration" then "0s"
    else if String.eqb prop "color" then "rgb(0, 0, 0)"
    else "".

Definition hoveredStyle : DomDiff.CSSStyleDeclaration :=
  fun prop =>
    if String.eqb prop "opacity" then "0.8"
    else if String.eqb prop "transition" then "opacity 0.3s ease-in 0s"
    else if String.eqb prop "transition-duration" then "0.3s"
    else if String.eqb prop "color" then "rgb(0, 0, 0)"
    else "".

Definition capturedHover : TraceWriter.TraceRecord :=
  TraceSpec.record 5 "mouseover" "a.link"
    (Capture.captureStyles (Some restingStyle))
    (Capture.captureStyles (Some hoveredStyle)).

End InlineSpec.
(** ** Profiles: more vocabulary *)

Module ProfileSpec.

Import TraceWriter TraceSpec.

Definition noSpace (s : string) : bool :=
  JS.allChars (fun c => negb (Ascii.eqb c " ")) s.

(** The selectors under which the traces of a list are filed. *)
Definition selectorsOf (traces : list TraceRecord) : list string :=
  omap selectorOf traces.

(** No selector of [later] is already used in [earlier]. *)
Definition freshSelectors (earlier later : list TraceRecord) : Prop :=
  forall s, s ∈ selectorsOf later -> s ∉ selectorsOf earlier.

(** A parsed trace whose after snapshot has lost its style. *)
Definition styleLost : Recover.ParsedTrace :=
  {| Recover.parsed_type := interaction;
     Recover.parsed_event := Some {| kind := "click"; selector := "a" |};
     Recover.parsed_before :=
       Some {| Recover.parsed_computed := Some {[ "opacity" := "1" ]};
               Recover.parsed_classes := Some [] |};
     Recover.parsed_after :=
       Some {| Recover.parsed_computed := None;
               Recover.parsed_classes := Some [] |} |}.

(** A parsed trace whose before snapshot has no style. *)
Definition styleFound : Recover.ParsedTrace :=
  {| Recover.parsed_type := interaction;
     Recover.parsed_event := Some {| kind := "click"; selector := "a" |};
     Recover.parsed_before :=
       Some {| Recover.parsed_computed := None;
               Recover.parsed_classes := Some [] |};
     Recover.parsed_after :=
       Some {| Recover.parsed_computed := Some {[ "opacity" := "1" ]};
               Recover.parsed_classes := Some [] |} |}.

End ProfileSpec.
#[local] Set Warnings "-clear-no-such-hyp".

Section CompressMutations.

Import MutationSpec.

Lemma compress_fold_affected (l : list MutationRecord) (st : DomDiff.CompressState) :
  DomDiff.affectedElements (foldl DomDiff.compress_step st l)
  = affectedSet l ∪ DomDiff.affectedElements st.
Proof.
  revert st. induction l as [|m l IH]; intros st; simpl.
  - unfold affectedSet. simpl. set_solver.
  - rewrite IH. unfold affectedSet, DomDiff.compress_step. simpl.
    destruct (mutation_type m), (asElement (target m)); simpl; set_solver.
Qed.

Lemma compress_fold_child (l : list MutationRecord) (st : DomDiff.CompressState) :
  DomDiff.hasChildListChanges (foldl DomDiff.compress_step st l)
  = DomDiff.hasChildListChanges st || hasChildListChange l.
Proof.
  revert st. induction l as [|m l IH]; intros st; simpl.
  - by rewrite orb_false_r.
  - rewrite IH. unfold DomDiff.compress_step, isChildListMutation.
    destruct (mutation_type m); simpl;
      rewrite ?orb_true_r, ?orb_true_l; try done.
Qed.

Lemma compress_fold_class (l : list MutationRecord) (st : DomDiff.CompressState) :
  DomDiff.hasClassChanges (foldl DomDiff.compress_step st l)
  = DomDiff.hasClassChanges st || hasClassChange l.
Proof.
  revert st. induction l as [|m l IH]; intros st; simpl.
  - by rewrite orb_false_r.
  - rewrite IH. unfold DomDiff.compress_step, isClassMutation.
    destruct (mutation_type m); simpl; try done.
    case_decide; simpl.
    + by rewrite bool_decide_eq_true_2, orb_true_r.
    + by rewrite bool_decide_eq_false_2.
Qed.

Lemma compress_fold_attribute (l : list MutationRecord) (st : DomDiff.CompressState) :
  DomDiff.hasAttributeChanges (foldl DomDiff.compress_step st l)
  = DomDiff.hasAttributeChanges st || existsb isAttributeMutation l.
Proof.
  revert st. induction l as [|m l IH]; intros st; simpl.
  - by rewrite orb_false_r.
  - rewrite IH. unfold DomDiff.compress_step, isAttributeMutation.
    destruct (mutation_type m); simpl; rewrite ?orb_true_r; done.
Qed.

Lemma attribute_class_or_other (l : list MutationRecord) :
  existsb isAttributeMutation l = hasClassChange l || hasOtherAttributeChange l.
Proof.
  unfold hasClassChange, hasOtherAttributeChange.
  induction l as [|m l IH]; simpl; [done|].
  rewrite IH.
  destruct (existsb isClassMutation l), (existsb isOtherAttributeMutation l).
  all: unfold isAttributeMutation, isClassMutation, isOtherAttributeMutation.
  all: destruct (bool_decide (mutation_type m = attributes)),
                (bool_decide (attributeName m = Some "class")); done.
Qed.

Lemma attribute_mutation_affects (l : list MutationRecord) :
  well_formed l -> existsb isAttributeMutation l = true ->
  (0 < size (affectedSet l))%nat.
Proof.
  intros Hwf Hex.
  apply existsb_exists in Hex as (m & Hin & Hm).
  apply bool_decide_eq_true in Hm.
  unfold well_formed in Hwf. rewrite Forall_forall in Hwf.
  apply list_elem_of_In in Hin.
  destruct (Hwf m Hin Hm) as [e He].
  assert (e ∈ affectedSet l) as Hel.
  { unfold affectedSet. apply elem_of_list_to_set, list_elem_of_omap. eauto. }
  destruct (decide (size (affectedSet l) = 0)) as [Hz|Hz]; [|lia].
  apply size_empty_inv in Hz. set_solver.
Qed.

(** C4. On every batch in which attribute mutations target elements, the
    compressor of dom-diff.ts picks its intent in the stated priority order
    (class change without childList: style-change; childList with one
    affected element: content-update; childList with several:
    dom-restructure; another attribute changed: attribute-change; otherwise
    unknown) and reports the number of distinct affected elements; the empty
    batch is classified unknown with zero affected elements. *)
Theorem compressMutations_priority_order (batch : list MutationRecord)
    (Hwf : well_formed batch) :
  DomDiff.intent (DomDiff.compressMutations batch) = classify batch
  /\ DomDiff.affectedElementCount (DomDiff.compressMutations batch)
     = size (affectedSet batch)
  /\ DomDiff.intent (DomDiff.compressMutations []) = "unknown"
  /\ DomDiff.affectedElementCount (DomDiff.compressMutations []) = 0%nat.
Proof.
  assert (DomDiff.affectedElements
            (foldl DomDiff.compress_step DomDiff.compress_init batch)
          = affectedSet batch) as Haff.
  { rewrite compress_fold_affected. simpl. set_solver. }
  split; [|split; [|split]]; [| |reflexivity|reflexivity].
  - unfold DomDiff.compressMutations, classify. simpl.
    rewrite Haff, compress_fold_child, compress_fold_class,
      compress_fold_attribute. simpl.
    rewrite attribute_class_or_other.
    pose proof (attribute_mutation_affects batch Hwf) as Hpos.
    rewrite attribute_class_or_other in Hpos.
    destruct (hasClassChange batch) eqn:Hc,
             (hasChildListChange batch) eqn:Hl,
             (hasOtherAttributeChange batch) eqn:Ho; simpl in *; try done.
    all: specialize (Hpos eq_refl).
    all: destruct (size (affectedSet batch)) as [|[|n]]; simpl; try done; lia.
  - unfold DomDiff.compressMutations. simpl. by rewrite Haff.
Qed.

Lemma compressMutations_priority_order_witness :
  well_formed classThenChild
  /\ DomDiff.intent (DomDiff.compressMutations classThenChild)
     = classify classThenChild.
Proof.
  assert (well_formed classThenChild) as Hwf.
  { repeat constructor; simpl; eauto. }
  split; [exact Hwf|].
  exact (proj1 (compressMutations_priority_order classThenChild Hwf)).
Defined.

Lemma inline_fold_affected (l : list MutationRecord) (st : Instrumentation.InlineState) :
  Instrumentation.affected (foldl Instrumentation.inline_step st l)
  = affectedSet l ∪ Instrumentation.affected st.
Proof.
  revert st. induction l as [|m l IH]; intros st; simpl.
  - unfold affectedSet. simpl. set_solver.
  - rewrite IH. unfold affectedSet, Instrumentation.inline_step. simpl.
    destruct (asElement (target m)); simpl; set_solver.
Qed.

(** The two compressors always count the same affected elements. *)
Lemma compressors_same_count (batch : list MutationRecord) :
  DomDiff.affectedElementCount (Instrumentation.compressMutations batch)
  = DomDiff.affectedElementCount (DomDiff.compressMutations batch).
Proof.
  unfold Instrumentation.compressMutations, DomDiff.compressMutations. simpl.
  by rewrite inline_fold_affected, compress_fold_affected.
Qed.

Lemma inline_fold_class (l : list MutationRecord) (st : Instrumentation.InlineState) :
  Instrumentation.hasClass (foldl Instrumentation.inline_step st l)
  = Instrumentation.hasClass st || hasClassChange l.
Proof.
  revert st. induction l as [|m l IH]; intros st; simpl.
  - by rewrite orb_false_r.
  - rewrite IH. unfold Instrumentation.inline_step, isClassMutation. simpl.
    repeat case_decide; simpl;
      rewrite ?bool_decide_eq_true_2, ?bool_decide_eq_false_2 by done;
      simpl; rewrite ?orb_true_r; done.
Qed.

Lemma inline_fold_child (l : list MutationRecord) (st : Instrumentation.InlineState) :
  Instrumentation.hasChild (foldl Instrumentation.inline_step st l)
  = Instrumentation.hasChild st || hasChildListChange l.
Proof.
  revert st. induction l as [|m l IH]; intros st; simpl.
  - by rewrite orb_false_r.
  - rewrite IH. unfold Instrumentation.inline_step, isChildListMutation. simpl.
    case_decide; simpl;
      rewrite ?bool_decide_eq_true_2, ?bool_decide_eq_false_2 by done;
      simpl; rewrite ?orb_true_r; done.
Qed.

Lemma child_mutation_affects (l : list MutationRecord) :
  all_elements l -> hasChildListChange l = true ->
  (0 < size (affectedSet l))%nat.
Proof.
  intros Hall Hex.
  apply existsb_exists in Hex as (m & Hin & _).
  unfold all_elements in Hall. rewrite Forall_forall in Hall.
  apply list_elem_of_In in Hin.
  destruct (Hall m Hin) as [e He].
  assert (e ∈ affectedSet l) as Hel.
  { unfold affectedSet. apply elem_of_list_to_set, list_elem_of_omap. eauto. }
  destruct (decide (size (affectedSet l) = 0)) as [Hz|Hz]; [|lia].
  apply size_empty_inv in Hz. set_solver.
Qed.

(** On batches whose targets are all elements, the missing branch is the
    only difference: the inline compressor answers unknown where
    dom-diff.ts answers attribute-change, and agrees everywhere else. *)
Lemma inline_intent_on_element_batches (batch : list MutationRecord) :
  all_elements batch ->
  DomDiff.intent (Instrumentation.compressMutations batch)
  = if decide (DomDiff.intent (DomDiff.compressMutations batch)
               = "attribute-change")
    then "unknown"
    else DomDiff.intent (DomDiff.compressMutations batch).
Proof.
  intros Hall.
  pose proof (child_mutation_affects batch Hall) as Hpos.
  unfold Instrumentation.compressMutations, DomDiff.compressMutations. simpl.
  rewrite inline_fold_affected, inline_fold_class, inline_fold_child,
    compress_fold_affected, compress_fold_child, compress_fold_class,
    compress_fold_attribute. simpl.
  replace (affectedSet batch ∪ ∅) with (affectedSet batch) by set_solver.
  destruct (hasClassChange batch), (hasChildListChange batch),
           (existsb isAttributeMutation batch); simpl in *; try done.
  all: specialize (Hpos eq_refl).
  all: destruct (size (affectedSet batch)) as [|[|n]]; simpl; try done; lia.
Qed.

(** C9. The inline compressor injected into the page has no
    attribute-change branch: on a batch holding one mutation of the
    [hidden] attribute of one element, dom-diff.ts answers
    attribute-change and the inline copy answers unknown. *)
Theorem inline_compressor_misses_attribute_change :
  DomDiff.intent (DomDiff.compressMutations hiddenToggled) = "attribute-change"
  /\ DomDiff.intent (Instrumentation.compressMutations hiddenToggled) = "unknown"
  /\ DomDiff.affectedElementCount (DomDiff.compressMutations hiddenToggled) = 1%nat
  /\ DomDiff.affectedElementCount (Instrumentation.compressMutations hiddenToggled)
     = 1%nat.
Proof. vm_compute. repeat split; reflexivity. Qed.

End CompressMutations.
(** ** The selector engine *)

Section SelectorEngine.

Import Selectors.

Lemma isUnique_spec doc (e : Element) (selector : string) :
  isUnique doc e selector = true <-> querySelectorAll doc selector = Some [e].
Proof.
  unfold isUnique.
  destruct (querySelectorAll doc selector) as [[|m [|m' r]]|]; simpl;
    try (split; [done | intros [=]]).
  destruct (Nat.eqb_spec m e) as [->|Hne]; split; try done.
  intros [=]. done.
Qed.

(** C5. A selector returned by the attribute tier or by the class tier has
    been accepted by the uniqueness check: querying the document with that
    string gives exactly one match, the element the selector was generated
    for. *)
Theorem generate_accepted_selector_is_unique
    (doc : Document) (this : StableSelectorEngine) (e : Element)
    (Htier : tierOf doc this e <> StructuralTier) :
  querySelectorAll doc (generate doc this e) = Some [e].
Proof.
  unfold tierOf, attributeTierAccepts, classTierAccepts in Htier.
  unfold generate.
  destruct (getAttributeSelector doc this e) as [a|].
  - destruct (isUnique doc e a) eqn:Ha; [by apply isUnique_spec|].
    destruct (getClassSelector doc this e) as [c|]; [|done].
    destruct (isUnique doc e c) eqn:Hc; [by apply isUnique_spec|done].
  - destruct (getClassSelector doc this e) as [c|]; [|done].
    destruct (isUnique doc e c) eqn:Hc; [by apply isUnique_spec|done].
Qed.

Lemma generate_accepted_selector_is_unique_witness :
  tierOf SelectorExamples.page (construct noOptions) 3 <> StructuralTier
  /\ querySelectorAll SelectorExamples.page
       (generate SelectorExamples.page (construct noOptions) 3) = Some [3].
Proof.
  assert (tierOf SelectorExamples.page (construct noOptions) 3
          <> StructuralTier) as Htier.
  { vm_compute. discriminate. }
  split; [exact Htier|].
  exact (generate_accepted_selector_is_unique
           SelectorExamples.page (construct noOptions) 3 Htier).
Defined.

(** C2. When the document root reaches the structural tier, the loop of
    [getStructuralPath] stops before its first iteration and [generate]
    returns the empty string. *)
Theorem generate_document_root_falls_to_empty
    (doc : Document) (this : StableSelectorEngine)
    (Htier : tierOf doc this (documentElement doc) = StructuralTier) :
  generate doc this (documentElement doc) = "".
Proof.
  assert (getStructuralPath doc this (documentElement doc) = "") as Hpath.
  { unfold getStructuralPath.
    destruct (maxDepth this) as [|n]; simpl; [done|].
    by rewrite Nat.eqb_refl. }
  unfold tierOf, attributeTierAccepts, classTierAccepts in Htier.
  unfold generate.
  destruct (getAttributeSelector doc this (documentElement doc)) as [a|].
  - destruct (isUnique doc (documentElement doc) a); [done|].
    destruct (getClassSelector doc this (documentElement doc)) as [c|];
      [|done].
    by destruct (isUnique doc (documentElement doc) c).
  - destruct (getClassSelector doc this (documentElement doc)) as [c|];
      [|done].
    by destruct (isUnique doc (documentElement doc) c).
Qed.

Lemma generate_document_root_falls_to_empty_witness :
  tierOf SelectorExamples.page (construct noOptions)
    (documentElement SelectorExamples.page) = StructuralTier
  /\ generate SelectorExamples.page (construct noOptions)
       (documentElement SelectorExamples.page) = "".
Proof.
  assert (tierOf SelectorExamples.page (construct noOptions)
            (documentElement SelectorExamples.page) = StructuralTier)
    as Htier by (vm_compute; reflexivity).
  split; [exact Htier|].
  exact (generate_document_root_falls_to_empty
           SelectorExamples.page (construct noOptions) Htier).
Defined.

(** The button of the example page is named by its id, the detached span
    by its tag alone. *)
Example generate_button_by_id :
  generate SelectorExamples.page (construct noOptions) 3
  = SelectorExamples.buttonById.
Proof. vm_compute. reflexivity. Qed.

Example generate_detached_span :
  generate SelectorExamples.page (construct noOptions) 9 = "span".
Proof. vm_compute. reflexivity. Qed.

(** *** Every other element gets a non-empty selector *)

Lemma append_nonempty_r (a b : string) : b <> "" -> a +:+ b <> "".
Proof. destruct a, b; simpl; done. Qed.

Lemma append_nonempty_l (a b : string) : a <> "" -> a +:+ b <> "".
Proof. destruct a; simpl; done. Qed.

Lemma toLowerCase_nonempty (s : string) : s <> "" -> JS.toLowerCase s <> "".
Proof. destruct s; simpl; done. Qed.

Lemma join_nonempty (sep : string) (l : list string) (x : string) :
  x ∈ l -> x <> "" -> JS.join sep l <> "".
Proof.
  induction l as [|y [|z l] IH]; intros Hin Hx.
  - by apply elem_of_nil in Hin.
  - apply list_elem_of_singleton in Hin as ->. done.
  - apply elem_of_cons in Hin as [->|Hin].
    + change (JS.join sep (y :: z :: l))
        with (y +:+ sep +:+ JS.join sep (z :: l)).
      by apply append_nonempty_l.
    + change (JS.join sep (y :: z :: l))
        with (y +:+ sep +:+ JS.join sep (z :: l)).
      apply append_nonempty_r, append_nonempty_r. by apply IH.
Qed.

Lemma attributeSelectorFrom_nonempty doc e attrs s :
  attributeSelectorFrom doc e attrs = Some s -> s <> "".
Proof.
  induction attrs as [|attr rest IH]; simpl; [done|].
  destruct (attributeMap (element doc e) !! attr) as [value|]; [|done].
  destruct (JS.truthy value && JS.truthy (cleanAttributeValue value));
    [|done].
  intros [= <-]. apply append_nonempty_r. done.
Qed.

Lemma firstUniqueClass_nonempty doc e classes s :
  firstUniqueClass doc e classes = Some s -> s <> "".
Proof.
  induction classes as [|cls rest IH]; simpl; [done|].
  destruct (isUnique doc e _); [|done].
  intros [= <-]. apply append_nonempty_r. done.
Qed.

Lemma getClassSelector_nonempty doc this e s :
  getClassSelector doc this e = Some s -> s <> "".
Proof.
  unfold getClassSelector.
  destruct (List.filter _ _) as [|c cs]; [done|].
  destruct (firstUniqueClass doc e (c :: cs)) as [u|] eqn:Hu.
  - intros [= <-]. by eapply firstUniqueClass_nonempty.
  - destruct (1 <? length (c :: cs))%nat; [|done].
    destruct (isUnique doc e _); [|done].
    intros [= <-]. apply append_nonempty_r. done.
Qed.

Lemma levelSelector_nonempty doc e :
  tagName (element doc e) <> "" -> levelSelector doc e <> "".
Proof.
  intros Htag. unfold levelSelector, tag.
  pose proof (toLowerCase_nonempty _ Htag) as Hlow.
  destruct (parentElement (element doc e)); [|done].
  destruct (1 <? length _)%nat; [|done].
  destruct (1 <? length _)%nat; [|done].
  by apply append_nonempty_l.
Qed.

Lemma structuralLoop_keeps_path doc fuel current path :
  exists front, structuralLoop doc fuel current path = front ++ path.
Proof.
  revert current path. induction fuel as [|fuel IH]; intros current path.
  - by exists [].
  - simpl. destruct current as [cur|]; [|by exists []].
    destruct (cur =? documentElement doc)%nat; [by exists []|].
    destruct (IH (parentElement (element doc cur))
                 (levelSelector doc cur :: path)) as [front ->].
    exists (front ++ [levelSelector doc cur]). by rewrite <- app_assoc.
Qed.

Lemma getStructuralPath_nonempty doc this e :
  (0 < maxDepth this)%nat -> e <> documentElement doc ->
  tagName (element doc e) <> "" ->
  getStructuralPath doc this e <> "".
Proof.
  intros Hdepth Hroot Htag. unfold getStructuralPath.
  destruct (maxDepth this) as [|fuel]; [lia|]. simpl.
  destruct (Nat.eqb_spec e (documentElement doc)) as [|_]; [done|].
  destruct (structuralLoop_keeps_path doc fuel
              (parentElement (element doc e)) [levelSelector doc e])
    as [front ->].
  apply (join_nonempty _ _ (levelSelector doc e)).
  - apply elem_of_app. right. by apply list_elem_of_singleton.
  - by apply levelSelector_nonempty.
Qed.

(** For an element that is not the document root (attached or detached),
    an engine built by the constructor returns a non-empty selector. *)
Lemma generate_nonempty_off_root doc options e :
  e <> documentElement doc -> tagName (element doc e) <> "" ->
  generate doc (construct options) e <> "".
Proof.
  intros Hroot Htag.
  assert (0 < maxDepth (construct options))%nat as Hdepth.
  { unfold construct. simpl. destruct (opt_maxDepth options) as [[|n]|]; lia. }
  pose proof (getStructuralPath_nonempty doc _ e Hdepth Hroot Htag) as Hpath.
  unfold generate.
  destruct (getAttributeSelector doc (construct options) e) as [a|] eqn:Ha.
  - destruct (isUnique doc e a).
    + by eapply attributeSelectorFrom_nonempty.
    + destruct (getClassSelector doc (construct options) e) as [c|] eqn:Hc;
        [|done].
      destruct (isUnique doc e c); [|done].
      by eapply getClassSelector_nonempty.
  - destruct (getClassSelector doc (construct options) e) as [c|] eqn:Hc;
      [|done].
    destruct (isUnique doc e c); [|done].
    by eapply getClassSelector_nonempty.
Qed.

End SelectorEngine.
(** ** The style diff of dom-diff.ts *)

Section StyleDiff.

Import DomDiff StyleSpec.

Lemma parseFloat_empty : JS.parseFloat "" = S754_nan.
Proof. reflexivity. Qed.

(** The two thresholds as binary64 values: 1 is exact, 0.01 is the nearest
    double. *)
Example threshold_values :
  one = S754_finite false 4503599627370496 (-52)
  /\ hundredth = S754_finite false 5764607523034235 (-59).
Proof. split; reflexivity. Qed.

Example parseFloat_values :
  JS.parseFloat "100.5px" = S754_finite false 7072058789855232 (-46)
  /\ JS.parseFloat "auto" = S754_nan
  /\ JS.parseFloat "-0" = S754_zero true
  /\ JS.parseFloat "  1e3" = S754_finite false 8796093022208000 (-43)
  /\ JS.parseFloat "Infinity" = S754_infinity false.
Proof. repeat split; vm_compute; reflexivity. Qed.

Lemma numeric_truthy (value : string) : numeric value -> JS.truthy value = true.
Proof. destruct value; [intros [=]|done]. Qed.

Lemma numeric_property_test (property : string) :
  property ∈ NUMERIC_PROPERTIES ->
  existsb (String.eqb property) NUMERIC_PROPERTIES = true.
Proof.
  intros Hin. apply existsb_exists. exists property. split.
  - by apply list_elem_of_In.
  - apply String.eqb_refl.
Qed.

Lemma isSignificantChange_numeric (property from to : string) :
  property ∈ NUMERIC_PROPERTIES -> numeric from -> numeric to ->
  isSignificantChange property from to = deltaAtLeast one from to.
Proof.
  intros Hin Hfrom Hto. unfold isSignificantChange, deltaAtLeast.
  rewrite (numeric_truthy _ Hfrom), (numeric_property_test _ Hin).
  unfold numeric in Hfrom, Hto. by rewrite Hfrom, Hto.
Qed.

Lemma isSignificantChange_opacity (from to : string) :
  numeric from -> numeric to ->
  isSignificantChange "opacity" from to = deltaAtLeast hundredth from to.
Proof.
  intros Hfrom Hto. unfold isSignificantChange, deltaAtLeast.
  rewrite (numeric_truthy _ Hfrom).
  unfold numeric in Hfrom, Hto. by rewrite Hfrom, Hto.
Qed.

Lemma isSignificantChange_not_numeric (property from to : string) :
  from <> to -> ~ (numeric from /\ numeric to) ->
  isSignificantChange property from to = true.
Proof.
  intros Hne Hnum. unfold isSignificantChange, numeric in *.
  assert (negb (JS.truthy from) && negb (JS.truthy to) = false) as ->.
  { destruct from, to; done. }
  destruct (JS.isNaN (JS.parseFloat from)), (JS.isNaN (JS.parseFloat to));
    simpl; rewrite ?andb_false_r; try done.
  exfalso. by apply Hnum.
Qed.

Lemma existsb_eqb_elem (x : string) (l : list string) :
  existsb (String.eqb x) l = bool_decide (x ∈ l).
Proof.
  induction l as [|y l IH]; cbn [existsb].
  - by rewrite bool_decide_eq_false_2 by (by intros H%elem_of_nil).
  - rewrite IH. destruct (String.eqb_spec x y) as [->|Hne]; cbn [orb].
    + by rewrite bool_decide_eq_true_2 by (by apply elem_of_cons; left).
    + destruct (decide (x ∈ l)) as [Hin|Hnin].
      * rewrite !bool_decide_eq_true_2; [done|by apply elem_of_cons; right|done].
      * rewrite !bool_decide_eq_false_2; [done| |done].
        rewrite elem_of_cons. naive_solver.
Qed.

Lemma eqb_bool_decide (x y : string) :
  String.eqb x y = bool_decide (x = y).
Proof.
  destruct (String.eqb_spec x y) as [->|Hne].
  - by rewrite bool_decide_eq_true_2.
  - by rewrite bool_decide_eq_false_2.
Qed.

Lemma isSignificantChange_significant (property from to : string) :
  isSignificantChange property from to = significant property from to.
Proof.
  unfold isSignificantChange, significant, bothNumeric, doubleDelta.
  unfold JS.geb, JS.abs, JS.sub.
  change one with double_one. change hundredth with double_hundredth.
  change JS.prec with 53%Z. change JS.emax with 1024%Z.
  rewrite existsb_eqb_elem, eqb_bool_decide.
  change NUMERIC_PROPERTIES with POSITION_AND_SIZE.
  cbv zeta.
  destruct from as [|c from], to as [|d to]; [reflexivity| | |];
    cbn [JS.truthy negb andb];
    match goal with
    | |- context [negb (JS.isNaN ?x) && negb (JS.isNaN ?y)] =>
        destruct (negb (JS.isNaN x) && negb (JS.isNaN y))
    end;
    destruct (bool_decide (property ∈ POSITION_AND_SIZE)),
             (bool_decide (property = "opacity")); reflexivity.
Qed.

(** C3, amended. A change between two empty values is not significant.
    Otherwise, for width, height, top, left, right and bottom, when both
    values parse as numbers the change is significant exactly when the
    absolute difference of the two parsed doubles, subtracted in binary64,
    is at least 1; for opacity, when both parse as numbers, exactly when
    that difference is at least the double 0.01; in every other case the
    change is significant. Width 100px to 100.5px is not reported, 100px to
    102px is; opacity 1 to 0.995 is not reported, 1 to 0.97 is; a width
    going from 100px to 101px is significant, one going from 0.4px to
    1.4px is not, and neither is an opacity going from 0.06 to 0.05.
    Values are ASCII text, as computed styles are. *)
Theorem isSignificantChange_thresholds :
  (forall property from to,
      JSText.isAscii from = true -> JSText.isAscii to = true ->
      isSignificantChange property from to = significant property from to)
  /\ nearestDouble 1 1 double_one = true
  /\ nearestDouble 1 100 double_hundredth = true
  /\ reported "width" "100px" "100.5px" = false
  /\ reported "width" "100px" "102px" = true
  /\ reported "opacity" "1" "0.995" = false
  /\ reported "opacity" "1" "0.97" = true
  /\ isSignificantChange "width" "100px" "101px" = true
  /\ isSignificantChange "width" "0.4px" "1.4px" = false
  /\ isSignificantChange "opacity" "0.06" "0.05" = false.
Proof.
  split; [intros property from to _ _; apply isSignificantChange_significant|].
  repeat split; vm_compute; reflexivity.
Qed.

Lemma isSignificantChange_thresholds_witness :
  JSText.isAscii "40px" = true /\ JSText.isAscii "40.25px" = true
  /\ isSignificantChange "height" "40px" "40.25px"
     = significant "height" "40px" "40.25px"
  /\ significant "height" "40px" "40.25px" = false.
Proof.
  assert (JSText.isAscii "40px" = true) as Hfrom by reflexivity.
  assert (JSText.isAscii "40.25px" = true) as Hto by reflexivity.
  refine (conj Hfrom (conj Hto (conj _ _))).
  - exact (proj1 isSignificantChange_thresholds "height" "40px" "40.25px"
             Hfrom Hto).
  - vm_compute. reflexivity.
Defined.

(** C3, as stated, fails at the thresholds: 0.4px and 1.4px are numerals
    whose difference is exactly 1, and 0.06 and 0.05 numerals whose
    difference is exactly 0.01, yet neither change is significant, because
    the doubles nearest to them differ by less (by 1 - 2^-53 for the
    first pair). *)
Lemma isSignificantChange_misses_decimal_threshold :
  nearestDouble 2 5 (JS.parseFloat "0.4px") = true
  /\ nearestDouble 7 5 (JS.parseFloat "1.4px") = true
  /\ decimalDeltaAtLeast 2 5 7 5 1 1 = true
  /\ doubleDelta "0.4px" "1.4px" = S754_finite false 9007199254740991 (-53)
  /\ isSignificantChange "width" "0.4px" "1.4px" = false
  /\ reported "width" "0.4px" "1.4px" = false
  /\ nearestDouble 3 50 (JS.parseFloat "0.06") = true
  /\ nearestDouble 1 20 (JS.parseFloat "0.05") = true
  /\ decimalDeltaAtLeast 3 50 1 20 1 100 = true
  /\ isSignificantChange "opacity" "0.06" "0.05" = false
  /\ reported "opacity" "0.06" "0.05" = false.
Proof. repeat split; vm_compute; reflexivity. Qed.

Lemma foldl_fixed {A B : Type} (f : A -> B -> A) (a : A) (l : list B) :
  Forall (fun x => f a x = a) l -> foldl f a l = a.
Proof.
  induction 1 as [|x l Hx _ IH]; simpl; [done|]. by rewrite Hx.
Qed.

(** C7, as the code has it. When no whitelisted property changes
    significantly, [computeStyleDiff] returns null. *)
Theorem computeStyleDiff_nothing_significant
    (element : Element) (beforeStyles afterStyles : CSSStyleDeclaration)
    (Hnone : nothingSignificant beforeStyles afterStyles) :
  computeStyleDiff element beforeStyles afterStyles = None.
Proof.
  unfold computeStyleDiff.
  rewrite foldl_fixed; [done|].
  unfold nothingSignificant, reportable in Hnone.
  eapply Forall_impl; [exact Hnone|].
  intros prop Hprop. unfold styleDiff_step. simpl in Hprop. by rewrite Hprop.
Qed.

Lemma halfPixel_nothingSignificant :
  nothingSignificant (only "width" "100px") (only "width" "100.5px").
Proof. repeat constructor. Qed.

Lemma computeStyleDiff_nothing_significant_witness :
  nothingSignificant (only "width" "100px") (only "width" "100.5px")
  /\ computeStyleDiff 0%nat (only "width" "100px") (only "width" "100.5px")
     = None.
Proof.
  split; [exact halfPixel_nothingSignificant|].
  exact (computeStyleDiff_nothing_significant 0%nat _ _
           halfPixel_nothingSignificant).
Defined.

(** C7, as stated, fails: for a width going from 100px to 100.5px nothing is
    significant, and the result is null, not a diff with an empty map. *)
Lemma computeStyleDiff_returns_null_not_empty_map :
  nothingSignificant (only "width" "100px") (only "width" "100.5px")
  /\ ~ (exists diff,
          computeStyleDiff 0%nat (only "width" "100px")
            (only "width" "100.5px") = Some diff
          /\ changes diff = ∅).
Proof.
  split; [exact halfPixel_nothingSignificant|].
  intros (diff & Hdiff & _).
  vm_compute in Hdiff. discriminate.
Qed.

End StyleDiff.
(** ** Profile extraction (trace-writer.ts) *)

Section OrderedMapFacts.

Import TraceWriter.

Context {V : Type}.
Implicit Types (m : list (string * V)) (k : string).

Lemma Map_has_keys k m : Map_has k m = true <-> k ∈ m.*1.
Proof.
  induction m as [|[k' v'] m IH]; simpl.
  - split; [done|]. intros H. by apply elem_of_nil in H.
  - rewrite orb_true_iff, IH, elem_of_cons, String.eqb_eq. naive_solver.
Qed.

Lemma Map_has_fresh k m : Map_has k m = false <-> k ∉ m.*1.
Proof.
  rewrite <- Map_has_keys. destruct (Map_has k m); naive_solver.
Qed.

Lemma Map_set_fresh k (v : V) m :
  Map_has k m = false -> Map_set k v m = m ++ [(k, v)].
Proof.
  induction m as [|[k' v'] m IH]; simpl; [done|].
  intros [Hk Hm]%orb_false_iff. rewrite Hk. by rewrite IH.
Qed.

Lemma Map_update_last (f : V -> V) k (v : V) m :
  Map_has k m = false -> Map_update f k (m ++ [(k, v)]) = m ++ [(k, f v)].
Proof.
  induction m as [|[k' v'] m IH]; simpl.
  - by rewrite String.eqb_refl.
  - intros [Hk Hm]%orb_false_iff. rewrite Hk. by rewrite IH.
Qed.

Lemma Map_update_absent (f : V -> V) k m :
  Map_has k m = false -> Map_update f k m = m.
Proof.
  induction m as [|[k' v'] m IH]; simpl; [done|].
  intros [Hk Hm]%orb_false_iff. rewrite Hk. by rewrite IH.
Qed.

(** On a map with distinct keys, the update reaches exactly the entry of
    [k]. *)
Lemma Map_update_tabulated (f : V -> V) k (F : string -> V) (keys : list string) :
  NoDup keys ->
  Map_update f k (map (fun s => (s, F s)) keys)
  = map (fun s => (s, if decide (s = k) then f (F s) else F s)) keys.
Proof.
  induction 1 as [|s keys Hs Hnd IH]; simpl; [done|].
  destruct (String.eqb_spec s k) as [->|Hne].
  - rewrite decide_True by done. f_equal.
    apply map_ext_in. intros s' Hs'.
    rewrite decide_False; [done|].
    intros ->. by apply Hs, list_elem_of_In.
  - rewrite decide_False by done. by rewrite IH.
Qed.

End OrderedMapFacts.

Section ProfileExtraction.

Import TraceWriter TraceSpec.

(** *** The property loop *)

Lemma changedProperties_lookup (b a : gmap string string) (k : string) :
  changedProperties b a !! k =
    match a !! k with
    | Some v =>
        if decide (b !! k = Some v) then None
        else Some {| from := JS.orElse (b !! k) "";
                     to := JS.orElse (Some v) "" |}
    | None => None
    end.
Proof.
  unfold changedProperties.
  apply (map_fold_weak_ind (fun (r : gmap string Change) (m : gmap string string) =>
    r !! k = match m !! k with
             | Some v =>
                 if decide (b !! k = Some v) then None
                 else Some {| from := JS.orElse (b !! k) "";
                              to := JS.orElse (Some v) "" |}
             | None => None
             end)).
  - by rewrite !lookup_empty.
  - intros i x m r Hi IH. unfold property_step.
    destruct (decide (i = k)) as [->|Hne].
    + rewrite lookup_insert_eq. case_decide.
      * by rewrite IH, Hi.
      * by rewrite lookup_insert_eq.
    + rewrite (lookup_insert_ne m) by done.
      case_decide; [done|]. by rewrite lookup_insert_ne.
Qed.

Lemma changedProperties_after_key (b a : gmap string string) (k : string) :
  is_Some (changedProperties b a !! k) -> is_Some (a !! k).
Proof.
  rewrite changedProperties_lookup. destruct (a !! k); [eauto|].
  intros [? [=]].
Qed.

Lemma changedProperties_disappeared (b a : gmap string string) (k : string) :
  a !! k = None -> changedProperties b a !! k = None.
Proof. intros Ha. by rewrite changedProperties_lookup, Ha. Qed.

Lemma changedProperties_unchanged (b a : gmap string string) :
  (forall k v, a !! k = Some v -> b !! k = Some v) ->
  changedProperties b a = ∅.
Proof.
  intros Hsub. apply map_eq. intros k.
  rewrite changedProperties_lookup, lookup_empty.
  destruct (a !! k) as [v|] eqn:Ha; [|done].
  by rewrite decide_True by eauto.
Qed.

(** *** The loops as list functions *)

Lemma push_changes_omap (traces : list TraceRecord) (changes : list StyleChange) :
  foldl (fun changes trace =>
           match styleChangeOf trace with
           | Some change => changes ++ [change]
           | None => changes
           end) changes traces
  = changes ++ omap styleChangeOf traces.
Proof.
  revert changes. induction traces as [|t traces IH]; intros changes; simpl.
  - by rewrite app_nil_r.
  - rewrite IH. destruct (styleChangeOf t); [|done].
    by rewrite <- app_assoc.
Qed.

Lemma findConsistentStyleChanges_omap (traces : list TraceRecord) :
  findConsistentStyleChanges traces = omap styleChangeOf traces.
Proof. unfold findConsistentStyleChanges. by rewrite push_changes_omap. Qed.

Lemma profiles_fold_concat (groups : list (string * list TraceRecord))
    (profiles : list AnimationProfile) :
  foldl profiles_step profiles groups
  = profiles ++
    concat (map (fun g => map (profileOf g.1) (omap styleChangeOf g.2)) groups).
Proof.
  revert profiles. induction groups as [|[s ts] groups IH]; intros profiles; simpl.
  - by rewrite app_nil_r.
  - rewrite IH, findConsistentStyleChanges_omap.
    destruct (omap styleChangeOf ts) as [|c cs]; simpl.
    + done.
    + by rewrite <- app_assoc.
Qed.

(** *** First appearance *)

Lemma firstAppearance_elem (l : list string) (s : string) :
  s ∈ firstAppearance l <-> s ∈ l.
Proof.
  induction l as [|x l IH]; simpl; [done|].
  rewrite !elem_of_cons, list_elem_of_filter, IH.
  destruct (decide (s = x)); naive_solver.
Qed.

Lemma firstAppearance_NoDup (l : list string) : NoDup (firstAppearance l).
Proof.
  induction l as [|x l IH]; simpl; [constructor|].
  constructor.
  - rewrite list_elem_of_filter. naive_solver.
  - by apply NoDup_filter.
Qed.

Lemma firstAppearance_snoc (l : list string) (s : string) :
  firstAppearance (l ++ [s])
  = if decide (s ∈ l) then firstAppearance l else firstAppearance l ++ [s].
Proof.
  induction l as [|x l IH]; cbn [firstAppearance app].
  - rewrite decide_False; [done|]. by intros H%elem_of_nil.
  - rewrite IH. destruct (decide (s ∈ l)) as [Hin|Hnin].
    + rewrite decide_True; [done|]. by apply elem_of_cons; right.
    + rewrite filter_app. destruct (decide (s = x)) as [->|Hne].
      * rewrite decide_True by (by apply elem_of_cons; left).
        rewrite filter_cons_False by naive_solver.
        by rewrite filter_nil, app_nil_r.
      * rewrite decide_False.
        2:{ rewrite elem_of_cons. naive_solver. }
        by rewrite filter_cons_True by done.
Qed.

(** *** The grouping loop *)

Lemma group_step_selectorOf (bySelector : list (string * list TraceRecord))
    (t : TraceRecord) :
  group_step bySelector t =
    match selectorOf t with
    | Some s =>
        Map_update (fun traces => traces ++ [t]) s
          (if Map_has s bySelector then bySelector
           else Map_set s [] bySelector)
    | None => bySelector
    end.
Proof.
  unfold group_step, selectorOf. by destruct (type t), (event t).
Qed.

Lemma group_snoc (s : string) (traces : list TraceRecord) (t : TraceRecord) :
  group s (traces ++ [t])
  = group s traces ++ (if decide (selectorOf t = Some s) then [t] else []).
Proof.
  unfold group. by rewrite filter_app.
Qed.

Lemma group_absent (s : string) (traces : list TraceRecord) :
  s ∉ omap selectorOf traces -> group s traces = [].
Proof.
  intros Hnot. unfold group.
  induction traces as [|t traces IH]; [done|].
  rewrite filter_cons. case_decide as Ht.
  - exfalso. apply Hnot. simpl. rewrite Ht. by apply elem_of_cons; left.
  - apply IH. intros Hin. apply Hnot. simpl.
    destruct (selectorOf t); [by apply elem_of_cons; right|done].
Qed.

Lemma groupBySelector_tabulated (traces : list TraceRecord) :
  groupBySelector traces
  = map (fun s => (s, group s traces))
      (firstAppearance (omap selectorOf traces)).
Proof.
  unfold groupBySelector.
  induction traces as [|t traces IH] using rev_ind; [done|].
  rewrite foldl_snoc, IH, group_step_selectorOf, omap_app. simpl.
  destruct (selectorOf t) as [s0|] eqn:Ht; simpl.
  - rewrite firstAppearance_snoc.
    set (keys := firstAppearance (omap selectorOf traces)).
    destruct (decide (s0 ∈ omap selectorOf traces)) as [Hin|Hnin].
    + assert (Map_has s0 (map (fun s => (s, group s traces)) keys) = true)
        as ->.
      { apply Map_has_keys. rewrite <- list_fmap_compose.
        change (s0 ∈ id <$> keys). rewrite list_fmap_id.
        by apply firstAppearance_elem. }
      rewrite Map_update_tabulated by apply firstAppearance_NoDup.
      apply map_ext. intros s. rewrite group_snoc, Ht.
      destruct (decide (s = s0)) as [->|Hne].
      * by rewrite decide_True.
      * rewrite decide_False by congruence. by rewrite app_nil_r.
    + assert (Map_has s0 (map (fun s => (s, group s traces)) keys) = false)
        as Hfresh.
      { apply Map_has_fresh. rewrite <- list_fmap_compose.
        change (s0 ∉ id <$> keys). rewrite list_fmap_id.
        unfold keys. by rewrite firstAppearance_elem. }
      rewrite Hfresh, Map_set_fresh, Map_update_last by done.
      rewrite map_app. simpl. f_equal.
      * apply map_ext_in. intros s Hs. rewrite group_snoc, Ht.
        rewrite decide_False; [by rewrite app_nil_r|].
        intros [= ->]. apply Hnin.
        by apply firstAppearance_elem, list_elem_of_In.
      * rewrite group_snoc, Ht, decide_True by done.
        by rewrite group_absent.
  - rewrite app_nil_r. apply map_ext. intros s.
    rewrite group_snoc, Ht. by rewrite app_nil_r.
Qed.

Lemma extractProfiles_grouped (traces : list TraceRecord) :
  extractProfiles traces = groupedProfiles traces.
Proof.
  unfold extractProfiles, groupedProfiles.
  rewrite profiles_fold_concat, groupBySelector_tabulated. simpl.
  by rewrite map_map.
Qed.

End ProfileExtraction.
Section Profiles.

Import TraceWriter TraceSpec.

Lemma extractProfiles_single (t : TraceRecord) :
  extractProfiles [t] =
    match selectorOf t, styleChangeOf t with
    | Some s, Some c => [profileOf s c]
    | _, _ => []
    end.
Proof.
  rewrite extractProfiles_grouped. unfold groupedProfiles, group.
  cbn [omap list_omap]. destruct (selectorOf t) as [s|] eqn:Hs.
  - cbn [firstAppearance filter list_filter map concat].
    rewrite decide_True by done. rewrite app_nil_r.
    cbn [omap list_omap]. by destruct (styleChangeOf t).
  - done.
Qed.

(** Every emitted profile is the profile of a record of the input that has
    its event and both snapshots. *)
Lemma extractProfiles_origin (traces : list TraceRecord) (p : AnimationProfile) :
  p ∈ extractProfiles traces ->
  exists t ev b a c,
    t ∈ traces /\ event t = Some ev /\ before t = Some b /\ after t = Some a
    /\ styleChangeOf t = Some c /\ p = profileOf (selector ev) c.
Proof.
  rewrite extractProfiles_grouped. unfold groupedProfiles.
  intros Hp. apply list_elem_of_In, in_concat in Hp as (ps & Hps & Hp).
  apply in_map_iff in Hps as (s & <- & _).
  apply in_map_iff in Hp as (c & <- & Hc).
  apply list_elem_of_In, list_elem_of_omap in Hc as (t & Ht & Hc).
  apply list_elem_of_filter in Ht as [Hsel Ht].
  unfold selectorOf in Hsel. unfold styleChangeOf in Hc.
  destruct (type t); try done.
  destruct (event t) as [ev|] eqn:Hev; [|done].
  destruct (before t) as [b|] eqn:Hb; [|done].
  destruct (after t) as [a|] eqn:Ha; [|done].
  injection Hsel as <-.
  exists t, ev, b, a, c. repeat split; try done.
  unfold styleChangeOf. by rewrite Hev, Hb, Ha.
Qed.

Lemma styleChangeOf_properties (t : TraceRecord) (b a : Snapshot) (c : StyleChange) :
  before t = Some b -> after t = Some a -> styleChangeOf t = Some c ->
  properties (change_effect c)
  = changedProperties (computed (style b)) (computed (style a)).
Proof.
  intros Hb Ha. unfold styleChangeOf. rewrite Hb, Ha.
  destruct (event t); [|done].
  destruct (0 <? size _)%nat; [|done]. by intros [= <-].
Qed.

Lemma styleChangeOf_qualifying (t : TraceRecord) (ev : InteractionEvent)
    (b a : Snapshot) :
  qualifying t ev b a ->
  exists c, styleChangeOf t = Some c
    /\ change_trigger c
       = {| trigger_event := kind ev; trigger_selector := selector ev |}
    /\ properties (change_effect c)
       = changedProperties (computed (style b)) (computed (style a))
    /\ timing (change_effect c)
       = if bool_decide (is_Some (properties (change_effect c) !! "transition"))
         then Some {| duration :=
                        JS.orElse (computed (style a) !! "transition-duration")
                          "0s";
                      easing :=
                        Some (JS.orElse
                                (computed (style a)
                                   !! "transition-timing-function") "ease");
                      delay :=
                        Some (JS.orElse
                                (computed (style a) !! "transition-delay")
                                "0s") |}
         else None.
Proof.
  intros (Htype & Hev & Hb & Ha & Hne).
  unfold styleChangeOf. rewrite Hev, Hb, Ha.
  assert ((0 <? size (changedProperties (computed (style b))
                        (computed (style a))))%nat = true) as ->.
  { apply Nat.ltb_lt.
    destruct (size _) eqn:Hsize; [|lia].
    by apply map_size_empty_iff in Hsize. }
  eexists. split; [reflexivity|]. done.
Qed.

(** C8. The profiles come out grouped by selector, the selectors in the
    order of their first appearance and the records of a selector in their
    original order; records for a, b, a give the profiles of both a records
    followed by the profile of the b record. *)
Theorem extractProfiles_first_appearance_order :
  (forall traces, extractProfiles traces = groupedProfiles traces)
  /\ map name (extractProfiles [firstA; onlyB; secondA])
     = ["click-on-a"; "input-on-a"; "hover-on-b"]
  /\ extractProfiles [firstA; onlyB; secondA]
     = extractProfiles [firstA; secondA] ++ extractProfiles [onlyB].
Proof.
  split; [exact extractProfiles_grouped|].
  split; vm_compute; reflexivity.
Qed.

(** C10. The properties of an emitted profile are those computed from the
    before and after styles of one input record, and every key among them
    is a key of that record's after style; a property that the after style
    lacks is never reported; a record whose after style agrees with the
    before style wherever it is defined yields no profile. *)
Theorem emitted_properties_are_after_keys :
  (forall traces p,
      p ∈ extractProfiles traces ->
      exists t b a,
        t ∈ traces /\ before t = Some b /\ after t = Some a
        /\ properties (effect p)
           = changedProperties (computed (style b)) (computed (style a))
        /\ forall k, is_Some (properties (effect p) !! k) ->
                     is_Some (computed (style a) !! k))
  /\ (forall (b a : gmap string string) k,
      a !! k = None -> changedProperties b a !! k = None)
  /\ (forall t b a,
      before t = Some b -> after t = Some a ->
      (forall k v, computed (style a) !! k = Some v ->
                   computed (style b) !! k = Some v) ->
      styleChangeOf t = None /\ extractProfiles [t] = [])
  /\ extractProfiles [filterDropped] = [].
Proof.
  split; [|split; [|split]].
  - intros traces p Hp.
    destruct (extractProfiles_origin traces p Hp)
      as (t & ev & b & a & c & Ht & Hev & Hb & Ha & Hc & ->).
    exists t, b, a. repeat split; try done.
    + by apply styleChangeOf_properties with t.
    + intros k. simpl. rewrite (styleChangeOf_properties t b a c) by done.
      apply changedProperties_after_key.
  - exact changedProperties_disappeared.
  - intros t b a Hb Ha Hsub.
    assert (styleChangeOf t = None) as Hnone.
    { unfold styleChangeOf. rewrite Hb, Ha.
      destruct (event t); [|done].
      by rewrite (changedProperties_unchanged _ _ Hsub). }
    split; [done|].
    rewrite extractProfiles_single, Hnone. by destruct (selectorOf t).
  - vm_compute. reflexivity.
Qed.

Lemma emitted_properties_are_after_keys_witness :
  before filterDropped = Some (snapshot "div.card" []
                                 {[ "opacity" := "1"; "filter" := "blur(2px)" ]})
  /\ after filterDropped = Some (snapshot "div.card" [] {[ "opacity" := "1" ]})
  /\ styleChangeOf filterDropped = None.
Proof.
  split; [reflexivity|]. split; [reflexivity|].
  refine (proj1 (proj1 (proj2 (proj2 emitted_properties_are_after_keys))
                   filterDropped _ _ eq_refl eq_refl _)).
  intros k v Hk. simpl in *.
  destruct (decide (k = "opacity")) as [->|Hne].
  - vm_compute in Hk. injection Hk as <-. vm_compute. reflexivity.
  - rewrite lookup_singleton_ne in Hk by done. discriminate.
Defined.

(** C6, as the code has it. The profile of a qualifying record has a timing
    exactly when its properties contain the key [transition]; the timing
    then takes duration, easing and delay from the after style, with the
    defaults 0s, ease and 0s. *)
Theorem timing_follows_transition_key
    (t : TraceRecord) (ev : InteractionEvent) (b a : Snapshot)
    (Hq : qualifying t ev b a) :
  exists p,
    extractProfiles [t] = [p]
    /\ properties (effect p)
       = changedProperties (computed (style b)) (computed (style a))
    /\ (is_Some (timing (effect p))
        <-> is_Some (properties (effect p) !! "transition"))
    /\ forall tm,
        timing (effect p) = Some tm ->
        duration tm
        = JS.orElse (computed (style a) !! "transition-duration") "0s"
        /\ easing tm
           = Some (JS.orElse (computed (style a) !! "transition-timing-function")
                     "ease")
        /\ delay tm
           = Some (JS.orElse (computed (style a) !! "transition-delay") "0s").
Proof.
  destruct (styleChangeOf_qualifying t ev b a Hq)
    as (c & Hc & Htrig & Hprops & Htiming).
  destruct Hq as (Htype & Hev & _).
  exists (profileOf (selector ev) c).
  split.
  { rewrite extractProfiles_single, Hc. unfold selectorOf.
    by rewrite Htype, Hev. }
  split; [done|]. simpl. rewrite Htiming.
  destruct (bool_decide (is_Some (properties (change_effect c) !! "transition")))
    eqn:Hkey.
  - apply bool_decide_eq_true in Hkey. split; [done|].
    intros tm [= <-]. done.
  - apply bool_decide_eq_false in Hkey. split.
    + split; [intros [? [=]]|done].
    + intros tm [=].
Qed.

Lemma hoverTransition_qualifying :
  qualifying hoverTransition {| kind := "hover"; selector := "a.link" |}
    (snapshot "a.link" [] {[ "transition" := "all 0s ease 0s"; "opacity" := "1" ]})
    (snapshot "a.link" []
       {[ "transition" := "opacity 0.3s ease-in 0s"; "opacity" := "1" ]}).
Proof.
  repeat split. intros Hempty.
  apply (f_equal (fun m : gmap string Change => m !! "transition")) in Hempty.
  vm_compute in Hempty. discriminate.
Qed.

Lemma timing_follows_transition_key_witness :
  exists p,
    extractProfiles [hoverTransition] = [p]
    /\ is_Some (timing (effect p)).
Proof.
  destruct (timing_follows_transition_key _ _ _ _ hoverTransition_qualifying)
    as (p & Hp & Hprops & Hiff & _).
  exists p. split; [exact Hp|].
  apply Hiff. rewrite Hprops. vm_compute. eauto.
Defined.

(** C6, as stated, fails on the delay: the after style of this hover record
    has no [transition-delay], and the timing of its profile carries the
    delay 0s rather than none. *)
Lemma timing_delay_defaults_to_0s :
  computed (style (snapshot "a.link" []
                     {[ "transition" := "opacity 0.3s ease-in 0s";
                        "opacity" := "1" ]}))
    !! "transition-delay" = None
  /\ exists p tm,
       extractProfiles [hoverTransition] = [p]
       /\ timing (effect p) = Some tm
       /\ delay tm = Some "0s"
       /\ delay tm <> None.
Proof.
  split; [vm_compute; reflexivity|].
  eexists _, _. split; [vm_compute; reflexivity|].
  split; [reflexivity|]. split; [reflexivity|discriminate].
Qed.

Lemma pressed_changes :
  changedProperties pressedBefore pressedAfter = pressedChanges.
Proof. vm_compute. reflexivity. Qed.

(** C1, as the code has it. One click on button.cta whose style goes from
    scale(1), opacity 1 to scale(0.95), opacity 0.8, the class list keeping
    its length, gives exactly one profile: it is named click-on-button.cta,
    its effect is a transition with both property changes, and it has no
    timing. *)
Theorem extractProfiles_cta_click
    (t : TraceRecord) (ev : InteractionEvent) (b a : Snapshot)
    (Htype : type t = interaction)
    (Hev : event t = Some ev)
    (Hkind : kind ev = "click")
    (Hsel : selector ev = "button.cta")
    (Hb : before t = Some b)
    (Ha : after t = Some a)
    (Hbefore : computed (style b) = pressedBefore)
    (Hafter : computed (style a) = pressedAfter)
    (Hclasses : length (classes (dom a)) = length (classes (dom b))) :
  exists p,
    extractProfiles [t] = [p]
    /\ name p = "click-on-button.cta"
    /\ trigger p = {| trigger_event := "click"; trigger_selector := "button.cta" |}
    /\ effect_type (effect p) = transition
    /\ target (effect p) = "button.cta"
    /\ properties (effect p) = pressedChanges
    /\ timing (effect p) = None.
Proof.
  assert (styleChangeOf t
          = Some {| change_trigger :=
                      {| trigger_event := "click";
                         trigger_selector := "button.cta" |};
                    change_effect :=
                      {| effect_type := transition;
                         target := "button.cta";
                         properties := pressedChanges;
                         timing := None |} |}) as Hc.
  { unfold styleChangeOf.
    rewrite Hev, Hb, Ha, Hbefore, Hafter, pressed_changes, Hclasses,
      Nat.eqb_refl, Hkind, Hsel.
    vm_compute. reflexivity. }
  eexists. split.
  { rewrite extractProfiles_single, Hc. unfold selectorOf.
    rewrite Htype, Hev, Hsel. reflexivity. }
  repeat split.
Qed.

Lemma extractProfiles_cta_click_witness :
  exists p,
    extractProfiles [ctaClick] = [p] /\ name p = "click-on-button.cta".
Proof.
  destruct (extractProfiles_cta_click ctaClick
              {| kind := "click"; selector := "button.cta" |}
              (snapshot "button.cta" [] pressedBefore)
              (snapshot "button.cta" [] pressedAfter)
              eq_refl eq_refl eq_refl eq_refl eq_refl eq_refl eq_refl eq_refl
              eq_refl)
    as (p & Hp & Hname & _).
  exists p. split; [exact Hp | exact Hname].
Defined.

(** C1, as stated, fails on the name: the only profile of the click on
    button.cta is not named click-on-cta. *)
Lemma cta_click_profile_not_named_click_on_cta :
  ~ (exists p,
       extractProfiles [ctaClick] = [p] /\ name p = "click-on-cta").
Proof.
  intros (p & Hp & Hname).
  vm_compute in Hp. injection Hp as <-. vm_compute in Hname. discriminate.
Qed.

End Profiles.
(** ** The structural diff of dom-diff.ts *)

Section StructuralDiff.

Import DomDiffStructure StructureSpec.

Lemma plainKey_intro (key : string) :
  bool_decide (key ∈ JSObject.PROTOTYPE_KEYS) = false -> JSObject.plainKey key.
Proof. intros Hfalse Hin. by apply bool_decide_eq_false in Hfalse. Qed.

Lemma orElse_empty_default (o : option string) :
  JS.orElse o "" = default "" o.
Proof. by destruct o as [[|c s]|]. Qed.

Lemma removed_fold_lookup (b a : gmap string string) (k : string) :
  map_fold (removed_step a) ∅ b !! k =
    match b !! k with
    | Some v =>
        if decide (a !! k = Some v) then None
        else Some {| from := v; to := default "" (a !! k) |}
    | None => None
    end.
Proof.
  apply (map_fold_weak_ind
    (fun (r : gmap string Change) (m : gmap string string) =>
       r !! k = match m !! k with
                | Some v =>
                    if decide (a !! k = Some v) then None
                    else Some {| from := v; to := default "" (a !! k) |}
                | None => None
                end)).
  - by rewrite !lookup_empty.
  - intros i x m r Hi IH. unfold removed_step.
    destruct (decide (i = k)) as [->|Hne].
    + rewrite lookup_insert_eq. case_decide.
      * by rewrite IH, Hi.
      * by rewrite lookup_insert_eq, orElse_empty_default.
    + rewrite (lookup_insert_ne m) by done.
      case_decide; [done|]. by rewrite lookup_insert_ne.
Qed.

Lemma added_fold_lookup (b a : gmap string string)
    (start : gmap string Change) (k : string) :
  map_fold (added_step b) start a !! k =
    match a !! k with
    | Some w =>
        if bool_decide (is_Some (b !! k)) then start !! k
        else Some {| from := ""; to := w |}
    | None => start !! k
    end.
Proof.
  apply (map_fold_weak_ind
    (fun (r : gmap string Change) (m : gmap string string) =>
       r !! k = match m !! k with
                | Some w =>
                    if bool_decide (is_Some (b !! k)) then start !! k
                    else Some {| from := ""; to := w |}
                | None => start !! k
                end)).
  - by rewrite lookup_empty.
  - intros i x m r Hi IH. unfold added_step.
    destruct (decide (i = k)) as [->|Hne].
    + rewrite lookup_insert_eq.
      destruct (bool_decide (is_Some (b !! k))).
      * by rewrite IH, Hi.
      * by rewrite lookup_insert_eq.
    + rewrite (lookup_insert_ne m) by done.
      destruct (bool_decide (is_Some (b !! i))); [done|].
      by rewrite lookup_insert_ne.
Qed.

Lemma compareAttributes_lookup (b a : gmap string string) (k : string) :
  compareAttributes b a !! k =
    if decide (b !! k = a !! k) then None
    else Some {| from := default "" (b !! k); to := default "" (a !! k) |}.
Proof.
  unfold compareAttributes.
  rewrite added_fold_lookup, removed_fold_lookup.
  destruct (b !! k) as [v|] eqn:Hb, (a !! k) as [w|] eqn:Ha; simpl;
    repeat case_bool_decide; repeat case_decide; simplify_eq; try done.
  all: match goal with H : ~ is_Some _ |- _ => exfalso; apply H; eauto end.
Qed.

(** X1. For dictionaries none of whose keys names a member of
    [Object.prototype], [compareAttributes] reports a key exactly when the
    two maps differ on it (in presence or in value), with the empty string
    standing for an absent side; comparing a map with itself reports
    nothing, and an attribute with an empty value that is removed is
    reported with both sides empty. *)
Theorem compareAttributes_reports_differences
    (b a : gmap string string)
    (Hb : JSObject.plain b) (Ha : JSObject.plain a) :
  (forall k,
      compareAttributes b a !! k =
        if decide (b !! k = a !! k) then None
        else Some {| from := default "" (b !! k);
                     to := default "" (a !! k) |})
  /\ compareAttributes b b = ∅
  /\ (forall k,
      b !! k = Some "" -> a !! k = None ->
      compareAttributes b a !! k = Some {| from := ""; to := "" |}).
Proof.
  split; [exact (compareAttributes_lookup b a)|]. split.
  - apply map_eq. intros k.
    by rewrite compareAttributes_lookup, lookup_empty, decide_True.
  - intros k Hbk Hak. rewrite compareAttributes_lookup, Hbk, Hak.
    by rewrite decide_False.
Qed.

Lemma compareAttributes_reports_differences_witness :
  JSObject.plain ({[ "disabled" := "" ]} : gmap string string)
  /\ JSObject.plain (∅ : gmap string string)
  /\ compareAttributes {[ "disabled" := "" ]} ∅ !! "disabled"
     = Some {| from := ""; to := "" |}.
Proof.
  assert (JSObject.plain ({[ "disabled" := "" ]} : gmap string string))
    as Hb.
  { apply map_Forall_singleton. apply plainKey_intro. vm_compute. reflexivity. }
  assert (JSObject.plain (∅ : gmap string string)) as Ha
    by apply map_Forall_empty.
  refine (conj Hb (conj Ha _)).
  exact (proj2 (proj2 (compareAttributes_reports_differences _ _ Hb Ha))
           "disabled" eq_refl eq_refl).
Defined.

Lemma filter_nil_iff {A : Type} (f : A -> bool) (l : list A) :
  List.filter f l = [] <-> forall x, x ∈ l -> f x = false.
Proof.
  induction l as [|y l IH]; simpl.
  - split; [|done]. intros _ x Hx. by apply elem_of_nil in Hx.
  - destruct (f y) eqn:Hy.
    + split; [done|]. intros H. specialize (H y). rewrite Hy in H.
      discriminate H. by apply elem_of_cons; left.
    + rewrite IH. split.
      * intros H x [->|Hx]%elem_of_cons; [done|]. by apply H.
      * intros H x Hx. apply H. by apply elem_of_cons; right.
Qed.

Lemma compareClasses_added (before after : list string) (x : string) :
  x ∈ added (compareClasses before after) <-> x ∈ after /\ x ∉ before.
Proof.
  unfold compareClasses. simpl.
  rewrite list_elem_of_In, filter_In, <- list_elem_of_In.
  rewrite negb_true_iff, bool_decide_eq_false, elem_of_list_to_set.
  tauto.
Qed.

Lemma compareClasses_removed (before after : list string) (x : string) :
  x ∈ removed (compareClasses before after) <-> x ∈ before /\ x ∉ after.
Proof.
  unfold compareClasses. simpl.
  rewrite list_elem_of_In, filter_In, <- list_elem_of_In.
  rewrite negb_true_iff, bool_decide_eq_false, elem_of_list_to_set.
  tauto.
Qed.

Lemma compareClasses_empty_iff (before after : list string) :
  added (compareClasses before after) = []
  /\ removed (compareClasses before after) = []
  <-> sameMembers before after.
Proof.
  unfold sameMembers. split.
  - intros [Ha Hr] x. split; intros Hx.
    + destruct (decide (x ∈ after)) as [|Hn]; [done|].
      assert (x ∈ removed (compareClasses before after)) as Hin
        by by apply compareClasses_removed.
      rewrite Hr in Hin. by apply elem_of_nil in Hin.
    + destruct (decide (x ∈ before)) as [|Hn]; [done|].
      assert (x ∈ added (compareClasses before after)) as Hin
        by by apply compareClasses_added.
      rewrite Ha in Hin. by apply elem_of_nil in Hin.
  - intros Hsame. split.
    + destruct (added (compareClasses before after)) as [|x l] eqn:E; [done|].
      assert (x ∈ added (compareClasses before after)) as Hin
        by (rewrite E; by apply elem_of_cons; left).
      apply compareClasses_added in Hin as [Hx Hn]. by apply Hsame in Hx.
    + destruct (removed (compareClasses before after)) as [|x l] eqn:E; [done|].
      assert (x ∈ removed (compareClasses before after)) as Hin
        by (rewrite E; by apply elem_of_cons; left).
      apply compareClasses_removed in Hin as [Hx Hn]. by apply Hsame in Hx.
Qed.

(** X2. [compareClasses] lists as added the classes of [after] that are
    not in [before] and as removed those of [before] that are not in
    [after]; both lists are empty exactly when the two class lists have the
    same members, whatever their order and repetitions. *)
Theorem compareClasses_set_difference (before after : list string) :
  (forall x, x ∈ added (compareClasses before after)
             <-> x ∈ after /\ x ∉ before)
  /\ (forall x, x ∈ removed (compareClasses before after)
                <-> x ∈ before /\ x ∉ after)
  /\ (added (compareClasses before after) = []
      /\ removed (compareClasses before after) = []
      <-> sameMembers before after).
Proof.
  split; [exact (compareClasses_added before after)|].
  split; [exact (compareClasses_removed before after)|].
  exact (compareClasses_empty_iff before after).
Qed.

End StructuralDiff.
Section Serialization.

Import DomDiffStructure StructureSpec.

Lemma attribute_step_excluded (attrs : gmap string string) (name value : string) :
  attribute_step attrs (name, value)
  = if excluded name then attrs else <[ name := value ]> attrs.
Proof.
  unfold attribute_step, excluded.
  destruct (existsb _ IGNORED_ATTRIBUTES); [done|].
  destruct (String.eqb name "style"); [done|].
  by destruct (String.eqb name "class").
Qed.

Lemma attribute_fold_other (l : list (string * string))
    (acc : gmap string string) (k : string) :
  k ∉ l.*1 -> foldl attribute_step acc l !! k = acc !! k.
Proof.
  revert acc. induction l as [|[n x] l IH]; intros acc Hk; [done|].
  cbn [foldl]. rewrite IH.
  - rewrite attribute_step_excluded. destruct (excluded n); [done|].
    rewrite lookup_insert_ne; [done|].
    intros ->. apply Hk. simpl. by apply elem_of_cons; left.
  - intros Hin. apply Hk. simpl. by apply elem_of_cons; right.
Qed.

Lemma attribute_fold_sound (l : list (string * string))
    (acc : gmap string string) (k v : string) :
  foldl attribute_step acc l !! k = Some v ->
  acc !! k = Some v \/ (excluded k = false /\ (k, v) ∈ l).
Proof.
  revert acc. induction l as [|[n x] l IH]; intros acc Hk; [by left|].
  cbn [foldl] in Hk. apply IH in Hk as [Hk|[Hex Hin]].
  - rewrite attribute_step_excluded in Hk.
    destruct (excluded n) eqn:Hn; [by left|].
    destruct (decide (n = k)) as [->|Hne].
    + rewrite lookup_insert_eq in Hk. injection Hk as ->.
      right. split; [done|]. by apply elem_of_cons; left.
    + rewrite lookup_insert_ne in Hk by done. by left.
  - right. split; [done|]. by apply elem_of_cons; right.
Qed.

Lemma attribute_fold_complete (l : list (string * string))
    (acc : gmap string string) (k v : string) :
  NoDup l.*1 -> (k, v) ∈ l -> excluded k = false ->
  foldl attribute_step acc l !! k = Some v.
Proof.
  revert acc. induction l as [|[n x] l IH]; intros acc Hnd Hin Hex.
  - by apply elem_of_nil in Hin.
  - simpl in Hnd. apply NoDup_cons in Hnd as [Hn Hnd].
    cbn [foldl]. apply elem_of_cons in Hin as [[= <- <-]|Hin].
    + rewrite attribute_fold_other by done.
      by rewrite attribute_step_excluded, Hex, lookup_insert_eq.
    + by apply IH.
Qed.

Lemma plainNames_plain (element : ElementView) :
  plainNames element -> JSObject.plain (getMeaningfulAttributes element).
Proof.
  intros Hplain k v Hk. unfold getMeaningfulAttributes in Hk.
  apply attribute_fold_sound in Hk as [Hk|[_ Hin]].
  - by rewrite lookup_empty in Hk.
  - unfold plainNames in Hplain. rewrite Forall_forall in Hplain.
    by apply (Hplain (k, v)).
Qed.

Lemma excluded_prefix (name ignored : string) :
  ignored ∈ IGNORED_ATTRIBUTES -> JS.startsWith name ignored = true ->
  excluded name = true.
Proof.
  intros Hin Hstart. unfold excluded.
  assert (existsb (fun ignored => JS.startsWith name ignored)
            IGNORED_ATTRIBUTES = true) as ->; [|done].
  apply existsb_exists. exists ignored. split; [|done].
  by apply list_elem_of_In.
Qed.

(** X3. On an element none of whose attributes is named like a member of
    [Object.prototype], the attribute map of a serialized node holds only
    attributes of the element, never [style], never [class] and never a
    name that starts with an ignored framework prefix; when the attribute
    names are distinct, every other attribute is kept with its value. *)
Theorem getMeaningfulAttributes_keeps_the_rest (element : ElementView)
    (Hplain : plainNames element) :
  (forall k v,
      getMeaningfulAttributes element !! k = Some v ->
      excluded k = false /\ (k, v) ∈ attributes element)
  /\ (forall k v,
      NoDup (attributes element).*1 -> (k, v) ∈ attributes element ->
      excluded k = false ->
      getMeaningfulAttributes element !! k = Some v)
  /\ getMeaningfulAttributes element !! "style" = None
  /\ getMeaningfulAttributes element !! "class" = None
  /\ (forall name ignored,
      ignored ∈ IGNORED_ATTRIBUTES -> JS.startsWith name ignored = true ->
      getMeaningfulAttributes element !! name = None)
  /\ JSObject.plain (getMeaningfulAttributes element).
Proof.
  assert (forall k v, getMeaningfulAttributes element !! k = Some v ->
            excluded k = false /\ (k, v) ∈ attributes element) as Hsound.
  { intros k v Hk. unfold getMeaningfulAttributes in Hk.
    apply attribute_fold_sound in Hk as [Hk|Hk]; [|done].
    by rewrite lookup_empty in Hk. }
  assert (forall k, excluded k = true ->
            getMeaningfulAttributes element !! k = None) as Hnever.
  { intros k Hex.
    destruct (getMeaningfulAttributes element !! k) as [v|] eqn:Hk; [|done].
    apply Hsound in Hk as [Hk _]. congruence. }
  split; [exact Hsound|]. split.
  { intros k v Hnd Hin Hex. by apply attribute_fold_complete. }
  split; [by apply Hnever|]. split; [by apply Hnever|]. split.
  { intros name ignored Hin Hstart. apply Hnever.
    by apply excluded_prefix with ignored. }
  by apply plainNames_plain.
Qed.

Lemma cardBefore_plainNames : plainNames cardBefore.
Proof.
  unfold plainNames. simpl.
  repeat (apply Forall_cons_2;
          [apply plainKey_intro; vm_compute; reflexivity|]).
  by apply Forall_nil.
Qed.

Lemma cardAfter_plainNames : plainNames cardAfter.
Proof.
  unfold plainNames. simpl.
  repeat (apply Forall_cons_2;
          [apply plainKey_intro; vm_compute; reflexivity|]).
  by apply Forall_nil.
Qed.

Lemma getMeaningfulAttributes_keeps_the_rest_witness :
  plainNames cardBefore
  /\ NoDup (attributes cardBefore).*1
  /\ ("disabled", "") ∈ attributes cardBefore
  /\ excluded "disabled" = false
  /\ getMeaningfulAttributes cardBefore !! "disabled" = Some "".
Proof.
  assert (NoDup (attributes cardBefore).*1) as Hnd.
  { apply (bool_decide_unpack _). vm_compute. exact I. }
  assert (("disabled", "") ∈ attributes cardBefore) as Hin.
  { apply (bool_decide_unpack _). vm_compute. exact I. }
  assert (excluded "disabled" = false) as Hex by reflexivity.
  refine (conj cardBefore_plainNames (conj Hnd (conj Hin (conj Hex _)))).
  exact (proj1 (proj2 (getMeaningfulAttributes_keeps_the_rest cardBefore
                         cardBefore_plainNames))
           "disabled" "" Hnd Hin Hex).
Defined.

(** *** Text *)

Lemma allChars_trimStart (s : string) :
  JS.allChars JS.isWhiteSpace (JS.trimStart s) = JS.allChars JS.isWhiteSpace s.
Proof.
  induction s as [|c r IH]; [done|]. simpl.
  destruct (JS.isWhiteSpace c) eqn:Hc; [done|]. simpl. by rewrite Hc.
Qed.

Lemma trimEnd_empty_iff (s : string) :
  JSText.trimEnd s = "" <-> JS.allChars JS.isWhiteSpace s = true.
Proof.
  induction s as [|c r IH]; [done|]. simpl.
  destruct (JSText.trimEnd r) as [|c' r'] eqn:Hr.
  - destruct (JS.isWhiteSpace c); simpl.
    + by rewrite <- IH.
    + done.
  - split; [done|]. intros [_ Hall]%andb_true_iff.
    apply IH in Hall. discriminate.
Qed.

Lemma trim_empty_iff (s : string) :
  JSText.trim s = "" <-> JS.allChars JS.isWhiteSpace s = true.
Proof.
  unfold JSText.trim. by rewrite trimEnd_empty_iff, allChars_trimStart.
Qed.

Lemma truthy_false_iff (s : string) : JS.truthy s = false <-> s = "".
Proof. by destruct s. Qed.

(** X4. On an element whose direct text is ASCII text, a serialized node
    has no [text] exactly when the direct text nodes of the element hold
    nothing but white space; when it has one, it is the trimmed direct text
    and it is not empty. *)
Theorem serializeNode_text_presence (element : ElementView)
    (Hascii : asciiText element) :
  (text (serializeNode element) = None
   <-> JS.allChars JS.isWhiteSpace (directText element) = true)
  /\ (forall t, text (serializeNode element) = Some t ->
                t = JSText.trim (directText element) /\ t <> "").
Proof.
  unfold serializeNode, getDirectTextContent, directText. simpl. split.
  - rewrite <- trim_empty_iff, <- truthy_false_iff.
    destruct (JS.truthy _); split; done.
  - intros t. destruct (JS.truthy _) eqn:Ht; [|done].
    intros [= <-]. split; [done|]. intros Hempty.
    apply truthy_false_iff in Hempty. congruence.
Qed.

Lemma serializeNode_text_presence_witness :
  asciiText cardAfter
  /\ text (serializeNode cardAfter) = Some "Hello world"
  /\ "Hello world" <> "".
Proof.
  assert (asciiText cardAfter) as Hascii by reflexivity.
  assert (text (serializeNode cardAfter) = Some "Hello world") as Ht
    by (vm_compute; reflexivity).
  refine (conj Hascii (conj Ht _)).
  exact (proj2 (proj2 (serializeNode_text_presence cardAfter Hascii) _ Ht)).
Defined.

Lemma serialized_text_eq (b a : ElementView) :
  text (serializeNode b) = text (serializeNode a)
  <-> getDirectTextContent b = getDirectTextContent a.
Proof.
  unfold serializeNode. simpl.
  destruct (JS.truthy (getDirectTextContent b)) eqn:Hb,
           (JS.truthy (getDirectTextContent a)) eqn:Ha.
  - split; [by intros [= ->]|by intros ->].
  - split; [done|]. intros Heq. rewrite Heq in Hb. congruence.
  - split; [done|]. intros Heq. rewrite Heq in Hb. congruence.
  - apply truthy_false_iff in Hb, Ha. split; [|done]. by rewrite Hb, Ha.
Qed.

Lemma text_change_iff (b a : ElementView) :
  negb (bool_decide (text (serializeNode b) = text (serializeNode a))) &&
  (JSText.truthyOpt (text (serializeNode b))
   || JSText.truthyOpt (text (serializeNode a))) = false
  <-> getDirectTextContent b = getDirectTextContent a.
Proof.
  rewrite <- serialized_text_eq.
  destruct (decide (text (serializeNode b) = text (serializeNode a)))
    as [Heq|Hne].
  - by rewrite bool_decide_eq_true_2.
  - rewrite bool_decide_eq_false_2 by done. split; [|done].
    intros Hfalse. exfalso. apply Hne. revert Hfalse.
    unfold serializeNode. simpl.
    destruct (JS.truthy (getDirectTextContent b)) eqn:Hb,
             (JS.truthy (getDirectTextContent a)) eqn:Ha; simpl;
      rewrite ?Hb, ?Ha; done.
Qed.

Lemma size_zero_iff (m : gmap string Change) :
  (0 <? size m)%nat = false <-> m = ∅.
Proof.
  rewrite Nat.ltb_ge, <- map_size_empty_iff. lia.
Qed.

Lemma compareAttributes_empty_iff (b a : gmap string string) :
  compareAttributes b a = ∅ <-> b = a.
Proof.
  split.
  - intros Hempty. apply map_eq. intros k.
    apply (f_equal (fun m : gmap string Change => m !! k)) in Hempty.
    rewrite compareAttributes_lookup, lookup_empty in Hempty.
    by case_decide.
  - intros ->. apply map_eq. intros k.
    by rewrite compareAttributes_lookup, lookup_empty, decide_True.
Qed.

Lemma length_zero_iff {A : Type} (l : list A) :
  (0 <? length l)%nat = false <-> l = [].
Proof. destruct l; simpl; split; done. Qed.

(** X5. On two elements whose attributes are not named like members of
    [Object.prototype] and whose direct text is ASCII text, [computeDiff]
    returns null exactly when they have the same meaningful attributes,
    class lists with the same meaningful members and the same trimmed
    direct text; in particular the diff of such an element with itself is
    null, and a different tag name alone is never reported. *)
Theorem computeDiff_null_iff (before after : ElementView)
    (Hbefore : plainNames before) (Hafter : plainNames after)
    (HbeforeText : asciiText before) (HafterText : asciiText after) :
  (computeDiff before after = None
   <-> getMeaningfulAttributes before = getMeaningfulAttributes after
       /\ sameMembers (getMeaningfulClasses before)
                      (getMeaningfulClasses after)
       /\ getDirectTextContent before = getDirectTextContent after)
  /\ computeDiff before before = None.
Proof.
  assert (forall b a,
    computeDiff b a = None
    <-> getMeaningfulAttributes b = getMeaningfulAttributes a
        /\ sameMembers (getMeaningfulClasses b) (getMeaningfulClasses a)
        /\ getDirectTextContent b = getDirectTextContent a) as Hiff.
  { intros b a.
    rewrite <- compareAttributes_empty_iff, <- compareClasses_empty_iff,
      <- text_change_iff, <- size_zero_iff, <- !length_zero_iff.
    unfold computeDiff, noChanges.
    change (node_attributes (serializeNode b))
      with (getMeaningfulAttributes b).
    change (node_attributes (serializeNode a))
      with (getMeaningfulAttributes a).
    change (classes (serializeNode b)) with (getMeaningfulClasses b).
    change (classes (serializeNode a)) with (getMeaningfulClasses a).
    cbn [changed_attributes changed_classes changed_text].
    destruct (0 <? size _)%nat,
             (0 <? length (added _))%nat,
             (0 <? length (removed _))%nat,
             (negb _ && _); simpl; split; try done; try tauto;
      intros (? & [? ?] & ?); done. }
  split; [apply Hiff|].
  apply Hiff. repeat split; done.
Qed.

Lemma computeDiff_null_iff_witness :
  computeDiff cardBefore cardBefore = None
  /\ computeDiff cardBefore cardAfter <> None.
Proof.
  assert (asciiText cardBefore) as Hb by reflexivity.
  assert (asciiText cardAfter) as Ha by reflexivity.
  split.
  - exact (proj2 (computeDiff_null_iff cardBefore cardBefore
                    cardBefore_plainNames cardBefore_plainNames Hb Hb)).
  - intros Hnone.
    apply (proj1 (computeDiff_null_iff cardBefore cardAfter
                    cardBefore_plainNames cardAfter_plainNames Hb Ha))
      in Hnone as (Hattrs & _).
    apply (f_equal (fun m : gmap string string => m !! "disabled"))
      in Hattrs.
    vm_compute in Hattrs. discriminate.
Defined.

End Serialization.
(** ** More on the style diff of dom-diff.ts *)

Section StyleDiffContents.

Import DomDiff StyleSpec.

Lemma styleDiff_fold_lookup (b a : CSSStyleDeclaration) (l : list string)
    (acc : gmap string Change) (prop : string) :
  foldl (styleDiff_step b a) acc l !! prop =
    if bool_decide (prop ∈ l) && reportable b a prop
    then Some {| from := b prop; to := a prop |}
    else acc !! prop.
Proof.
  revert acc. induction l as [|p l IH]; intros acc.
  - by rewrite bool_decide_eq_false_2 by (by intros H%elem_of_nil).
  - cbn [foldl]. rewrite IH.
    destruct (decide (prop ∈ l)) as [Hin|Hnin].
    + rewrite !bool_decide_eq_true_2; [|by apply elem_of_cons; right|done].
      simpl. destruct (reportable b a prop) eqn:Hr; [done|].
      unfold styleDiff_step. fold (reportable b a p).
      destruct (decide (p = prop)) as [->|Hne].
      * by rewrite Hr.
      * destruct (reportable b a p); [|done]. by rewrite lookup_insert_ne.
    + rewrite (bool_decide_eq_false_2 (prop ∈ l)) by done. simpl.
      unfold styleDiff_step. fold (reportable b a p).
      destruct (decide (p = prop)) as [->|Hne].
      * rewrite bool_decide_eq_true_2 by (by apply elem_of_cons; left).
        simpl. destruct (reportable b a prop); [|done].
        by rewrite lookup_insert_eq.
      * rewrite bool_decide_eq_false_2.
        2:{ rewrite elem_of_cons. naive_solver. }
        simpl. destruct (reportable b a p); [|done].
        by rewrite lookup_insert_ne.
Qed.

Lemma styleDiff_changes_lookup (b a : CSSStyleDeclaration) (prop : string) :
  foldl (styleDiff_step b a) ∅ MEANINGFUL_STYLE_PROPERTIES !! prop =
    if bool_decide (prop ∈ MEANINGFUL_STYLE_PROPERTIES) && reportable b a prop
    then Some {| from := b prop; to := a prop |}
    else None.
Proof. by rewrite styleDiff_fold_lookup, lookup_empty. Qed.

Lemma styleDiff_changes_empty_iff (b a : CSSStyleDeclaration) :
  foldl (styleDiff_step b a) ∅ MEANINGFUL_STYLE_PROPERTIES = ∅
  <-> nothingSignificant b a.
Proof.
  unfold nothingSignificant. rewrite Forall_forall. split.
  - intros Hempty prop Hin.
    apply (f_equal (fun m : gmap string Change => m !! prop)) in Hempty.
    rewrite styleDiff_changes_lookup, lookup_empty in Hempty.
    rewrite bool_decide_eq_true_2 in Hempty by done.
    by destruct (reportable b a prop).
  - intros Hnone. apply map_eq. intros prop.
    rewrite styleDiff_changes_lookup, lookup_empty.
    case_bool_decide as Hin; [|done].
    by rewrite (Hnone prop Hin).
Qed.

(** X6. [computeStyleDiff] returns null exactly when no whitelisted
    property differs significantly; otherwise it returns a diff whose
    selector is empty and whose changes are exactly the whitelisted
    properties that differ significantly, each with its before and after
    value. A property outside the whitelist is never reported. *)
Theorem computeStyleDiff_contents
    (element : Element) (beforeStyles afterStyles : CSSStyleDeclaration) :
  (computeStyleDiff element beforeStyles afterStyles = None
   <-> nothingSignificant beforeStyles afterStyles)
  /\ (forall diff,
      computeStyleDiff element beforeStyles afterStyles = Some diff ->
      selector diff = ""
      /\ forall prop,
          changes diff !! prop =
            if bool_decide (prop ∈ MEANINGFUL_STYLE_PROPERTIES)
               && reportable beforeStyles afterStyles prop
            then Some {| from := beforeStyles prop; to := afterStyles prop |}
            else None).
Proof.
  pose proof (styleDiff_changes_lookup beforeStyles afterStyles) as Hlookup.
  pose proof (styleDiff_changes_empty_iff beforeStyles afterStyles) as Hempty.
  unfold computeStyleDiff.
  generalize dependent
    (foldl (styleDiff_step beforeStyles afterStyles) ∅
       MEANINGFUL_STYLE_PROPERTIES).
  intros found Hlookup Hempty. split.
  - rewrite <- Hempty, <- map_size_empty_iff.
    destruct (Nat.eqb_spec (size found) 0); split; done.
  - intros diff. destruct (size found =? 0)%nat; [done|].
    intros [= <-]. split; [done|]. exact Hlookup.
Qed.

Lemma computeStyleDiff_contents_witness :
  exists diff,
    computeStyleDiff 0%nat (only "width" "100px") (only "width" "102px")
    = Some diff
    /\ changes diff !! "width" = Some {| from := "100px"; to := "102px" |}
    /\ changes diff !! "color" = None.
Proof.
  assert (exists diff,
            computeStyleDiff 0%nat (only "width" "100px") (only "width" "102px")
            = Some diff) as [diff Hdiff].
  { vm_compute. eauto. }
  exists diff. split; [exact Hdiff|].
  destruct (proj2 (computeStyleDiff_contents 0%nat (only "width" "100px")
                     (only "width" "102px")) diff Hdiff) as [_ Hlookup].
  split.
  - rewrite Hlookup. vm_compute. reflexivity.
  - rewrite Hlookup. vm_compute. reflexivity.
Defined.

(** *** Symmetry of the significance test *)

Lemma abs_binary_round_aux (s : bool) (m e : Z) (l : location) :
  SFabs (binary_round_aux JS.prec JS.emax s m e l)
  = SFabs (binary_round_aux JS.prec JS.emax false m e l).
Proof.
  unfold binary_round_aux.
  destruct (shr_fexp JS.prec JS.emax m e l) as [mrs' e'].
  destruct (shr_fexp JS.prec JS.emax _ e' loc_Exact) as [mrs'' e''].
  destruct (shr_m mrs'') as [|p|p]; [done| |done].
  by destruct (e'' <=? JS.emax - JS.prec)%Z.
Qed.

Lemma abs_binary_round (s : bool) (m : positive) (e : Z) :
  SFabs (binary_round JS.prec JS.emax s m e)
  = SFabs (binary_round JS.prec JS.emax false m e).
Proof.
  unfold binary_round.
  destruct (shl_align m e _) as [mz ez]. apply abs_binary_round_aux.
Qed.

Lemma abs_binary_normalize_opp (m e : Z) :
  SFabs (binary_normalize JS.prec JS.emax (- m) e false)
  = SFabs (binary_normalize JS.prec JS.emax m e false).
Proof.
  destruct m as [|p|p]; simpl; [done| |].
  - apply abs_binary_round.
  - symmetry. apply abs_binary_round.
Qed.

Lemma abs_sub_comm (x y : JS.number) :
  JS.abs (JS.sub x y) = JS.abs (JS.sub y x).
Proof.
  unfold JS.abs, JS.sub.
  destruct x as [sx|sx| |sx mx ex], y as [sy|sy| |sy my ey].
  16:{ unfold SFsub. rewrite (Z.min_comm ey ex).
       rewrite <- abs_binary_normalize_opp. f_equal. f_equal. lia. }
  all: try reflexivity.
  all: try (destruct sx, sy; reflexivity).
  all: try (destruct sx; reflexivity).
  all: destruct sy; reflexivity.
Qed.

Lemma isSignificantChange_comm (property from to : string) :
  isSignificantChange property from to = isSignificantChange property to from.
Proof.
  unfold isSignificantChange.
  rewrite (andb_comm (negb (JS.truthy from))).
  rewrite (andb_comm (negb (JS.isNaN (JS.parseFloat from)))).
  by rewrite (abs_sub_comm (JS.parseFloat to)).
Qed.

(** X7. Significance does not depend on the direction of a change: going
    from one value to another is significant exactly when going back is.
    With both values empty nothing is significant, and for a property that
    is neither a position or size nor opacity every other change is. *)
Theorem isSignificantChange_symmetric :
  (forall property from to,
      isSignificantChange property from to
      = isSignificantChange property to from)
  /\ (forall property, isSignificantChange property "" "" = false)
  /\ (forall property from to,
      property ∉ NUMERIC_PROPERTIES -> property <> "opacity" ->
      isSignificantChange property from to
      = JS.truthy from || JS.truthy to).
Proof.
  split; [exact isSignificantChange_comm|]. split; [done|].
  intros property from to Hnum Hop. unfold isSignificantChange.
  assert (existsb (String.eqb property) NUMERIC_PROPERTIES = false) as ->.
  { destruct (existsb _ _) eqn:Hex; [|done].
    apply existsb_exists in Hex as (p & Hin & Heq).
    apply String.eqb_eq in Heq as <-.
    exfalso. by apply Hnum, list_elem_of_In. }
  assert (String.eqb property "opacity" = false) as ->
    by by apply String.eqb_neq.
  by destruct (JS.truthy from), (JS.truthy to).
Qed.

Lemma isSignificantChange_symmetric_witness :
  ("transform" ∉ DomDiff.NUMERIC_PROPERTIES) /\ "transform" <> "opacity"
  /\ isSignificantChange "transform" "none" "scale(2)" = true.
Proof.
  assert ("transform" ∉ DomDiff.NUMERIC_PROPERTIES) as Hnum.
  { apply (bool_decide_unpack _). vm_compute. exact I. }
  assert ("transform" <> "opacity") as Hop by discriminate.
  refine (conj Hnum (conj Hop _)).
  rewrite (proj2 (proj2 isSignificantChange_symmetric) _ "none" "scale(2)"
             Hnum Hop).
  reflexivity.
Defined.

End StyleDiffContents.
(** ** More on the selector engine *)

Section SelectorTiers.

Import Selectors SelectorSpec.

(** *** The structural path *)

Lemma structuralLoop_visited doc fuel current path :
  structuralLoop doc fuel current path
  = map (levelSelector doc) (rev (visited doc fuel current)) ++ path.
Proof.
  revert current path. induction fuel as [|fuel IH]; intros current path.
  - by destruct current.
  - simpl. destruct current as [cur|]; [|done].
    destruct (cur =? documentElement doc)%nat; [done|].
    rewrite IH. simpl. rewrite map_app. simpl. by rewrite <- app_assoc.
Qed.

Lemma visited_length doc fuel current :
  (length (visited doc fuel current) <= fuel)%nat.
Proof.
  revert current. induction fuel as [|fuel IH]; intros current.
  - by destruct current.
  - destruct current as [cur|]; simpl; [|lia].
    destruct (cur =? documentElement doc)%nat; simpl; [lia|].
    specialize (IH (parentElement (element doc cur))). lia.
Qed.

Lemma visited_not_root doc fuel current :
  documentElement doc ∉ visited doc fuel current.
Proof.
  revert current. induction fuel as [|fuel IH]; intros current.
  - destruct current; by intros H%elem_of_nil.
  - simpl. destruct current as [cur|]; [|by intros H%elem_of_nil].
    destruct (Nat.eqb_spec cur (documentElement doc)) as [|Hne];
      [by intros H%elem_of_nil|].
    intros [Heq|Hin]%elem_of_cons; [done|]. by apply IH in Hin.
Qed.

(** X8. The structural path is the join of one level selector per visited
    element, outermost first and the element itself last; the walk visits
    at most [maxDepth] elements and never the document root. *)
Theorem getStructuralPath_levels
    (doc : Document) (this : StableSelectorEngine) (e : Element) :
  getStructuralPath doc this e
  = JS.join " > "
      (map (levelSelector doc) (rev (visited doc (maxDepth this) (Some e))))
  /\ (length (visited doc (maxDepth this) (Some e)) <= maxDepth this)%nat
  /\ documentElement doc ∉ visited doc (maxDepth this) (Some e).
Proof.
  split; [|split].
  - unfold getStructuralPath. by rewrite structuralLoop_visited, app_nil_r.
  - apply visited_length.
  - apply visited_not_root.
Qed.

(** *** The index of nth-of-type *)

Lemma indexOfFrom_found (l : list nat) (x : nat) (i : Z) :
  x ∈ l -> (i <= JS.indexOfFrom i x l < i + Z.of_nat (length l))%Z.
Proof.
  revert i. induction l as [|y l IH]; intros i Hin.
  - by apply elem_of_nil in Hin.
  - simpl. destruct (Nat.eqb_spec y x) as [->|Hne]; [lia|].
    apply elem_of_cons in Hin as [->|Hin]; [done|].
    specialize (IH (i + 1)%Z Hin). lia.
Qed.

Lemma indexOfFrom_absent (l : list nat) (x : nat) (i : Z) :
  x ∉ l -> JS.indexOfFrom i x l = (-1)%Z.
Proof.
  revert i. induction l as [|y l IH]; intros i Hnin; [done|].
  simpl. destruct (Nat.eqb_spec y x) as [->|Hne].
  - exfalso. apply Hnin. by apply elem_of_cons; left.
  - apply IH. intros Hin. apply Hnin. by apply elem_of_cons; right.
Qed.

(** X9. For an element listed among the children of its parent, with at
    least one sibling of the same tag, the level selector is the tag
    followed by an nth-of-type index between 1 and the number of same-tag
    siblings. *)
Theorem levelSelector_index_in_range
    (doc : Document) (current parent : Element)
    (Hparent : parentElement (element doc current) = Some parent)
    (Hchild : current ∈ children (element doc parent))
    (Hsame : (1 < length (sameTypeSiblings doc parent current))%nat) :
  exists index : Z,
    levelSelector doc current
    = tag doc current +:+ ":nth-of-type(" +:+ pretty index +:+ ")"
    /\ (1 <= index <= Z.of_nat (length (sameTypeSiblings doc parent current)))%Z.
Proof.
  assert (current ∈ sameTypeSiblings doc parent current) as Hin.
  { unfold sameTypeSiblings. apply list_elem_of_In, filter_In.
    split; [by apply list_elem_of_In|]. apply String.eqb_refl. }
  exists (JS.indexOf (sameTypeSiblings doc parent current) current + 1)%Z.
  split.
  - unfold levelSelector. rewrite Hparent.
    fold (sameTypeSiblings doc parent current).
    assert ((1 <? length (children (element doc parent)))%nat = true) as ->.
    { apply Nat.ltb_lt. unfold sameTypeSiblings in Hsame.
      eapply Nat.lt_le_trans; [exact Hsame|]. apply filter_length_le. }
    by apply Nat.ltb_lt in Hsame as ->.
  - unfold JS.indexOf.
    pose proof (indexOfFrom_found _ _ 0%Z Hin) as Hfound.
    unfold Element in *. lia.
Qed.

Lemma levelSelector_index_in_range_witness :
  exists index : Z,
    levelSelector toolbar 12
    = tag toolbar 12 +:+ ":nth-of-type(" +:+ pretty index +:+ ")"
    /\ (1 <= index <= 3)%Z.
Proof.
  assert (parentElement (element toolbar 12) = Some 10%nat) as Hp
    by reflexivity.
  assert (12%nat ∈ children (element toolbar 10)) as Hc.
  { apply (bool_decide_unpack _). vm_compute. exact I. }
  assert (1 < length (sameTypeSiblings toolbar 10 12))%nat as Hs.
  { vm_compute. lia. }
  exact (levelSelector_index_in_range toolbar 12 10 Hp Hc Hs).
Defined.

(** *** The attribute tier *)

Lemma stripPrefix_Some (p s r : string) :
  JS.stripPrefix p s = Some r <-> s = p +:+ r.
Proof.
  revert s. induction p as [|a p IH]; intros s; simpl.
  - split; [by intros [= ->]|by intros ->].
  - destruct s as [|b s]; [split; done|].
    destruct (Ascii.eqb_spec a b) as [->|Hne].
    + rewrite IH. split; [by intros ->|by intros [= ->]].
    + split; [done|]. intros [= Heq _]. by symmetry in Heq.
Qed.

(** X10. [cleanAttributeValue] removes at most one leading framework
    prefix: the value is the result preceded by nothing or by one of
    react-, vue-, ng-, svelte-, and a value that starts with none of them
    is returned unchanged. A second prefix is kept. *)
Theorem cleanAttributeValue_strips_one_prefix (value : string) :
  (exists prefix,
      prefix ∈ "" :: FRAMEWORK_PREFIXES
      /\ value = prefix +:+ cleanAttributeValue value)
  /\ ((forall prefix, prefix ∈ FRAMEWORK_PREFIXES ->
                      JS.startsWith value prefix = false) ->
      cleanAttributeValue value = value)
  /\ cleanAttributeValue ("react-" +:+ "vue-" +:+ value) = "vue-" +:+ value.
Proof.
  split; [|split].
  - unfold cleanAttributeValue, FRAMEWORK_PREFIXES.
    destruct (JS.stripPrefix "react-" value) as [r|] eqn:H1.
    { exists "react-". split; [set_solver|]. by apply stripPrefix_Some. }
    destruct (JS.stripPrefix "vue-" value) as [r|] eqn:H2.
    { exists "vue-". split; [set_solver|]. by apply stripPrefix_Some. }
    destruct (JS.stripPrefix "ng-" value) as [r|] eqn:H3.
    { exists "ng-". split; [set_solver|]. by apply stripPrefix_Some. }
    destruct (JS.stripPrefix "svelte-" value) as [r|] eqn:H4.
    { exists "svelte-". split; [set_solver|]. by apply stripPrefix_Some. }
    exists "". split; [set_solver|done].
  - intros Hnone. unfold cleanAttributeValue.
    assert (forall prefix, prefix ∈ FRAMEWORK_PREFIXES ->
              JS.stripPrefix prefix value = None) as Hstrip.
    { intros prefix Hin. specialize (Hnone prefix Hin).
      unfold JS.startsWith in Hnone.
      by destruct (JS.stripPrefix prefix value). }
    rewrite !Hstrip; [done| | | |]; unfold FRAMEWORK_PREFIXES; set_solver.
  - reflexivity.
Qed.

Lemma cleanAttributeValue_strips_one_prefix_witness :
  (forall prefix, prefix ∈ FRAMEWORK_PREFIXES ->
                  JS.startsWith "submit-button" prefix = false)
  /\ cleanAttributeValue "submit-button" = "submit-button".
Proof.
  assert (forall prefix, prefix ∈ FRAMEWORK_PREFIXES ->
            JS.startsWith "submit-button" prefix = false) as Hnone.
  { intros prefix Hin. unfold FRAMEWORK_PREFIXES in Hin.
    repeat (apply elem_of_cons in Hin as [->|Hin]; [reflexivity|]).
    by apply elem_of_nil in Hin. }
  split; [exact Hnone|].
  exact (proj1 (proj2 (cleanAttributeValue_strips_one_prefix "submit-button"))
           Hnone).
Defined.

Lemma attributeSelectorFrom_step doc e attr rest :
  attributeSelectorFrom doc e (attr :: rest)
  = if usable doc e attr
    then match attributeMap (element doc e) !! attr with
         | Some value => Some (attributeSelectorOf doc e attr value)
         | None => None
         end
    else attributeSelectorFrom doc e rest.
Proof.
  unfold usable. simpl.
  destruct (attributeMap (element doc e) !! attr) as [value|]; [|done].
  by destruct (JS.truthy value && JS.truthy (cleanAttributeValue value)).
Qed.

Lemma attributeSelectorFrom_None doc e attrs :
  attributeSelectorFrom doc e attrs = None
  <-> forall attr, attr ∈ attrs -> usable doc e attr = false.
Proof.
  induction attrs as [|attr rest IH].
  - split; [|done]. intros _ attr Hin. by apply elem_of_nil in Hin.
  - rewrite attributeSelectorFrom_step.
    destruct (usable doc e attr) eqn:Hu.
    + split.
      * unfold usable in Hu.
        by destruct (attributeMap (element doc e) !! attr).
      * intros H. specialize (H attr). rewrite Hu in H.
        discriminate H. by apply elem_of_cons; left.
    + rewrite IH. split.
      * intros H a [->|Hin]%elem_of_cons; [done|]. by apply H.
      * intros H a Hin. apply H. by apply elem_of_cons; right.
Qed.

Lemma attributeSelectorFrom_Some doc e attrs s :
  attributeSelectorFrom doc e attrs = Some s ->
  exists skipped attr rest value,
    attrs = skipped ++ attr :: rest
    /\ (forall a, a ∈ skipped -> usable doc e a = false)
    /\ attributeMap (element doc e) !! attr = Some value
    /\ usable doc e attr = true
    /\ s = attributeSelectorOf doc e attr value.
Proof.
  induction attrs as [|attr rest IH]; [done|].
  rewrite attributeSelectorFrom_step.
  destruct (usable doc e attr) eqn:Hu.
  - destruct (attributeMap (element doc e) !! attr) as [value|] eqn:Hv; [|done].
    intros [= <-]. exists [], attr, rest, value.
    repeat split; try done. intros a Ha. by apply elem_of_nil in Ha.
  - intros Hs. destruct (IH Hs) as (sk & a & r & v & -> & Hsk & Hv & Hua & ->).
    exists (attr :: sk), a, r, v. repeat split; try done.
    intros a' [->|Hin]%elem_of_cons; [done|]. by apply Hsk.
Qed.

(** X11. [getAttributeSelector] follows the preference order: it returns
    null exactly when no preferred attribute is usable, and otherwise the
    selector [tag[attr="value"]] built from the first usable preferred
    attribute and its cleaned value. *)
Theorem getAttributeSelector_first_usable
    (doc : Document) (this : StableSelectorEngine) (e : Element) :
  (getAttributeSelector doc this e = None
   <-> forall attr, attr ∈ preferredAttributes this ->
                    usable doc e attr = false)
  /\ (forall s,
      getAttributeSelector doc this e = Some s ->
      exists skipped attr rest value,
        preferredAttributes this = skipped ++ attr :: rest
        /\ (forall a, a ∈ skipped -> usable doc e a = false)
        /\ attributeMap (element doc e) !! attr = Some value
        /\ usable doc e attr = true
        /\ s = attributeSelectorOf doc e attr value).
Proof.
  split.
  - apply attributeSelectorFrom_None.
  - intros s. apply attributeSelectorFrom_Some.
Qed.

Lemma getAttributeSelector_first_usable_witness :
  exists skipped attr rest value,
    preferredAttributes (construct noOptions) = skipped ++ attr :: rest
    /\ attributeMap (element SelectorExamples.page 3) !! attr = Some value
    /\ SelectorExamples.buttonById
       = attributeSelectorOf SelectorExamples.page 3 attr value.
Proof.
  assert (getAttributeSelector SelectorExamples.page (construct noOptions) 3
          = Some SelectorExamples.buttonById) as Hs
    by (vm_compute; reflexivity).
  destruct (proj2 (getAttributeSelector_first_usable SelectorExamples.page
                     (construct noOptions) 3) _ Hs)
    as (sk & attr & rest & value & Hp & _ & Hv & _ & Heq).
  exists sk, attr, rest, value. by repeat split.
Defined.

(** *** The class tier *)

Lemma firstUniqueClass_Some doc e classes s :
  firstUniqueClass doc e classes = Some s ->
  isUnique doc e s = true
  /\ exists cls, cls ∈ classes /\ s = tag doc e +:+ "." +:+ cls.
Proof.
  induction classes as [|cls rest IH]; [done|]. simpl.
  destruct (isUnique doc e (tag doc e +:+ "." +:+ cls)) eqn:Hu.
  - intros [= <-]. split; [done|]. exists cls. split; [|done].
    by apply elem_of_cons; left.
  - intros Hs. destruct (IH Hs) as (Hus & c & Hc & ->).
    split; [done|]. exists c. split; [|done]. by apply elem_of_cons; right.
Qed.

Lemma firstUniqueClass_first doc e classes s :
  firstUniqueClass doc e classes = Some s <->
  exists skipped cls rest,
    classes = skipped ++ cls :: rest
    /\ (forall c, c ∈ skipped ->
           isUnique doc e (tag doc e +:+ "." +:+ c) = false)
    /\ isUnique doc e (tag doc e +:+ "." +:+ cls) = true
    /\ s = tag doc e +:+ "." +:+ cls.
Proof.
  induction classes as [|c l IH]; simpl.
  - split; [done|]. intros (skipped & cls & rest & Hnil & _).
    by destruct skipped.
  - destruct (isUnique doc e (tag doc e +:+ "." +:+ c)) eqn:Hu.
    + split.
      * intros [= <-]. exists [], c, l. repeat split; try done.
        by intros x Hx%elem_of_nil.
      * intros (skipped & cls & rest & Heq & Hskipped & Hcls & ->).
        destruct skipped as [|x skipped]; simpl in Heq.
        -- by simplify_eq.
        -- simplify_eq.
           rewrite Hskipped in Hu by (by apply elem_of_cons; left). done.
    + rewrite IH. split.
      * intros (skipped & cls & rest & -> & Hskipped & Hcls & ->).
        exists (c :: skipped), cls, rest. repeat split; try done.
        intros x [->|Hx]%elem_of_cons; [done|by apply Hskipped].
      * intros (skipped & cls & rest & Heq & Hskipped & Hcls & ->).
        destruct skipped as [|x skipped]; simpl in Heq.
        -- simplify_eq. congruence.
        -- simplify_eq. exists skipped, cls, rest.
           repeat split; try done.
           intros y Hy. apply Hskipped. by apply elem_of_cons; right.
Qed.

Lemma firstUniqueClass_None doc e classes :
  firstUniqueClass doc e classes = None <->
  forall c, c ∈ classes -> isUnique doc e (tag doc e +:+ "." +:+ c) = false.
Proof.
  induction classes as [|c l IH]; simpl.
  - split; [|done]. by intros _ x Hx%elem_of_nil.
  - destruct (isUnique doc e (tag doc e +:+ "." +:+ c)) eqn:Hu.
    + split; [done|]. intros Hall.
      rewrite Hall in Hu by (by apply elem_of_cons; left). done.
    + rewrite IH. split.
      * intros Hall x [->|Hx]%elem_of_cons; [done|by apply Hall].
      * intros Hall x Hx. apply Hall. by apply elem_of_cons; right.
Qed.

(** X12. [getClassSelector] returns the tag followed by the first
    meaningful class of the element, in class-list order, whose one-class
    selector is unique; when no one-class selector is unique and the
    element has at least two meaningful classes, it returns the tag
    followed by all of them joined by dots, provided that selector is
    unique; it returns nothing else. A returned selector has therefore
    passed the uniqueness check, and [generate] reaches the structural tier
    exactly when the attribute tier fails and [getClassSelector] returns
    null. *)
Theorem getClassSelector_is_unique
    (doc : Document) (this : StableSelectorEngine) (e : Element) :
  (forall s,
      getClassSelector doc this e = Some s <->
      (exists skipped cls rest,
          meaningfulClasses doc this e = skipped ++ cls :: rest
          /\ (forall c, c ∈ skipped ->
                 isUnique doc e (tag doc e +:+ "." +:+ c) = false)
          /\ isUnique doc e (tag doc e +:+ "." +:+ cls) = true
          /\ s = tag doc e +:+ "." +:+ cls)
      \/ ((forall c, c ∈ meaningfulClasses doc this e ->
              isUnique doc e (tag doc e +:+ "." +:+ c) = false)
          /\ (1 < length (meaningfulClasses doc this e))%nat
          /\ isUnique doc e
               (tag doc e +:+ "."
                  +:+ JS.join "." (meaningfulClasses doc this e)) = true
          /\ s = tag doc e +:+ "."
                   +:+ JS.join "." (meaningfulClasses doc this e)))
  /\ (forall s,
      getClassSelector doc this e = Some s ->
      querySelectorAll doc s = Some [e])
  /\ (tierOf doc this e = StructuralTier
      <-> attributeTierAccepts doc this e = false
          /\ getClassSelector doc this e = None).
Proof.
  assert (forall s,
    getClassSelector doc this e = Some s <->
    (exists skipped cls rest,
        meaningfulClasses doc this e = skipped ++ cls :: rest
        /\ (forall c, c ∈ skipped ->
               isUnique doc e (tag doc e +:+ "." +:+ c) = false)
        /\ isUnique doc e (tag doc e +:+ "." +:+ cls) = true
        /\ s = tag doc e +:+ "." +:+ cls)
    \/ ((forall c, c ∈ meaningfulClasses doc this e ->
            isUnique doc e (tag doc e +:+ "." +:+ c) = false)
        /\ (1 < length (meaningfulClasses doc this e))%nat
        /\ isUnique doc e
             (tag doc e +:+ "."
                +:+ JS.join "." (meaningfulClasses doc this e)) = true
        /\ s = tag doc e +:+ "."
                 +:+ JS.join "." (meaningfulClasses doc this e))) as Hchar.
  { intros s. unfold getClassSelector, meaningfulClasses.
    destruct (List.filter (isMeaningfulClass this) (classList (element doc e)))
      as [|c cs] eqn:Hfilter.
    - split; [done|]. intros [(skipped & cls & rest & Hnil & _)|(_ & Hlen & _)].
      + by destruct skipped.
      + simpl in Hlen. lia.
    - destruct (firstUniqueClass doc e (c :: cs)) as [u|] eqn:Hu.
      + split.
        * intros [= <-]. left. by apply firstUniqueClass_first.
        * intros [Hfirst|(Hnone & _)].
          -- apply firstUniqueClass_first in Hfirst. congruence.
          -- apply firstUniqueClass_None in Hnone. congruence.
      + pose proof (proj1 (firstUniqueClass_None doc e (c :: cs)) Hu) as Hnone.
        split.
        * destruct (1 <? length (c :: cs))%nat eqn:Hlen; [|done].
          destruct (isUnique doc e _) eqn:Hall; [|done]. intros [= <-].
          right. apply Nat.ltb_lt in Hlen. by repeat split.
        * intros [Hfirst|(_ & Hlen & Hall & ->)].
          -- apply firstUniqueClass_first in Hfirst. congruence.
          -- apply Nat.ltb_lt in Hlen. by rewrite Hlen, Hall. }
  assert (forall s, getClassSelector doc this e = Some s ->
            isUnique doc e s = true) as Hunique.
  { intros s Hs. apply Hchar in Hs
      as [(skipped & cls & rest & _ & _ & Hu & ->)|(_ & _ & Hu & ->)];
      done. }
  split; [exact Hchar|]. split.
  - intros s Hs. by apply isUnique_spec, Hunique.
  - unfold tierOf, classTierAccepts.
    destruct (attributeTierAccepts doc this e); [split; [done|by intros [? _]]|].
    destruct (getClassSelector doc this e) as [s|] eqn:Hs.
    + rewrite (Hunique s eq_refl). split; [done|by intros [_ ?]].
    + split; done.
Qed.

Lemma getClassSelector_is_unique_witness :
  getClassSelector SelectorExamples.page (construct noOptions) 3
  = Some "button.cta"
  /\ querySelectorAll SelectorExamples.page "button.cta" = Some [3%nat].
Proof.
  assert (getClassSelector SelectorExamples.page (construct noOptions) 3
          = Some "button.cta") as Hs by (vm_compute; reflexivity).
  split; [exact Hs|].
  exact (proj1 (proj2 (getClassSelector_is_unique SelectorExamples.page
                         (construct noOptions) 3)) _ Hs).
Defined.

End SelectorTiers.
(** ** The inline selector engine against selectors.ts *)

Section InlineEngine.

Import Selectors InlineSpec.

Lemma existsb_false_sub {A : Type} (f : A -> bool) (l1 l2 : list A) :
  (forall x, x ∈ l2 -> x ∈ l1) ->
  existsb f l1 = false -> existsb f l2 = false.
Proof.
  intros Hsub Hfalse.
  destruct (existsb f l2) eqn:Hex; [|done].
  apply existsb_exists in Hex as (x & Hin & Hx).
  assert (existsb f l1 = true) as Htrue; [|congruence].
  apply existsb_exists. exists x. split; [|done].
  by apply list_elem_of_In, Hsub, list_elem_of_In.
Qed.

(** X13. A class that the default selector engine finds meaningful is also
    kept by [serializeNode] of dom-diff.ts and by the inline engine: it has
    at least three characters, is not numeric and not hash-like. The
    classes of a class-tier selector are therefore always among the
    serialized classes of the element. *)
Theorem meaningful_class_is_kept_everywhere (cls : string)
    (Hmeaningful : isMeaningfulClass (construct noOptions) cls = true) :
  DomDiffStructure.keepsClass cls = true
  /\ InlineSelectors.keepsClass cls = true
  /\ (3 <= String.length cls)%nat
  /\ isNumeric cls = false
  /\ isHashClass cls = false.
Proof.
  unfold isMeaningfulClass in Hmeaningful.
  change (ignoreAttributes (construct noOptions))
    with DEFAULT_IGNORED_ATTRIBUTES in Hmeaningful.
  destruct (existsb (fun pattern => JS.includes cls pattern)
              DEFAULT_IGNORED_ATTRIBUTES) eqn:Hignored; [done|].
  destruct (isHashClass cls) eqn:Hhash; [done|].
  destruct ((String.length cls <? 3)%nat || isNumeric cls) eqn:Hshort; [done|].
  apply orb_false_iff in Hshort as [Hlen Hnum].
  apply Nat.ltb_ge in Hlen.
  split; [|split; [|by repeat split]].
  - unfold DomDiffStructure.keepsClass.
    rewrite (existsb_false_sub _ DEFAULT_IGNORED_ATTRIBUTES
               DomDiffStructure.IGNORED_ATTRIBUTES); [by rewrite Hhash| |done].
    unfold DEFAULT_IGNORED_ATTRIBUTES, DomDiffStructure.IGNORED_ATTRIBUTES.
    set_solver.
  - unfold InlineSelectors.keepsClass.
    rewrite (existsb_false_sub _ DEFAULT_IGNORED_ATTRIBUTES
               InlineSelectors.ignoredAttrs); [| |done].
    + apply Nat.leb_le in Hlen. by rewrite Hhash, Hlen.
    + unfold DEFAULT_IGNORED_ATTRIBUTES, InlineSelectors.ignoredAttrs.
      set_solver.
Qed.

Lemma meaningful_class_is_kept_everywhere_witness :
  isMeaningfulClass (construct noOptions) "cta" = true
  /\ DomDiffStructure.keepsClass "cta" = true.
Proof.
  assert (isMeaningfulClass (construct noOptions) "cta" = true) as Hm
    by reflexivity.
  split; [exact Hm|].
  exact (proj1 (meaningful_class_is_kept_everywhere "cta" Hm)).
Defined.

Lemma inline_levelSelector doc (e : Element) :
  InlineSelectors.levelSelector doc e = levelSelector doc e.
Proof. reflexivity. Qed.

Lemma inline_structuralLoop doc fuel current path :
  InlineSelectors.structuralLoop doc fuel current path
  = structuralLoop doc fuel current path.
Proof.
  revert current path. induction fuel as [|fuel IH]; intros current path;
    [done|].
  simpl. destruct current as [cur|]; [|done].
  destruct (cur =? documentElement doc)%nat; [done|].
  by rewrite IH, inline_levelSelector.
Qed.

Lemma inline_getStructuralPath doc options (e : Element) :
  opt_maxDepth options = None \/ opt_maxDepth options = Some 0%nat
  \/ opt_maxDepth options = Some 5%nat ->
  InlineSelectors.getStructuralPath doc e
  = getStructuralPath doc (construct options) e.
Proof.
  intros Hdepth.
  unfold InlineSelectors.getStructuralPath, getStructuralPath.
  rewrite inline_structuralLoop.
  assert (maxDepth (construct options) = 5%nat) as ->; [|done].
  unfold construct. simpl. by destruct Hdepth as [->|[->| ->]].
Qed.

(** X14. The structural path computed in the page is the one of
    selectors.ts for an engine whose depth bound is the default (no
    [maxDepth], 0 or 5), whatever its other options. *)
Theorem inline_structural_path_agrees
    (doc : Document) (options : SelectorOptions) (e : Element)
    (Hdepth : opt_maxDepth options = None
              \/ opt_maxDepth options = Some 0%nat
              \/ opt_maxDepth options = Some 5%nat) :
  InlineSelectors.getStructuralPath doc e
  = getStructuralPath doc (construct options) e.
Proof. by apply inline_getStructuralPath. Qed.

Lemma inline_structural_path_agrees_witness :
  InlineSelectors.getStructuralPath SelectorSpec.toolbar 12
  = getStructuralPath SelectorSpec.toolbar (construct noOptions) 12.
Proof.
  exact (inline_structural_path_agrees SelectorSpec.toolbar noOptions 12
           (or_introl eq_refl)).
Defined.

Lemma attributeSelectorFrom_app doc (e : Element) (l1 l2 : list string) :
  attributeSelectorFrom doc e (l1 ++ l2)
  = match attributeSelectorFrom doc e l1 with
    | Some s => Some s
    | None => attributeSelectorFrom doc e l2
    end.
Proof.
  induction l1 as [|attr l1 IH]; [done|]. simpl.
  destruct (attributeMap (element doc e) !! attr) as [value|]; [|done].
  by destruct (JS.truthy value && JS.truthy (cleanAttributeValue value)).
Qed.

Lemma inline_attributeSelectorFrom doc (e : Element) (attrs : list string) :
  (forall attr value,
      attr ∈ attrs -> attributeMap (element doc e) !! attr = Some value ->
      cleanAttributeValue value = value) ->
  InlineSelectors.attributeSelectorFrom doc e attrs
  = attributeSelectorFrom doc e attrs.
Proof.
  induction attrs as [|attr rest IH]; intros Hplain; [done|]. simpl.
  rewrite IH.
  2:{ intros a v Ha Hv. apply (Hplain a v); [|done].
      by apply elem_of_cons; right. }
  destruct (attributeMap (element doc e) !! attr) as [value|] eqn:Hv; [|done].
  rewrite (Hplain attr value); [|by apply elem_of_cons; left|done].
  by destruct (JS.truthy value).
Qed.

Lemma inline_getAttributeSelector doc (e : Element) :
  plainAttributes doc e -> noLinkAttributes doc e ->
  InlineSelectors.getAttributeSelector doc e
  = getAttributeSelector doc (construct noOptions) e.
Proof.
  intros Hplain [Hhref Hfor].
  unfold InlineSelectors.getAttributeSelector, getAttributeSelector.
  change (preferredAttributes (construct noOptions))
    with (InlineSelectors.preferredAttrs ++ ["href"; "for"]).
  rewrite attributeSelectorFrom_app, inline_attributeSelectorFrom by done.
  destruct (attributeSelectorFrom doc e InlineSelectors.preferredAttrs);
    [done|].
  symmetry. apply attributeSelectorFrom_None.
  intros attr Hin.
  apply elem_of_cons in Hin as [->|Hin]; [done|].
  apply elem_of_cons in Hin as [->|Hin]; [done|].
  by apply elem_of_nil in Hin.
Qed.

Lemma inline_keepsClass (cls : string) :
  isNumeric cls = false ->
  JS.includes cls "data-emotion-" = false ->
  JS.includes cls "data-styled-" = false ->
  JS.includes cls "ng-reflect-" = false ->
  InlineSelectors.keepsClass cls = isMeaningfulClass (construct noOptions) cls.
Proof.
  intros Hnum He Hs Hn.
  unfold InlineSelectors.keepsClass, isMeaningfulClass.
  change (ignoreAttributes (construct noOptions))
    with DEFAULT_IGNORED_ATTRIBUTES.
  unfold DEFAULT_IGNORED_ATTRIBUTES, InlineSelectors.ignoredAttrs.
  cbn [existsb]. rewrite He, Hs, Hn, Hnum.
  rewrite (Nat.leb_antisym (String.length cls) 3).
  destruct (JS.includes cls "data-reactid"),
           (JS.includes cls "data-react-checksum"),
           (JS.includes cls "data-v-"),
           (JS.includes cls "data-svelte-"),
           (JS.includes cls "_ngcontent-"),
           (JS.includes cls "_nghost-"),
           (isHashClass cls),
           (String.length cls <? 3)%nat; reflexivity.
Qed.

Lemma inline_firstUniqueClass doc (e : Element) (classes : list string) :
  InlineSelectors.firstUniqueClass doc e classes
  = firstUniqueClass doc e classes.
Proof. induction classes as [|cls rest IH]; [done|]. simpl. by rewrite IH. Qed.

Lemma inline_getClassSelector doc (e : Element) :
  plainClasses doc e ->
  InlineSelectors.getClassSelector doc e
  = getClassSelector doc (construct noOptions) e.
Proof.
  intros Hplain.
  unfold InlineSelectors.getClassSelector, getClassSelector.
  assert (List.filter InlineSelectors.keepsClass (classList (element doc e))
          = List.filter (isMeaningfulClass (construct noOptions))
              (classList (element doc e))) as ->.
  { apply filter_ext_in. intros cls Hin.
    apply list_elem_of_In, Hplain in Hin as (Hnum & He & Hs & Hn).
    by apply inline_keepsClass. }
  destruct (List.filter _ _) as [|c cs]; [done|].
  by rewrite inline_firstUniqueClass.
Qed.

(** X15. On an element whose preferred attribute values carry no framework
    prefix, that has no usable [href] or [for], and whose classes are not
    numeric and contain none of data-emotion-, data-styled-, ng-reflect-,
    the engine injected into the page generates the same selector as the
    default engine of selectors.ts. *)
Theorem inline_generate_agrees (doc : Document) (e : Element)
    (Hattributes : plainAttributes doc e)
    (Hlinks : noLinkAttributes doc e)
    (Hclasses : plainClasses doc e) :
  InlineSelectors.generate doc e = generate doc (construct noOptions) e.
Proof.
  unfold InlineSelectors.generate, generate.
  rewrite inline_getAttributeSelector, inline_getClassSelector by done.
  rewrite (inline_getStructuralPath doc noOptions e) by (by left).
  reflexivity.
Qed.

Lemma examplePage_button_plain :
  plainAttributes SelectorExamples.page 3
  /\ noLinkAttributes SelectorExamples.page 3
  /\ plainClasses SelectorExamples.page 3.
Proof.
  split; [|split].
  - intros attr value Hin Hv. unfold InlineSelectors.preferredAttrs in Hin.
    repeat (apply elem_of_cons in Hin as [->|Hin];
            [vm_compute in Hv; by simplify_eq|]).
    by apply elem_of_nil in Hin.
  - split; reflexivity.
  - intros cls Hin. change (cls ∈ ["cta"]) in Hin.
    apply list_elem_of_singleton in Hin as ->. repeat split; reflexivity.
Qed.

Lemma inline_generate_agrees_witness :
  InlineSelectors.generate SelectorExamples.page 3
  = generate SelectorExamples.page (construct noOptions) 3.
Proof.
  exact (inline_generate_agrees SelectorExamples.page 3
           (proj1 examplePage_button_plain)
           (proj1 (proj2 examplePage_button_plain))
           (proj2 (proj2 examplePage_button_plain))).
Defined.

End InlineEngine.
(** ** More on profile extraction *)

Section CapturedStyles.

Import TraceWriter TraceSpec ProfileSpec InlineSpec.

Lemma capture_fold_lookup (c : DomDiff.CSSStyleDeclaration) (l : list string)
    (acc : gmap string string) (k : string) :
  foldl (Capture.capture_step c) acc l !! k =
    if bool_decide (k ∈ l) && JS.truthy (c k) then Some (c k) else acc !! k.
Proof.
  revert acc. induction l as [|p l IH]; intros acc.
  - by rewrite bool_decide_eq_false_2 by (by intros H%elem_of_nil).
  - cbn [foldl]. rewrite IH. unfold Capture.capture_step.
    destruct (decide (k ∈ l)) as [Hin|Hnin].
    + rewrite !bool_decide_eq_true_2; [|by apply elem_of_cons; right|done].
      simpl. destruct (JS.truthy (c k)) eqn:Hk; [done|].
      destruct (decide (p = k)) as [->|Hne]; [by rewrite Hk|].
      destruct (JS.truthy (c p)); [|done]. by rewrite lookup_insert_ne.
    + rewrite (bool_decide_eq_false_2 (k ∈ l)) by done. simpl.
      destruct (decide (p = k)) as [->|Hne].
      * rewrite bool_decide_eq_true_2 by (by apply elem_of_cons; left).
        simpl. destruct (JS.truthy (c k)); [|done].
        by rewrite lookup_insert_eq.
      * rewrite bool_decide_eq_false_2.
        2:{ rewrite elem_of_cons. naive_solver. }
        simpl. destruct (JS.truthy (c p)); [|done].
        by rewrite lookup_insert_ne.
Qed.

Lemma captureStyles_lookup (c : DomDiff.CSSStyleDeclaration) (k : string) :
  Capture.captureStyles (Some c) !! k =
    if bool_decide (k ∈ Capture.MEANINGFUL_STYLES) && JS.truthy (c k)
    then Some (c k) else None.
Proof.
  unfold Capture.captureStyles. by rewrite capture_fold_lookup, lookup_empty.
Qed.

Lemma captured_key (styles : gmap string string) (k v : string) :
  captured styles -> styles !! k = Some v ->
  k ∈ Capture.MEANINGFUL_STYLES /\ v <> "".
Proof.
  intros [[c|] ->] Hk.
  - rewrite captureStyles_lookup in Hk.
    case_bool_decide as Hin; [|done]. simpl in Hk.
    destruct (JS.truthy (c k)) eqn:Ht; [|done].
    injection Hk as <-. split; [done|]. intros Hempty.
    rewrite Hempty in Ht. discriminate.
  - unfold Capture.captureStyles in Hk. by rewrite lookup_empty in Hk.
Qed.

(** X16. [captureStyles] records exactly the whitelisted properties whose
    computed value is not empty, each with that value; for something that
    is not an HTML element it records nothing. No captured style ever has
    an empty value or a key outside the whitelist. *)
Theorem captureStyles_contents :
  Capture.captureStyles None = ∅
  /\ (forall (c : DomDiff.CSSStyleDeclaration) k,
      Capture.captureStyles (Some c) !! k =
        if bool_decide (k ∈ Capture.MEANINGFUL_STYLES) && JS.truthy (c k)
        then Some (c k) else None)
  /\ (forall styles k v,
      captured styles -> styles !! k = Some v ->
      k ∈ Capture.MEANINGFUL_STYLES /\ v <> "").
Proof.
  split; [done|]. split; [exact captureStyles_lookup|exact captured_key].
Qed.

Lemma captureStyles_contents_witness :
  captured (Capture.captureStyles (Some restingStyle))
  /\ Capture.captureStyles (Some restingStyle) !! "opacity" = Some "1"
  /\ "opacity" ∈ Capture.MEANINGFUL_STYLES /\ "1" <> "".
Proof.
  assert (captured (Capture.captureStyles (Some restingStyle))) as Hc
    by (by exists (Some restingStyle)).
  assert (Capture.captureStyles (Some restingStyle) !! "opacity" = Some "1")
    as Hk by (vm_compute; reflexivity).
  refine (conj Hc (conj Hk _)).
  exact (proj2 (proj2 captureStyles_contents) _ _ _ Hc Hk).
Defined.

Lemma styleChangeOf_inv (t : TraceRecord) (c : StyleChange) :
  styleChangeOf t = Some c ->
  exists ev b a,
    event t = Some ev /\ before t = Some b /\ after t = Some a
    /\ changedProperties (computed (style b)) (computed (style a)) <> ∅
    /\ c = {| change_trigger :=
                {| trigger_event := kind ev;
                   trigger_selector := selector ev |};
              change_effect :=
                {| effect_type :=
                     if negb (length (classes (dom a))
                              =? length (classes (dom b)))%nat
                     then class_toggle
                     else if bool_decide
                               (is_Some
                                  (changedProperties (computed (style b))
                                     (computed (style a))
                                   !! "animation-name"))
                     then animation
                     else transition;
                   target := selector ev;
                   properties :=
                     changedProperties (computed (style b))
                       (computed (style a));
                   timing :=
                     if bool_decide
                          (is_Some
                             (changedProperties (computed (style b))
                                (computed (style a)) !! "transition"))
                     then Some {| duration :=
                                    JS.orElse
                                      (computed (style a)
                                       !! "transition-duration") "0s";
                                  easing :=
                                    Some (JS.orElse
                                            (computed (style a)
                                             !! "transition-timing-function")
                                            "ease");
                                  delay :=
                                    Some (JS.orElse
                                            (computed (style a)
                                             !! "transition-delay") "0s") |}
                     else None |} |}.
Proof.
  unfold styleChangeOf.
  destruct (event t) as [ev|]; [|done].
  destruct (before t) as [b|]; [|done].
  destruct (after t) as [a|]; [|done].
  destruct (0 <? size _)%nat eqn:Hsize; [|done].
  intros [= <-]. exists ev, b, a. repeat split; try done.
  intros Hempty. rewrite Hempty in Hsize. done.
Qed.

(** X17. When the after style of every record was produced by
    [captureStyles], no emitted profile is an animation (the whitelist has
    no [animation-name]) and a timing, when present, is always the default
    one (0s, ease, 0s: the whitelist has no [transition-*] longhand);
    every reported property is whitelisted and has a non-empty new value. *)
Theorem captured_records_give_default_timing
    (traces : list TraceRecord)
    (Hcaptured : forall t a, t ∈ traces -> after t = Some a ->
                             captured (computed (style a)))
    (p : AnimationProfile) (Hp : p ∈ extractProfiles traces) :
  effect_type (effect p) <> animation
  /\ (timing (effect p) = None \/ timing (effect p) = Some defaultTiming)
  /\ forall k change,
       properties (effect p) !! k = Some change ->
       k ∈ Capture.MEANINGFUL_STYLES /\ to change <> "".
Proof.
  destruct (extractProfiles_origin traces p Hp)
    as (t & ev & b & a & c & Ht & Hev & Hb & Ha & Hc & ->).
  specialize (Hcaptured t a Ht Ha).
  apply styleChangeOf_inv in Hc as (ev' & b' & a' & Hev' & Hb' & Ha' & _ & ->).
  simplify_eq. clear Hp. simpl.
  assert (forall k, k ∉ Capture.MEANINGFUL_STYLES ->
            computed (style a) !! k = None) as Hout.
  { intros k Hk. destruct (computed (style a) !! k) as [v|] eqn:Hv; [|done].
    by apply (captured_key _ _ _ Hcaptured) in Hv as [Hin _]. }
  assert (forall k, k ∉ Capture.MEANINGFUL_STYLES ->
            changedProperties (computed (style b)) (computed (style a)) !! k
            = None) as Hnot.
  { intros k Hk. apply changedProperties_disappeared. by apply Hout. }
  split; [|split].
  - destruct (negb _); [done|].
    rewrite Hnot; [by rewrite bool_decide_eq_false_2 by (by intros [? [=]])|].
    intros Hin. apply (bool_decide_pack _) in Hin. vm_compute in Hin. done.
  - destruct (bool_decide _); [|by left]. right.
    rewrite !Hout; [done| | |];
      intros Hin; apply (bool_decide_pack _) in Hin; vm_compute in Hin; done.
  - intros k change Hk. rewrite changedProperties_lookup in Hk.
    destruct (computed (style a) !! k) as [v|] eqn:Hv; [|done].
    apply (captured_key _ _ _ Hcaptured) in Hv as [Hin Hne].
    split; [done|]. case_decide; [done|]. injection Hk as <-. simpl.
    by destruct v.
Qed.

Lemma captured_records_give_default_timing_witness :
  exists p,
    p ∈ extractProfiles [capturedHover]
    /\ timing (effect p) = Some defaultTiming.
Proof.
  assert (forall t a, t ∈ [capturedHover] -> after t = Some a ->
            captured (computed (style a))) as Hcap.
  { intros t a ->%list_elem_of_singleton [= <-].
    by exists (Some hoveredStyle). }
  assert (exists p, extractProfiles [capturedHover] = [p]
                    /\ is_Some (timing (effect p))) as (p & Hp & Hsome).
  { vm_compute. eauto. }
  assert (p ∈ extractProfiles [capturedHover]) as Hin
    by (rewrite Hp; by apply list_elem_of_singleton).
  exists p. split; [exact Hin|].
  destruct (captured_records_give_default_timing _ Hcap p Hin)
    as (_ & [Hnone|Hdefault] & _); [|exact Hdefault].
  rewrite Hnone in Hsome. by destruct Hsome.
Defined.

(** X18. For style maps none of whose keys names a member of
    [Object.prototype], a style property is reported for a record exactly
    when the after style holds it with a value that the before style does
    not have under the same name; the change then carries the before
    value, or the empty string when the before style lacks the property,
    and the after value. *)
Theorem changedProperties_reports (b a : gmap string string)
    (Hb : JSObject.plain b) (Ha : JSObject.plain a) (k : string) :
  (forall change,
      changedProperties b a !! k = Some change
      <-> exists v, a !! k = Some v /\ b !! k <> Some v
                    /\ change = {| from := default "" (b !! k); to := v |})
  /\ (changedProperties b a !! k = None
      <-> a !! k = None \/ b !! k = a !! k).
Proof.
  rewrite changedProperties_lookup.
  destruct (a !! k) as [v|] eqn:Hak.
  - destruct (decide (b !! k = Some v)) as [Hbk|Hbk].
    + split; [|split; [by right|done]].
      intros change. split; [done|]. intros (w & [= <-] & Hne & _). done.
    + split.
      * intros change. rewrite orElse_empty_default.
        assert (JS.orElse (Some v) "" = v) as -> by by destruct v.
        split.
        -- intros [= <-]. by exists v.
        -- by intros (w & [= <-] & _ & ->).
      * split; [done|]. intros [Hnone|Heq]; [done|]. by rewrite Heq in Hbk.
  - split; [|split; [by left|done]].
    intros change. split; [done|]. by intros (w & Hw & _).
Qed.

Lemma pressed_styles_plain :
  JSObject.plain pressedBefore /\ JSObject.plain pressedAfter.
Proof.
  split; (apply map_Forall_insert_2;
          [apply plainKey_intro; vm_compute; reflexivity|]);
    apply map_Forall_singleton, plainKey_intro; vm_compute; reflexivity.
Qed.

Lemma changedProperties_reports_witness :
  JSObject.plain pressedBefore /\ JSObject.plain pressedAfter
  /\ changedProperties pressedBefore pressedAfter !! "opacity"
     = Some {| from := "1"; to := "0.8" |}.
Proof.
  refine (conj (proj1 pressed_styles_plain)
            (conj (proj2 pressed_styles_plain) _)).
  apply (proj1 (changedProperties_reports pressedBefore pressedAfter
                  (proj1 pressed_styles_plain) (proj2 pressed_styles_plain)
                  "opacity")).
  exists "0.8". repeat split; try reflexivity. vm_compute. discriminate.
Defined.

End CapturedStyles.
(** ** The shape and the order of the profiles *)

Section ProfileShape.

Import TraceWriter TraceSpec ProfileSpec.

Lemma extractProfiles_elem (traces : list TraceRecord) (p : AnimationProfile) :
  p ∈ extractProfiles traces <->
  exists t s c, t ∈ traces /\ selectorOf t = Some s
                /\ styleChangeOf t = Some c /\ p = profileOf s c.
Proof.
  rewrite extractProfiles_grouped. unfold groupedProfiles. split.
  - intros Hp. apply list_elem_of_In, in_concat in Hp as (ps & Hps & Hp).
    apply in_map_iff in Hps as (s & <- & _).
    apply in_map_iff in Hp as (c & <- & Hc).
    apply list_elem_of_In, list_elem_of_omap in Hc as (t & Ht & Hc).
    apply list_elem_of_filter in Ht as [Hsel Ht].
    by exists t, s, c.
  - intros (t & s & c & Ht & Hs & Hc & ->).
    apply list_elem_of_In, in_concat.
    exists (map (profileOf s) (omap styleChangeOf (group s traces))). split.
    + apply in_map_iff. exists s. split; [done|].
      apply list_elem_of_In, firstAppearance_elem, list_elem_of_omap.
      by exists t.
    + apply in_map_iff. exists c. split; [done|].
      apply list_elem_of_In, list_elem_of_omap. exists t. split; [|done].
      unfold group. by apply list_elem_of_filter.
Qed.

Lemma selectorOf_Some (t : TraceRecord) (s : string) :
  selectorOf t = Some s <->
  type t = interaction /\ exists ev, event t = Some ev /\ s = selector ev.
Proof.
  unfold selectorOf. split.
  - destruct (type t); try done. destruct (event t) as [ev|]; [|done].
    intros [= <-]. split; [done|]. by exists ev.
  - intros [-> (ev & -> & ->)]. done.
Qed.

(** X19. Every emitted profile comes from an interaction record of the
    input that has its event and both snapshots: its trigger is that event,
    its target is the trigger's selector, its name is the event kind,
    [-on-] and the last token of the selector, it reports at least one
    property, and its effect is never [dom-manipulation]. *)
Theorem profile_shape (traces : list TraceRecord) (p : AnimationProfile)
    (Hp : p ∈ extractProfiles traces) :
  target (effect p) = trigger_selector (trigger p)
  /\ name p = trigger_event (trigger p) +:+ "-on-"
                +:+ lastToken (trigger_selector (trigger p))
  /\ effect_type (effect p) <> dom_manipulation
  /\ properties (effect p) <> ∅
  /\ exists t ev,
       t ∈ traces /\ type t = interaction /\ event t = Some ev
       /\ is_Some (before t) /\ is_Some (after t)
       /\ trigger p = {| trigger_event := kind ev;
                         trigger_selector := selector ev |}.
Proof.
  apply extractProfiles_elem in Hp as (t & s & c & Ht & Hs & Hc & ->).
  apply selectorOf_Some in Hs as (Htype & ev & Hev & ->).
  apply styleChangeOf_inv in Hc as (ev' & b & a & Hev' & Hb & Ha & Hne & ->).
  simplify_eq. simpl. repeat split; try done.
  - destruct (negb _); [done|]. by destruct (bool_decide _).
  - exists t. eexists. rewrite Hb, Ha. repeat split; eauto.
Qed.

Lemma profile_shape_witness :
  exists p,
    p ∈ extractProfiles [ctaClick]
    /\ name p = "click-on-button.cta"
    /\ target (effect p) = "button.cta".
Proof.
  assert (exists p, extractProfiles [ctaClick] = [p]
                    /\ trigger_event (trigger p) = "click"
                    /\ trigger_selector (trigger p) = "button.cta")
    as (p & Hp & Hkind & Hsel).
  { vm_compute. eauto. }
  assert (p ∈ extractProfiles [ctaClick]) as Hin
    by (rewrite Hp; by apply list_elem_of_singleton).
  exists p. split; [exact Hin|].
  destruct (profile_shape _ p Hin) as (Htarget & Hname & _).
  rewrite Hname, Htarget, Hkind, Hsel. by split.
Defined.

(** *** The last token of a selector *)

Lemma allChars_app (f : ascii -> bool) (s1 s2 : string) :
  JS.allChars f (s1 +:+ s2) = JS.allChars f s1 && JS.allChars f s2.
Proof.
  induction s1 as [|a s1 IH]; [done|]. simpl. rewrite IH.
  by rewrite andb_assoc.
Qed.

Lemma append_snoc (cur : string) (a : ascii) (r : string) :
  (cur +:+ String a EmptyString) +:+ r = cur +:+ String a r.
Proof.
  induction cur as [|c cur IH]; [done|].
  change (String c ((cur +:+ String a EmptyString) +:+ r)
          = String c (cur +:+ String a r)).
  by rewrite IH.
Qed.

Lemma splitAux_nonempty (c : ascii) (cur s : string) :
  JS.splitAux c cur s <> [].
Proof.
  revert cur. induction s as [|a r IH]; intros cur; simpl; [done|].
  destruct (Ascii.eqb a c); [done|apply IH].
Qed.

Lemma last_cons_nonempty {A : Type} (x : A) (l : list A) :
  l <> [] -> last (x :: l) = last l.
Proof. by destruct l. Qed.

Lemma splitAux_last_noSep (c : ascii) (cur s x : string) :
  last (JS.splitAux c cur s) = Some x ->
  JS.allChars (fun a => negb (Ascii.eqb a c)) cur = true ->
  JS.allChars (fun a => negb (Ascii.eqb a c)) x = true.
Proof.
  revert cur. induction s as [|a r IH]; intros cur; simpl.
  - by intros [= <-].
  - destruct (Ascii.eqb a c) eqn:Hac.
    + rewrite last_cons_nonempty by apply splitAux_nonempty.
      intros Hlast _. by apply (IH EmptyString).
    + intros Hlast Hcur. apply (IH _ Hlast).
      rewrite allChars_app, Hcur. simpl. by rewrite Hac.
Qed.

Lemma splitAux_noSep (c : ascii) (cur s : string) :
  JS.allChars (fun a => negb (Ascii.eqb a c)) s = true ->
  JS.splitAux c cur s = [cur +:+ s].
Proof.
  revert cur. induction s as [|a r IH]; intros cur; simpl.
  - intros _. f_equal. induction cur as [|x cur IHc]; [done|].
    change (String x cur = String x (cur +:+ EmptyString)).
    by rewrite <- IHc.
  - intros [Ha Hr]%andb_true_iff. destruct (Ascii.eqb a c); [done|].
    rewrite IH by done. by rewrite append_snoc.
Qed.

Lemma splitAux_last_app (c : ascii) (cur s1 s2 : string) :
  last (JS.splitAux c cur (s1 +:+ String c s2))
  = last (JS.splitAux c EmptyString s2).
Proof.
  revert cur. induction s1 as [|a r IH]; intros cur; simpl.
  - rewrite Ascii.eqb_refl.
    by rewrite last_cons_nonempty by apply splitAux_nonempty.
  - destruct (Ascii.eqb a c); [|apply IH].
    rewrite last_cons_nonempty by apply splitAux_nonempty. apply IH.
Qed.

(** X20. The last token used in a profile name is never empty and never
    contains a space. For a selector that ends in a space-free token after
    a space, and for one that has no space at all, it is that token;
    whenever the token is empty (the selector is empty or ends in a space)
    it is the word [element]. *)
Theorem lastToken_is_the_last_word (selector prefix tok : string)
    (Hword : noSpace tok = true) :
  lastToken selector <> ""
  /\ noSpace (lastToken selector) = true
  /\ lastToken (prefix +:+ " " +:+ tok)
     = (if JS.truthy tok then tok else "element")
  /\ lastToken tok = (if JS.truthy tok then tok else "element").
Proof.
  unfold lastToken, JS.split, noSpace in *.
  split; [|split; [|split]].
  - destruct (last _) as [x|]; [|done]. simpl. by destruct x.
  - destruct (last _) as [x|] eqn:Hlast; [|done]. simpl.
    destruct x as [|a x]; [done|]. simpl.
    by apply (splitAux_last_noSep _ _ _ _ Hlast).
  - change (prefix +:+ " " +:+ tok) with (prefix +:+ String " " tok).
    by rewrite splitAux_last_app, splitAux_noSep.
  - by rewrite splitAux_noSep.
Qed.

Lemma lastToken_is_the_last_word_witness :
  lastToken ("nav >" +:+ " " +:+ "button:nth-of-type(2)")
  = "button:nth-of-type(2)".
Proof.
  exact (proj1 (proj2 (proj2
           (lastToken_is_the_last_word "" "nav >" "button:nth-of-type(2)"
              eq_refl)))).
Defined.

(** *** Grouping only reorders *)

Lemma filter_id {A : Type} (P : A -> Prop) `{!forall x, Decision (P x)}
    (l : list A) :
  (forall x, x ∈ l -> P x) -> filter P l = l.
Proof.
  induction l as [|x l IH]; intros Hall; [done|].
  rewrite filter_cons_True by (apply Hall; by apply elem_of_cons; left).
  f_equal. apply IH. intros y Hy. apply Hall. by apply elem_of_cons; right.
Qed.

Lemma filter_none {A : Type} (P : A -> Prop) `{!forall x, Decision (P x)}
    (l : list A) :
  (forall x, x ∈ l -> ~ P x) -> filter P l = [].
Proof.
  induction l as [|x l IH]; intros Hall; [done|].
  rewrite filter_cons_False by (apply Hall; by apply elem_of_cons; left).
  apply IH. intros y Hy. apply Hall. by apply elem_of_cons; right.
Qed.

Lemma perm_of_eq {A : Type} (x y : list A) : x = y -> x ≡ₚ y.
Proof. by intros ->. Qed.

(** What one record contributes on its own. *)
Lemma contribution_of_group (s : string) (l : list TraceRecord) :
  (forall t, t ∈ l -> selectorOf t = Some s) ->
  map (profileOf s) (omap styleChangeOf l)
  = concat (map (fun t => extractProfiles [t]) l).
Proof.
  induction l as [|t l IH]; intros Hall; [done|].
  cbn [omap list_omap map concat]. rewrite extractProfiles_single.
  rewrite (Hall t) by (by apply elem_of_cons; left).
  rewrite <- IH by (intros y Hy; apply Hall; by apply elem_of_cons; right).
  by destruct (styleChangeOf t).
Qed.

Lemma concat_filter_split {A B : Type} (P : A -> Prop)
    `{!forall x, Decision (P x)} (g : A -> list B) (l : list A) :
  concat (map g (filter P l)) ++ concat (map g (filter (fun x => ~ P x) l))
  ≡ₚ concat (map g l).
Proof.
  induction l as [|x l IH]; [done|].
  rewrite !filter_cons. destruct (decide (P x)) as [HP|HP].
  - rewrite decide_False by tauto. simpl. by rewrite <- app_assoc, IH.
  - rewrite decide_True by done. simpl. rewrite <- IH.
    rewrite !app_assoc. apply Permutation_app_tail, Permutation_app_comm.
Qed.

Lemma group_of_others (s k : string) (l : list TraceRecord) :
  s <> k ->
  group s (filter (fun t => ~ selectorOf t = Some k) l) = group s l.
Proof.
  intros Hne. unfold group. induction l as [|t l IH]; [done|].
  rewrite !filter_cons. destruct (decide (selectorOf t = Some k)) as [Hk|Hk].
  - rewrite decide_False by tauto.
    rewrite decide_False by congruence. apply IH.
  - rewrite decide_True by done. rewrite filter_cons.
    destruct (decide (selectorOf t = Some s)); by rewrite IH.
Qed.

Lemma concat_groups_perm (keys : list string) (l : list TraceRecord) :
  NoDup keys ->
  (forall s, s ∈ omap selectorOf l -> s ∈ keys) ->
  concat (map (fun s => concat (map (fun t => extractProfiles [t])
                                  (group s l))) keys)
  ≡ₚ concat (map (fun t => extractProfiles [t]) l).
Proof.
  intros Hnodup. revert l.
  induction Hnodup as [|k ks Hk Hks IH]; intros l Hall.
  - simpl. induction l as [|t l IHl]; [done|].
    simpl. rewrite extractProfiles_single.
    destruct (selectorOf t) as [s|] eqn:Hs.
    + exfalso. apply (not_elem_of_nil s), Hall. simpl. rewrite Hs.
      by apply elem_of_cons; left.
    + simpl. apply IHl. intros s Hin. apply Hall. simpl. by rewrite Hs.
  - cbn [map concat].
    rewrite <- (concat_filter_split (fun t => selectorOf t = Some k)
                  (fun t => extractProfiles [t]) l).
    apply Permutation_app; [done|].
    rewrite <- (IH (filter (fun t => ~ selectorOf t = Some k) l)).
    + apply perm_of_eq. f_equal. apply map_ext_in. intros s Hs.
      rewrite group_of_others; [done|].
      intros ->. by apply Hk, list_elem_of_In.
    + intros s (t & Ht & Hsel)%list_elem_of_omap.
      apply list_elem_of_filter in Ht as [Hnk Ht].
      assert (s ∈ k :: ks) as Hin
        by (apply Hall, list_elem_of_omap; by exists t).
      apply elem_of_cons in Hin as [->|Hin]; [done|done].
Qed.

(** X21. Grouping only reorders: the profiles extracted from a list of
    records are, as a multiset, the profiles that each record gives on its
    own. Records of one selector are never merged or checked against each
    other, and a record that is no interaction contributes nothing. *)
Theorem extractProfiles_is_per_record (traces : list TraceRecord) :
  extractProfiles traces
  ≡ₚ concat (map (fun t => extractProfiles [t]) traces)
  /\ length (extractProfiles traces)
     = length (filter (fun t => is_Some (selectorOf t)
                                /\ is_Some (styleChangeOf t)) traces).
Proof.
  assert (extractProfiles traces
          ≡ₚ concat (map (fun t => extractProfiles [t]) traces)) as Hperm.
  { rewrite extractProfiles_grouped. unfold groupedProfiles.
    rewrite <- (concat_groups_perm (firstAppearance (omap selectorOf traces)));
      [|apply firstAppearance_NoDup
       |intros s Hs; by apply firstAppearance_elem].
    apply perm_of_eq. f_equal. apply map_ext. intros s.
    apply contribution_of_group. intros t Ht.
    unfold group in Ht. by apply list_elem_of_filter in Ht as [Hsel _]. }
  split; [done|]. rewrite Hperm. clear Hperm.
  induction traces as [|t traces IH]; [done|].
  cbn [map concat]. rewrite length_app, IH, filter_cons.
  rewrite extractProfiles_single.
  destruct (selectorOf t) as [s|], (styleChangeOf t) as [c|];
    (rewrite decide_True by (split; eauto); done)
    || (rewrite decide_False by (intros [[? ?] [? ?]]; done); done).
Qed.

(** *** Appending records of new selectors *)

Lemma firstAppearance_app_disjoint (k1 k2 : list string) :
  (forall s, s ∈ k2 -> s ∉ k1) ->
  firstAppearance (k1 ++ k2) = firstAppearance k1 ++ firstAppearance k2.
Proof.
  intros Hfresh. induction k1 as [|s r IH]; [done|].
  cbn [app firstAppearance]. rewrite IH, filter_app.
  2:{ intros x Hx Hin. apply (Hfresh x Hx). by apply elem_of_cons; right. }
  f_equal. f_equal. apply filter_id.
  intros x Hx ->. apply (proj1 (firstAppearance_elem _ _)) in Hx.
  apply (Hfresh s Hx). by apply elem_of_cons; left.
Qed.

(** X22. Records whose selectors have not occurred before only add
    profiles at the end: extracting from [earlier ++ later] gives the
    profiles of [earlier] followed by those of [later]. *)
Theorem extractProfiles_app_fresh (earlier later : list TraceRecord)
    (Hfresh : freshSelectors earlier later) :
  extractProfiles (earlier ++ later)
  = extractProfiles earlier ++ extractProfiles later.
Proof.
  unfold freshSelectors, selectorsOf in Hfresh.
  rewrite !extractProfiles_grouped. unfold groupedProfiles.
  rewrite omap_app, firstAppearance_app_disjoint by done.
  rewrite map_app, concat_app. f_equal; f_equal; apply map_ext_in;
    intros s Hs; apply list_elem_of_In in Hs;
    apply (proj1 (firstAppearance_elem _ _)) in Hs;
    unfold group; rewrite filter_app; fold (group s earlier);
    fold (group s later).
  - rewrite (group_absent s later), app_nil_r; [done|].
    intros Hin. by apply (Hfresh s Hin).
  - rewrite (group_absent s earlier); [done|]. by apply Hfresh.
Qed.

Lemma extractProfiles_app_fresh_witness :
  extractProfiles ([firstA; secondA] ++ [onlyB])
  = extractProfiles [firstA; secondA] ++ extractProfiles [onlyB].
Proof.
  apply extractProfiles_app_fresh.
  intros s Hs. change (s ∈ ["b"]) in Hs.
  apply list_elem_of_singleton in Hs as ->.
  change ("b" ∉ ["a"; "a"]). intros Hin.
  apply (bool_decide_pack _) in Hin. vm_compute in Hin. done.
Defined.

End ProfileShape.
(** ** More on the two mutation compressors *)

Section CompressorInvariants.

Import MutationSpec.

Lemma compress_affected (batch : list MutationRecord) :
  DomDiff.affectedElements
    (foldl DomDiff.compress_step DomDiff.compress_init batch)
  = affectedSet batch.
Proof. rewrite compress_fold_affected. simpl. set_solver. Qed.

Lemma inline_affected (batch : list MutationRecord) :
  Instrumentation.affected
    (foldl Instrumentation.inline_step Instrumentation.inline_init batch)
  = affectedSet batch.
Proof. rewrite inline_fold_affected. simpl. set_solver. Qed.

Lemma canonical_result (batch : list MutationRecord) :
  DomDiff.compressMutations batch
  = {| DomDiff.intent :=
         if hasClassChange batch && negb (hasChildListChange batch)
         then "style-change"
         else if hasChildListChange batch
                 && (size (affectedSet batch) =? 1)%nat
         then "content-update"
         else if hasChildListChange batch
                 && (1 <? size (affectedSet batch))%nat
         then "dom-restructure"
         else if existsb isAttributeMutation batch then "attribute-change"
         else "unknown";
       DomDiff.summary :=
         DomDiff.summaryOf (length batch) (size (affectedSet batch));
       DomDiff.affectedElementCount := size (affectedSet batch) |}.
Proof.
  unfold DomDiff.compressMutations.
  by rewrite compress_affected, compress_fold_child, compress_fold_class,
    compress_fold_attribute.
Qed.

Lemma inline_result (batch : list MutationRecord) :
  Instrumentation.compressMutations batch
  = {| DomDiff.intent :=
         if hasClassChange batch && negb (hasChildListChange batch)
         then "style-change"
         else if hasChildListChange batch
                 && (size (affectedSet batch) =? 1)%nat
         then "content-update"
         else if hasChildListChange batch then "dom-restructure"
         else "unknown";
       DomDiff.summary :=
         DomDiff.summaryOf (length batch) (size (affectedSet batch));
       DomDiff.affectedElementCount := size (affectedSet batch) |}.
Proof.
  unfold Instrumentation.compressMutations.
  by rewrite inline_affected, inline_fold_child, inline_fold_class.
Qed.

Lemma affectedSet_cons (m : MutationRecord) (l : list MutationRecord) :
  affectedSet (m :: l)
  = match asElement (target m) with
    | Some e => {[ e ]} ∪ affectedSet l
    | None => affectedSet l
    end.
Proof. unfold affectedSet. simpl. by destruct (asElement (target m)). Qed.

Lemma affectedSet_perm (l1 l2 : list MutationRecord) :
  l1 ≡ₚ l2 -> affectedSet l1 = affectedSet l2.
Proof.
  induction 1 as [|x l1 l2 _ IH|x y l|l1 l2 l3 _ IH1 _ IH2].
  - done.
  - by rewrite !affectedSet_cons, IH.
  - rewrite !affectedSet_cons.
    destruct (asElement (target x)), (asElement (target y)); set_solver.
  - congruence.
Qed.

Lemma existsb_perm {A : Type} (f : A -> bool) (l1 l2 : list A) :
  l1 ≡ₚ l2 -> existsb f l1 = existsb f l2.
Proof.
  induction 1 as [|x l1 l2 _ IH|x y l|l1 l2 l3 _ IH1 _ IH2]; simpl.
  - done.
  - by rewrite IH.
  - by destruct (f x), (f y).
  - congruence.
Qed.

Lemma affectedSet_size_le (batch : list MutationRecord) :
  (size (affectedSet batch) <= length batch)%nat.
Proof.
  induction batch as [|m l IH]; [done|].
  rewrite affectedSet_cons. simpl.
  destruct (asElement (target m)) as [e|]; [|lia].
  rewrite size_union_alt, size_singleton.
  assert (size (affectedSet l ∖ {[ e ]}) <= size (affectedSet l))%nat
    by (apply subseteq_size; set_solver).
  lia.
Qed.

Lemma affectedSet_empty_iff (batch : list MutationRecord) :
  size (affectedSet batch) = 0%nat
  <-> forall m, m ∈ batch -> asElement (target m) = None.
Proof.
  induction batch as [|m l IH].
  - split; [by intros _ m Hm%elem_of_nil|done].
  - rewrite affectedSet_cons.
    destruct (asElement (target m)) as [e|] eqn:He.
    + split.
      * intros Hsize. apply size_empty_inv in Hsize. set_solver.
      * intros Hall. specialize (Hall m). rewrite He in Hall.
        discriminate Hall. by apply elem_of_cons; left.
    + rewrite IH. split.
      * intros Hall x [->|Hx]%elem_of_cons; [done|by apply Hall].
      * intros Hall x Hx. apply Hall. by apply elem_of_cons; right.
Qed.

(** X23. Both compressors are insensitive to the order of the batch: a
    permutation of the mutation records gives the same intent, the same
    summary and the same number of affected elements. *)
Theorem compressMutations_order_independent
    (batch1 batch2 : list MutationRecord) (Hperm : batch1 ≡ₚ batch2) :
  DomDiff.compressMutations batch1 = DomDiff.compressMutations batch2
  /\ Instrumentation.compressMutations batch1
     = Instrumentation.compressMutations batch2.
Proof.
  rewrite !canonical_result, !inline_result.
  unfold hasClassChange, hasChildListChange.
  rewrite (affectedSet_perm _ _ Hperm), (Permutation_length Hperm).
  rewrite (existsb_perm isClassMutation _ _ Hperm).
  rewrite (existsb_perm isChildListMutation _ _ Hperm).
  by rewrite (existsb_perm isAttributeMutation _ _ Hperm).
Qed.

Lemma compressMutations_order_independent_witness :
  DomDiff.compressMutations (rev classThenChild)
  = DomDiff.compressMutations classThenChild.
Proof.
  exact (proj1 (compressMutations_order_independent
                  (rev classThenChild) classThenChild
                  (Permutation_sym (Permutation_rev classThenChild)))).
Defined.

(** X24. The affected-element count of a batch never exceeds the number of
    its records and is zero exactly when no record targets an element. The
    intent is one of the five known words; [content-update] is only
    answered for exactly one affected element, [dom-restructure] only for
    more than one, and [style-change] only for a batch without child-list
    mutations. *)
Theorem compressMutations_counts (batch : list MutationRecord) :
  let result := DomDiff.compressMutations batch in
  (DomDiff.affectedElementCount result <= length batch)%nat
  /\ (DomDiff.affectedElementCount result = 0%nat
      <-> forall m, m ∈ batch -> asElement (target m) = None)
  /\ DomDiff.intent result
     ∈ ["style-change"; "content-update"; "dom-restructure";
        "attribute-change"; "unknown"]
  /\ (DomDiff.intent result = "content-update"
      -> DomDiff.affectedElementCount result = 1%nat
         /\ hasChildListChange batch = true)
  /\ (DomDiff.intent result = "dom-restructure"
      -> (1 < DomDiff.affectedElementCount result)%nat
         /\ hasChildListChange batch = true)
  /\ (DomDiff.intent result = "style-change"
      -> hasClassChange batch = true /\ hasChildListChange batch = false).
Proof.
  intros result. unfold result. rewrite canonical_result. simpl.
  split; [apply affectedSet_size_le|].
  split; [apply affectedSet_empty_iff|].
  destruct (hasClassChange batch), (hasChildListChange batch),
           (existsb isAttributeMutation batch); simpl.
  all: destruct (size (affectedSet batch)) as [|[|n]]; simpl.
  all: repeat split; try done; try lia; try set_solver.
Qed.

Lemma compressMutations_counts_witness :
  DomDiff.affectedElementCount (DomDiff.compressMutations classThenChild)
  = 2%nat
  /\ (1 < DomDiff.affectedElementCount
            (DomDiff.compressMutations classThenChild))%nat.
Proof.
  assert (DomDiff.intent (DomDiff.compressMutations classThenChild)
          = "dom-restructure") as Hintent by (vm_compute; reflexivity).
  split; [vm_compute; reflexivity|].
  exact (proj1 (proj1 (proj2 (proj2 (proj2 (proj2
           (compressMutations_counts classThenChild))))) Hintent)).
Defined.

(** X25. Where the compressor injected into the page departs from
    dom-diff.ts. The two agree on the intent except in two situations: the
    canonical answer is [attribute-change], which the inline copy reports
    as [unknown]; or the batch has a child-list mutation but no element
    target at all, which the inline copy calls [dom-restructure] while
    dom-diff.ts falls through to [attribute-change] or [unknown]. When
    every target is an element only the first situation remains. The
    inline copy never answers [attribute-change]; both always report the
    same count and summary. *)
Theorem inline_compressor_divergence (batch : list MutationRecord) :
  let canonical := DomDiff.intent (DomDiff.compressMutations batch) in
  let inline := DomDiff.intent (Instrumentation.compressMutations batch) in
  (inline = canonical
   \/ (inline = "unknown" /\ canonical = "attribute-change")
   \/ (inline = "dom-restructure"
       /\ hasChildListChange batch = true
       /\ size (affectedSet batch) = 0%nat
       /\ (canonical = "attribute-change" \/ canonical = "unknown")))
  /\ (all_elements batch ->
      inline = if decide (canonical = "attribute-change") then "unknown"
               else canonical)
  /\ inline <> "attribute-change"
  /\ DomDiff.summary (Instrumentation.compressMutations batch)
     = DomDiff.summary (DomDiff.compressMutations batch)
  /\ DomDiff.affectedElementCount (Instrumentation.compressMutations batch)
     = DomDiff.affectedElementCount (DomDiff.compressMutations batch).
Proof.
  intros canonical inline.
  split; [|split; [apply inline_intent_on_element_batches|]].
  - unfold canonical, inline. rewrite canonical_result, inline_result. simpl.
    destruct (hasClassChange batch), (hasChildListChange batch),
             (existsb isAttributeMutation batch); simpl.
    all: destruct (size (affectedSet batch)) as [|[|n]]; simpl.
    all: first [by left | by right; left | right; right; repeat split; eauto].
  - unfold inline. rewrite canonical_result, inline_result. simpl.
    split; [|done].
    destruct (hasClassChange batch && negb (hasChildListChange batch));
      [done|].
    destruct (hasChildListChange batch && _); [done|].
    by destruct (hasChildListChange batch).
Qed.

Lemma inline_compressor_divergence_witness :
  all_elements hiddenToggled
  /\ DomDiff.intent (Instrumentation.compressMutations hiddenToggled)
     = "unknown".
Proof.
  assert (all_elements hiddenToggled) as Hall.
  { repeat constructor; simpl; eauto. }
  split; [exact Hall|].
  exact (proj1 (proj2 (inline_compressor_divergence hiddenToggled)) Hall).
Defined.

End CompressorInvariants.
(** ** The console log and the recovery script against trace-writer.ts *)

Section Recovery.

Import TraceWriter TraceSpec ProfileSpec.

Lemma changedStyles_elem (b a : gmap string string) (prop : string) :
  prop ∈ CaptureEngine.changedStyles b a
  <-> is_Some (changedProperties b a !! prop).
Proof.
  unfold CaptureEngine.changedStyles.
  rewrite list_elem_of_In, filter_In, changedProperties_lookup. split.
  - intros [Hin Hneq]. apply in_map_iff in Hin as ([k v] & <- & Hkv).
    apply list_elem_of_In, elem_of_map_to_list in Hkv. simpl in *.
    rewrite Hkv in *. apply negb_true_iff, bool_decide_eq_false in Hneq.
    rewrite decide_False by done. eauto.
  - intros Hsome. destruct (a !! prop) as [v|] eqn:Ha; [|by destruct Hsome].
    case_decide as Hb; [by destruct Hsome|]. split.
    + apply in_map_iff. exists (prop, v). split; [done|].
      by apply list_elem_of_In, elem_of_map_to_list.
    + by apply negb_true_iff, bool_decide_eq_false.
Qed.

Lemma changedStyles_nil (b a : gmap string string) :
  CaptureEngine.changedStyles b a = [] <-> changedProperties b a = ∅.
Proof.
  split.
  - intros Hnil. apply map_empty. intros k.
    destruct (changedProperties b a !! k) as [c|] eqn:Hk; [|done].
    assert (k ∈ CaptureEngine.changedStyles b a) as Hin
      by (apply changedStyles_elem; rewrite Hk; eauto).
    rewrite Hnil in Hin. by apply elem_of_nil in Hin.
  - intros Hempty.
    destruct (CaptureEngine.changedStyles b a) as [|k l] eqn:Hl; [done|].
    assert (k ∈ CaptureEngine.changedStyles b a) as Hin
      by (rewrite Hl; by apply elem_of_cons; left).
    apply changedStyles_elem in Hin. rewrite Hempty, lookup_empty in Hin.
    by destruct Hin.
Qed.

Lemma NoDup_List_filter {A : Type} (f : A -> bool) (l : list A) :
  NoDup l -> NoDup (List.filter f l).
Proof.
  induction 1 as [|x l Hx _ IH]; simpl; [constructor|].
  destruct (f x); [|done]. constructor; [|done].
  rewrite list_elem_of_In, filter_In, <- list_elem_of_In. tauto.
Qed.

(** X26. What [logTrace] prints agrees with what [extractProfiles]
    reports: for a record with its event and both snapshots, whose style
    maps have no key that names a member of [Object.prototype], the list
    of changed styles on the console is non-empty exactly when the record
    gives a style change, a property is listed exactly when the profile
    reports it, and no property is listed twice. *)
Theorem logTrace_lists_the_profile_properties
    (t : TraceRecord) (ev : InteractionEvent) (b a : Snapshot)
    (Hev : event t = Some ev) (Hb : before t = Some b)
    (Ha : after t = Some a)
    (Hbefore : JSObject.plain (computed (style b)))
    (Hafter : JSObject.plain (computed (style a))) :
  let listed :=
    CaptureEngine.changedStyles (computed (style b)) (computed (style a)) in
  (listed <> [] <-> is_Some (styleChangeOf t))
  /\ (forall c, styleChangeOf t = Some c ->
        forall prop,
          prop ∈ listed <-> is_Some (properties (change_effect c) !! prop))
  /\ NoDup listed.
Proof.
  intros listed. unfold listed. split; [|split].
  - rewrite changedStyles_nil. unfold styleChangeOf. rewrite Hev, Hb, Ha.
    destruct (0 <? size _)%nat eqn:Hsize.
    + split; [eauto|]. intros _ Hempty. rewrite Hempty in Hsize. done.
    + split; [|by intros [? [=]]]. intros Hne. exfalso. apply Hne.
      apply map_size_empty_iff. apply Nat.ltb_ge in Hsize. lia.
  - intros c Hc prop.
    apply styleChangeOf_inv in Hc as (ev' & b' & a' & ? & ? & ? & _ & ->).
    simplify_eq. simpl. apply changedStyles_elem.
  - unfold CaptureEngine.changedStyles. apply NoDup_List_filter.
    apply NoDup_fst_map_to_list.
Qed.

Lemma logTrace_lists_the_profile_properties_witness :
  CaptureEngine.changedStyles pressedBefore pressedAfter <> [].
Proof.
  apply (proj1 (logTrace_lists_the_profile_properties ctaClick _ _ _
                  eq_refl eq_refl eq_refl
                  (proj1 pressed_styles_plain) (proj2 pressed_styles_plain))).
  vm_compute. eauto.
Defined.

(** *** recover-sessions.js *)

Lemma recover_styleChangeOf (t : TraceRecord) :
  Recover.styleChangeOf (Recover.parsed t) = styleChangeOf t.
Proof.
  unfold Recover.styleChangeOf, styleChangeOf, Recover.parsed. simpl.
  destruct (event t) as [ev|]; [|done].
  destruct (before t) as [b|]; [|done].
  destruct (after t) as [a|]; [|done]. simpl.
  destruct (0 <? size _)%nat; [|done].
  assert (bool_decide (Some (length (classes (dom a)))
                       = Some (length (classes (dom b))))
          = (length (classes (dom a)) =? length (classes (dom b)))%nat)
    as ->; [|done].
  destruct (Nat.eqb_spec (length (classes (dom a)))
              (length (classes (dom b)))) as [Heq|Hne].
  - by rewrite bool_decide_eq_true_2 by (by rewrite Heq).
  - rewrite bool_decide_eq_false_2; [done|]. by intros [= ?].
Qed.

Lemma recover_push_changes (l : list Recover.ParsedTrace)
    (changes : list StyleChange) :
  foldl (fun changes trace =>
           match Recover.styleChangeOf trace with
           | Some change => changes ++ [change]
           | None => changes
           end) changes l
  = changes ++ omap Recover.styleChangeOf l.
Proof.
  revert changes. induction l as [|t l IH]; intros changes; simpl.
  - by rewrite app_nil_r.
  - rewrite IH. destruct (Recover.styleChangeOf t); [|done].
    by rewrite <- app_assoc.
Qed.

Lemma recover_changes_read (l : list TraceRecord) :
  omap Recover.styleChangeOf (map Recover.parsed l) = omap styleChangeOf l.
Proof.
  induction l as [|t l IH]; [done|]. cbn [map omap list_omap].
  fold (omap Recover.styleChangeOf (map Recover.parsed l)).
  fold (omap styleChangeOf l).
  by rewrite recover_styleChangeOf, IH.
Qed.

Lemma recover_findConsistentStyleChanges (l : list TraceRecord) :
  Recover.findConsistentStyleChanges (map Recover.parsed l)
  = findConsistentStyleChanges l.
Proof.
  unfold Recover.findConsistentStyleChanges.
  rewrite recover_push_changes, findConsistentStyleChanges_omap.
  apply recover_changes_read.
Qed.

Lemma recover_push_profiles (s : string) (changes : list StyleChange)
    (profiles : list AnimationProfile) :
  foldl (fun profiles change => profiles ++ [profileOf s change])
    profiles changes
  = profiles ++ map (profileOf s) changes.
Proof.
  revert profiles. induction changes as [|c l IH]; intros profiles; simpl.
  - by rewrite app_nil_r.
  - by rewrite IH, <- app_assoc.
Qed.

Lemma recover_profiles_step (profiles : list AnimationProfile)
    (s : string) (g : list TraceRecord) :
  Recover.profiles_step profiles (s, map Recover.parsed g)
  = profiles_step profiles (s, g).
Proof.
  unfold Recover.profiles_step, profiles_step.
  rewrite recover_push_profiles, recover_findConsistentStyleChanges.
  destruct (findConsistentStyleChanges g); [|done].
  by rewrite app_nil_r.
Qed.

(** The groups of the recovery script are those of trace-writer.ts, read
    back record by record. *)
Lemma Map_has_read (k : string) (m : list (string * list TraceRecord)) :
  Map_has k (map (fun g => (g.1, map Recover.parsed g.2)) m) = Map_has k m.
Proof.
  induction m as [|[k' v] m IH]; [done|]. simpl. by rewrite IH.
Qed.

Lemma Map_set_read (k : string) (m : list (string * list TraceRecord)) :
  Map_set k [] (map (fun g => (g.1, map Recover.parsed g.2)) m)
  = map (fun g => (g.1, map Recover.parsed g.2)) (Map_set k [] m).
Proof.
  induction m as [|[k' v] m IH]; [done|]. simpl.
  destruct (String.eqb k' k); [done|]. simpl. by rewrite IH.
Qed.

Lemma Map_update_read (k : string) (t : TraceRecord)
    (m : list (string * list TraceRecord)) :
  Map_update (fun traces => traces ++ [Recover.parsed t]) k
    (map (fun g => (g.1, map Recover.parsed g.2)) m)
  = map (fun g => (g.1, map Recover.parsed g.2))
      (Map_update (fun traces => traces ++ [t]) k m).
Proof.
  induction m as [|[k' v] m IH]; [done|]. simpl.
  destruct (String.eqb k' k); simpl.
  - by rewrite map_app.
  - by rewrite IH.
Qed.

Lemma recover_group_step (m : list (string * list TraceRecord))
    (t : TraceRecord) :
  Recover.group_step (map (fun g => (g.1, map Recover.parsed g.2)) m)
    (Recover.parsed t)
  = map (fun g => (g.1, map Recover.parsed g.2)) (group_step m t).
Proof.
  unfold Recover.group_step, group_step.
  change (Recover.parsed_type (Recover.parsed t)) with (type t).
  change (Recover.parsed_event (Recover.parsed t)) with (event t).
  destruct (type t); try done. destruct (event t) as [ev|]; [|done].
  rewrite Map_has_read. destruct (Map_has (selector ev) m).
  - apply (Map_update_read _ t).
  - rewrite Map_set_read. apply (Map_update_read _ t).
Qed.

Lemma recover_groups (l : list TraceRecord)
    (m : list (string * list TraceRecord)) :
  foldl Recover.group_step
    (map (fun g => (g.1, map Recover.parsed g.2)) m) (map Recover.parsed l)
  = map (fun g => (g.1, map Recover.parsed g.2)) (foldl group_step m l).
Proof.
  revert m. induction l as [|t l IH]; intros m; [done|]. simpl.
  by rewrite recover_group_step, IH.
Qed.

Lemma recover_profiles_fold (groups : list (string * list TraceRecord))
    (profiles : list AnimationProfile) :
  foldl Recover.profiles_step profiles
    (map (fun g => (g.1, map Recover.parsed g.2)) groups)
  = foldl profiles_step profiles groups.
Proof.
  revert profiles. induction groups as [|[s g] groups IH]; intros profiles;
    [done|].
  cbn [map foldl fst snd]. by rewrite recover_profiles_step, IH.
Qed.

(** X27. The recovery script re-implements profile extraction in plain
    JavaScript; on the records that a capture session wrote (every
    snapshot with its style and its class list) it extracts exactly the
    profiles of trace-writer.ts, in the same order. *)
Theorem recover_extractProfiles_agrees (traces : list TraceRecord) :
  Recover.extractProfiles (map Recover.parsed traces)
  = extractProfiles traces.
Proof.
  unfold Recover.extractProfiles, extractProfiles, groupBySelector.
  change (@nil (string * list Recover.ParsedTrace))
    with (map (fun g : string * list TraceRecord =>
                 (g.1, map Recover.parsed g.2)) []).
  rewrite recover_groups. apply recover_profiles_fold.
Qed.

(** X28. The recovery script tolerates snapshots without a style. When the
    after snapshot has none, the record gives no style change; when only
    the before snapshot has none, every property of a non-empty after
    style, none of whose keys names a member of [Object.prototype], is
    reported, coming from the empty string. *)
Theorem recover_tolerates_missing_styles
    (t : Recover.ParsedTrace) (ev : InteractionEvent)
    (b a : Recover.ParsedSnapshot)
    (Hev : Recover.parsed_event t = Some ev)
    (Hb : Recover.parsed_before t = Some b)
    (Ha : Recover.parsed_after t = Some a) :
  (Recover.parsed_computed a = None -> Recover.styleChangeOf t = None)
  /\ (Recover.parsed_computed b = None ->
      forall afterStyle,
        Recover.parsed_computed a = Some afterStyle ->
        JSObject.plain afterStyle -> afterStyle <> ∅ ->
        exists c,
          Recover.styleChangeOf t = Some c
          /\ forall k,
               properties (change_effect c) !! k
               = (fun v => {| from := ""; to := v |}) <$> afterStyle !! k).
Proof.
  unfold Recover.styleChangeOf. rewrite Hev, Hb, Ha. split.
  - intros ->. simpl.
    by rewrite (changedProperties_unchanged _ ∅)
      by (intros k v; by rewrite lookup_empty).
  - intros -> afterStyle -> _ Hne. simpl.
    assert (forall k,
              changedProperties ∅ afterStyle !! k
              = (fun v => {| from := ""; to := v |}) <$> afterStyle !! k)
      as Hlookup.
    { intros k. rewrite changedProperties_lookup, lookup_empty.
      destruct (afterStyle !! k) as [v|]; [|done].
      destruct (decide _) as [Heq|_]; [done|]. simpl. by destruct v. }
    destruct (0 <? size (changedProperties ∅ afterStyle))%nat eqn:Hsize.
    + eexists. split; [done|]. simpl. exact Hlookup.
    + exfalso. apply Hne. apply map_empty. intros k.
      apply Nat.ltb_ge in Hsize.
      assert (changedProperties ∅ afterStyle = ∅) as Hempty
        by (apply map_size_empty_iff; lia).
      specialize (Hlookup k). rewrite Hempty, lookup_empty in Hlookup.
      by destruct (afterStyle !! k).
Qed.

Lemma recover_tolerates_missing_styles_witness :
  Recover.styleChangeOf styleLost = None
  /\ exists c,
       Recover.styleChangeOf styleFound = Some c
       /\ properties (change_effect c) !! "opacity"
          = Some {| from := ""; to := "1" |}.
Proof.
  split.
  - exact (proj1 (recover_tolerates_missing_styles styleLost _ _ _
                    eq_refl eq_refl eq_refl) eq_refl).
  - assert (JSObject.plain ({[ "opacity" := "1" ]} : gmap string string))
      as Hplain.
    { apply map_Forall_singleton, plainKey_intro. vm_compute. reflexivity. }
    assert (({[ "opacity" := "1" ]} : gmap string string) <> ∅) as Hne.
    { intros Hempty.
      apply (f_equal (fun m : gmap string string => m !! "opacity"))
        in Hempty. vm_compute in Hempty. discriminate. }
    destruct (proj2 (recover_tolerates_missing_styles styleFound _ _ _
                       eq_refl eq_refl eq_refl) eq_refl _ eq_refl Hplain Hne)
      as (c & Hc & Hk).
    exists c. split; [exact Hc|]. rewrite Hk. reflexivity.
Defined.

End Recovery.
